(** * CLPsych 2025 shared-task evaluation: scorers, aggregator and validator

    A shallow embedding of [evaluation/run.py], [evaluation/span_scorer.py],
    [evaluation/wellbeing_scorer.py], [evaluation/nli_scorer.py] and
    [evaluation/submission_validator.py].

    Modelling conventions.
    - Values read by [json.load] are the inductive [json]; a Python [dict]
      read from JSON is an association list with unique keys, in file order.
    - Python text is [string], read as a sequence of code points below
      U+0100 (one [ascii] each); [str.isspace], [str.isnumeric] and [int] are
      given on all 256 of them.
    - A Python float read from JSON is a [pyfloat]: an exact rational, one of
      the two infinities or not-a-number ([json.load] accepts the literals
      NaN, Infinity and -Infinity).  Binary64 rounding is not represented.
      A numpy float64 result is an [npfloat]; the not-a-number of an empty
      mean is [NaN].
    - A numpy int64 is a [Z] with the conversion [to_int64], which raises
      outside the range, and the wrap-around [wrap64] of its arithmetic.
    - A raised exception is [Raise e]; a returned value is [Ok v].
    - The pretrained models (sentence splitter, sub-word tokenizer, BERTScore,
      NLI classifier) are Section variables: total functions of their text
      arguments.
    - The gold data written by [process_gold_data.py] and the
      timeline-to-post mapping written by [setup.py] are typed records and
      lists; the submission is an arbitrary [json] value. *)

From Stdlib Require Import ZArith QArith Qcanon String Ascii List Bool Lia.
From stdpp Require Import base option list strings gmap numbers pretty.

Open Scope string_scope.
Open Scope list_scope.
Open Scope Z_scope.

(** ** Exceptions and the error monad *)

Inductive exn : Type :=
| KeyError (key : string)
| TypeError
| AttributeError
| IndexError
| ZeroDivisionError
| RecursionError
| OverflowError
| ValueError (msg : string).

Inductive result (A : Type) : Type :=
| Ok (a : A)
| Raise (e : exn).
Arguments Ok {A} a.
Arguments Raise {A} e.

Global Instance exn_eq_dec : EqDecision exn.
Proof. solve_decision. Defined.
Global Instance result_eq_dec {A} `{EqDecision A} : EqDecision (result A).
Proof. solve_decision. Defined.

Definition bind {A B} (m : result A) (k : A -> result B) : result B :=
  match m with
  | Ok a => k a
  | Raise e => Raise e
  end.

Notation "'let*' x := m 'in' k" := (bind m (fun x => k))
  (at level 10, x pattern, m at level 100, k at level 200).

Definition is_Ok {A} (m : result A) : Prop := exists a, m = Ok a.

(** Every exception the computation can raise satisfies [P]. *)
Definition raises_only {A} (P : exn -> Prop) (m : result A) : Prop :=
  forall e, m = Raise e -> P e.

(** [for x in l: acc = f acc x], stopping at the first exception. *)
Fixpoint foldM {A B} (f : B -> A -> result B) (l : list A) (acc : B) : result B :=
  match l with
  | [] => Ok acc
  | x :: l' => let* acc' := f acc x in foldM f l' acc'
  end.

Fixpoint mapM {A B} (f : A -> result B) (l : list A) : result (list B) :=
  match l with
  | [] => Ok []
  | x :: l' => let* y := f x in let* ys := mapM f l' in Ok (y :: ys)
  end.

(** ** Python strings *)

(** [str.isspace] on one character: TAB, LF, VT, FF, CR, the four
    separators FS GS RS US, SPACE, and beyond the 7-bit characters NEL
    (U+0085) and the no-break space (U+00A0). *)
Definition is_space (a : ascii) : bool :=
  let n := nat_of_ascii a in
  ((9 <=? n)%nat && (n <=? 13)%nat) || ((28 <=? n)%nat && (n <=? 32)%nat)
  || (n =? 133)%nat || (n =? 160)%nat.

(** [str.isdecimal] on one character: the digits 0 to 9. *)
Definition is_digit (a : ascii) : bool :=
  let n := nat_of_ascii a in (48 <=? n)%nat && (n <=? 57)%nat.

(** [str.isnumeric] on one character: the digits, the superscripts two,
    three (U+00B2, U+00B3) and one (U+00B9), and the fractions one quarter, one
    half and three quarters (U+00BC to U+00BE). *)
Definition is_numeric (a : ascii) : bool :=
  let n := nat_of_ascii a in
  is_digit a || (n =? 178)%nat || (n =? 179)%nat || (n =? 185)%nat
  || ((188 <=? n)%nat && (n <=? 190)%nat).

Fixpoint lstrip (s : string) : string :=
  match s with
  | EmptyString => EmptyString
  | String a s' => if is_space a then lstrip s' else s
  end.

Fixpoint rstrip (s : string) : string :=
  match s with
  | EmptyString => EmptyString
  | String a s' =>
      match rstrip s' with
      | EmptyString => if is_space a then EmptyString else String a EmptyString
      | r => String a r
      end
  end.

(** [s.strip()] *)
Definition strip (s : string) : string := lstrip (rstrip s).

(** Truth value of a string: non-empty. *)
Definition str_truthy (s : string) : bool :=
  match s with EmptyString => false | _ => true end.

Fixpoint all_digits (s : string) : bool :=
  match s with
  | EmptyString => true
  | String a s' => is_digit a && all_digits s'
  end.

Fixpoint all_numeric (s : string) : bool :=
  match s with
  | EmptyString => true
  | String a s' => is_numeric a && all_numeric s'
  end.

(** [s.isnumeric()]: at least one character, all of them numeric. *)
Definition isnumeric (s : string) : bool := str_truthy s && all_numeric s.

Fixpoint int_of_digits (acc : Z) (s : string) : Z :=
  match s with
  | EmptyString => acc
  | String a s' => int_of_digits (10 * acc + (Z.of_nat (nat_of_ascii a) - 48)) s'
  end.

(** [sys.get_int_max_str_digits()], as CPython sets it. *)
Definition int_max_str_digits : nat := 4300.

(** [int(s)] on a string without sign, blank or underscore (as one that
    passed [isnumeric] is): the value of a decimal numeral; a [ValueError] on a
    character that is not a decimal digit, on the empty string, and on a
    numeral of more than [int_max_str_digits] digits. *)
Definition int_of_str (s : string) : result Z :=
  if negb (str_truthy s && all_digits s) then
    Raise (ValueError "invalid literal for int() with base 10")
  else if (int_max_str_digits <? String.length s)%nat then
    Raise (ValueError "Exceeds the limit (4300 digits) for integer string conversion")
  else Ok (int_of_digits 0 s).

(** [[s.strip() for s in l if s.strip()]] *)
Definition strip_nonempty (l : list string) : list string :=
  filter (fun s => str_truthy s = true) (map strip l).

(** ** JSON values *)

#[local] Set Warnings "-register-all".

(** A Python float: [json.load] also gives not-a-number and the two
    infinities. *)
Inductive pyfloat : Type :=
| FNaN
| FInf (negative : bool)
| FFin (x : Qc).

Global Instance pyfloat_eq_dec : EqDecision pyfloat.
Proof. solve_decision. Defined.

Inductive json : Type :=
| JNull
| JBool (b : bool)
| JInt (n : Z)
| JFloat (x : pyfloat)
| JStr (s : string)
| JList (l : list json)
| JDict (d : list (string * json)).

Fixpoint assoc {A} (k : string) (d : list (string * A)) : option A :=
  match d with
  | [] => None
  | (k', v) :: d' => if String.eqb k k' then Some v else assoc k d'
  end.

(** [v[k]] with a string key. *)
Definition getitem (v : json) (k : string) : result json :=
  match v with
  | JDict d => match assoc k d with Some x => Ok x | None => Raise (KeyError k) end
  | _ => Raise TypeError
  end.

(** [v.get(k, default)] *)
Definition dict_get (v : json) (k : string) (default : json) : result json :=
  match v with
  | JDict d => Ok (match assoc k d with Some x => x | None => default end)
  | _ => Raise AttributeError
  end.

(** The items produced by iterating over a value, as [list.extend] does. *)
Definition iter_items (v : json) : result (list json) :=
  match v with
  | JList l => Ok l
  | JDict d => Ok (map (fun kv => JStr (fst kv)) d)
  | JStr s => Ok (map (fun a => JStr (String a EmptyString)) (list_ascii_of_string s))
  | _ => Raise TypeError
  end.

(** ** Numbers *)

(** The numeric Python values a prediction can hold: [bool] (a subclass of
    [int]), [int] and [float]. *)
Inductive num : Type :=
| NBool (b : bool)
| NInt (n : Z)
| NFloat (x : pyfloat).

(** A numpy float64 result. *)
Inductive npfloat : Type :=
| NaN
| Fin (x : Qc).

Global Instance num_eq_dec : EqDecision num.
Proof. solve_decision. Defined.
Global Instance npfloat_eq_dec : EqDecision npfloat.
Proof. solve_decision. Defined.

(** [float(n)] on an integer: an [OverflowError] from the first integer that
    rounds beyond the largest float64. *)
Definition float_of_int (n : Z) : result Qc :=
  if 2 ^ 1024 - 2 ^ 970 <=? Z.abs n then Raise OverflowError else Ok (Qc_of_Z n).

(** The conversion of a number to float64 when an array is validated by
    scikit-learn, which rejects the values that are not finite. *)
Definition num_val (v : num) : result Qc :=
  match v with
  | NBool b => Ok (Qc_of_Z (Z.b2z b))
  | NInt n => float_of_int n
  | NFloat (FFin x) => Ok x
  | NFloat FNaN => Raise (ValueError "Input contains NaN")
  | NFloat (FInf _) => Raise (ValueError "Input contains infinity")
  end.

(** [int(x)] on a finite float: truncation toward zero. *)
Definition Qc_trunc (x : Qc) : Z := Z.quot (Qnum x) (Zpos (Qden x)).

(** [int(v)] *)
Definition num_int (v : num) : result Z :=
  match v with
  | NBool b => Ok (Z.b2z b)
  | NInt n => Ok n
  | NFloat (FFin x) => Ok (Qc_trunc x)
  | NFloat FNaN => Raise (ValueError "cannot convert float NaN to integer")
  | NFloat (FInf _) => Raise OverflowError
  end.

(** *** 64-bit integers *)

Definition int64_min : Z := - 2 ^ 63.
Definition int64_max : Z := 2 ^ 63 - 1.

(** The conversion of a Python integer to an element of an int64 array:
    "Python int too large to convert to C long" outside the range. *)
Definition to_int64 (n : Z) : result Z :=
  if (int64_min <=? n) && (n <=? int64_max) then Ok n else Raise OverflowError.

(** The result of int64 arithmetic, which wraps around without an error. *)
Definition wrap64 (n : Z) : Z := (n - int64_min) mod 2 ^ 64 + int64_min.

Definition Qc_max (x y : Qc) : Qc := if decide (x < y)%Qc then y else x.

Definition Qc_sum (l : list Qc) : Qc := foldr Qcplus 0%Qc l.

(** [np.array(l).mean()]: not-a-number on the empty array (numpy only warns). *)
Definition np_mean (l : list Qc) : npfloat :=
  match l with
  | [] => NaN
  | _ => Fin (Qc_sum l / Qc_of_Z (Z.of_nat (length l)))%Qc
  end.

Definition zero_size_max : exn :=
  ValueError "zero-size array to reduction operation maximum which has no identity".

(** The failure of a maximum over an empty array does not occur. *)
Abbreviation no_empty_max m := (raises_only (fun e => e <> zero_size_max) m).

(** [np.array(l).max()]: raises on the empty array. *)
Definition np_max (l : list Qc) : result Qc :=
  match l with
  | [] => Raise zero_size_max
  | x :: l' => Ok (foldl Qc_max x l')
  end.

Definition np_max_Z (l : list Z) : result Z :=
  match l with
  | [] => Raise zero_size_max
  | x :: l' => Ok (foldl Z.max x l')
  end.

(** Boolean-mask indexing [a[mask]]; numpy raises [IndexError] when the mask
    and the array differ in length. *)
Fixpoint mask_select {A} (a : list A) (mask : list bool) : result (list A) :=
  match a, mask with
  | [], [] => Ok []
  | x :: a', b :: mask' =>
      let* r := mask_select a' mask' in
      Ok (if b then x :: r else r)
  | _, _ => Raise IndexError
  end.

(** Boolean-mask assignment [a[mask] = vals]: the values go, in order, to the
    positions where the mask is set. *)
Fixpoint mask_assign {A} (a : list A) (mask : list bool) (vals : list A)
  : result (list A) :=
  match a, mask with
  | [], [] => match vals with [] => Ok [] | _ => Raise (ValueError "shape mismatch") end
  | x :: a', true :: mask' =>
      match vals with
      | v :: vals' => let* r := mask_assign a' mask' vals' in Ok (v :: r)
      | [] => Raise (ValueError "shape mismatch")
      end
  | x :: a', false :: mask' =>
      let* r := mask_assign a' mask' vals in Ok (x :: r)
  | _, _ => Raise IndexError
  end.

(** [mask.any()] and [mask.all()] *)
Definition mask_any (mask : list bool) : bool := existsb id mask.
Definition mask_all (mask : list bool) : bool := forallb id mask.

(** ** Metric results *)

Record metric : Type := { task : string; value : npfloat }.

Global Instance metric_eq_dec : EqDecision metric.
Proof. solve_decision. Defined.

(** The dictionary a scorer returns: metric name to task and value. *)
Abbreviation results := (gmap string metric).

(** ** wellbeing_scorer.py *)

Module WellbeingScorer.

Definition max_possible_error : Z := 9.
Definition bins : list (string * (Z * Z)) :=
  [("serious", (1, 4)); ("impaired", (5, 6)); ("minimal", (7, 10))].

Definition is_None {A} (o : option A) : bool :=
  match o with None => true | Some _ => false end.

(** [a.astype(int)] on gold scores: [int(None)] is a [TypeError], an
    integer outside int64 an [OverflowError]. *)
Definition astype_int_gold (a : list (option Z)) : result (list Z) :=
  mapM (fun o => match o with Some n => to_int64 n | None => Raise TypeError end) a.

(** [a.astype(int)] on predictions held in an array of objects (the type of
    an array in which a null was read): each one goes through [int] and must
    then fit int64. *)
Definition astype_int_pred (a : list (option num)) : result (list Z) :=
  mapM (fun o => match o with
                 | Some v => let* n := num_int v in to_int64 n
                 | None => Raise TypeError
                 end) a.

Definition check_and_process_wellbeing_scores
    (y_trues : list (option Z)) (y_preds : list (option num)) (do_penalize : bool)
  : result (list Z * list (option num) * list bool) :=
  (* Skip indices where post is not annotated for wellbeing *)
  let valid_gold_idx := map (fun o => negb (is_None o)) y_trues in
  let* y_trues := mask_select y_trues valid_gold_idx in
  let* y_preds := mask_select y_preds valid_gold_idx in
  (* Handle missing predictions *)
  let none_pred_idx := map is_None y_preds in
  if negb do_penalize then
    let* yt := mask_select y_trues (map negb none_pred_idx) in
    let* yt := astype_int_gold yt in
    let* yp := mask_select y_preds (map negb none_pred_idx) in
    let* yp := astype_int_pred yp in
    Ok (yt, map (fun n => Some (NInt n)) yp, [])
  else
    let* yt := astype_int_gold y_trues in
    Ok (yt, y_preds, none_pred_idx).

(** [sklearn.metrics.mean_squared_error]: the inputs must have the same,
    non-zero, number of samples and hold numbers only. *)
Definition mean_squared_error (y_true : list Z) (y_pred : list (option num))
  : result Qc :=
  if negb (length y_true =? length y_pred)%nat then
    Raise (ValueError "Found input variables with inconsistent numbers of samples")
  else
    let* preds := mapM (fun o => match o with
                                 | Some v => num_val v
                                 | None => Raise TypeError
                                 end) y_pred in
    match y_true with
    | [] => Raise (ValueError "Found array with 0 sample(s)")
    | _ =>
        let sq := zip_with (fun t p => ((Qc_of_Z t - p) * (Qc_of_Z t - p))%Qc) y_true preds in
        Ok (Qc_sum sq / Qc_of_Z (Z.of_nat (length sq)))%Qc
    end.

(** Lines 92-104 of [compute_mse]: the penalty for missing predictions. *)
Definition penalize_missing (y_trues : list Z) (y_preds : list (option num))
    (none_mask : list bool) : result (list (option num)) :=
  if mask_any none_mask then
    let* max_error :=
      if mask_all none_mask then Ok max_possible_error
      else
        let* y_trues_subset := mask_select y_trues (map negb none_mask) in
        let* y_preds_subset := mask_select y_preds (map negb none_mask) in
        let* y_preds_subset := astype_int_pred y_preds_subset in
        np_max_Z (map (fun e => wrap64 (Z.abs e))
                      (zip_with (fun t p => wrap64 (t - p))
                                y_trues_subset y_preds_subset)) in
    let* golds := mask_select y_trues none_mask in
    mask_assign y_preds none_mask
      (map (fun t => Some (NInt (wrap64 (t + max_error)))) golds)
  else Ok y_preds.

Definition metric_name (suffix : string) : string :=
  if str_truthy suffix then "mse_" +:+ suffix else "mse".

Definition in_bin (bin_min bin_max t : Z) : bool := (bin_min <=? t) && (t <=? bin_max).

(** Lines 115-127: the body of the loop over the bins. *)
Definition score_bin
    (self : list (option Z) -> list (option num) -> bool -> bool -> string -> result results)
    (do_penalize : bool) (y_trues : list Z) (y_preds : list (option num))
    (acc : results) (bin : string * (Z * Z)) : result results :=
  let '(bin_label, (bin_min, bin_max)) := bin in
  let bin_mask := map (in_bin bin_min bin_max) y_trues in
  if negb (mask_any bin_mask) then Ok acc
  else
    let* yt := mask_select y_trues bin_mask in
    let* yp := mask_select y_preds bin_mask in
    let* sub := self (map Some yt) yp do_penalize false bin_label in
    (* result.update(sub): the entries of [sub] replace those of the result *)
    Ok (sub ∪ acc).

(** One activation of [compute_mse]; [self] is the recursive call. *)
Definition compute_mse_body
    (self : list (option Z) -> list (option num) -> bool -> bool -> string -> result results)
    (y_trues : list (option Z)) (y_preds : list (option num))
    (do_penalize do_binwise : bool) (suffix : string) : result results :=
  let* processed :=
    check_and_process_wellbeing_scores y_trues y_preds do_penalize in
  let '(y_trues, y_preds, none_mask) := processed in
  let* y_preds := penalize_missing y_trues y_preds none_mask in
  let* mse := mean_squared_error y_trues y_preds in
  let result : results :=
    {[ metric_name suffix := {| task := "A.2"; value := Fin mse |} ]} in
  if do_binwise then
    (* Compute score for each category for optional analysis *)
    foldM (score_bin self do_penalize y_trues y_preds) bins result
  else Ok result.

(** The recursion of [compute_mse], bounded by a call depth. *)
Fixpoint compute_mse_depth (depth : nat)
    (y_trues : list (option Z)) (y_preds : list (option num))
    (do_penalize do_binwise : bool) (suffix : string) : result results :=
  match depth with
  | O => Raise RecursionError
  | S d => compute_mse_body (compute_mse_depth d) y_trues y_preds do_penalize do_binwise suffix
  end.

(** [compute_mse]: the recursive call passes [do_binwise=False], so two
    activations are all that ever run (see [compute_mse_depth_enough]). *)
Definition compute_mse := compute_mse_depth 2.

(** *** Vocabulary for the statements about [compute_mse] *)

(** The pairs that are scored: those whose gold value is not null. *)
Fixpoint annotated (y_trues : list (option Z)) (y_preds : list (option num))
  : list (Z * option num) :=
  match y_trues, y_preds with
  | Some t :: y_trues', p :: y_preds' => (t, p) :: annotated y_trues' y_preds'
  | None :: y_trues', _ :: y_preds' => annotated y_trues' y_preds'
  | _, _ => []
  end.

(** The integer and the float64 that a number stands for, when [int] and the
    conversion to float64 give one. *)
Definition int_of (v : num) : Z :=
  match num_int v with Ok n => n | Raise _ => 0 end.
Definition val_of (v : num) : Qc :=
  match num_val v with Ok x => x | Raise _ => 0%Qc end.

(** The values on which the int64 arithmetic of the penalty is exact. *)
Definition bound : Z := 2 ^ 61.
Definition small (n : Z) : Prop := - bound <= n <= bound.

(** A pair whose gold value is small and whose prediction, when there is one,
    is finite with a small integer part. *)
Definition in_range (tp : Z * option num) : Prop :=
  small (fst tp)
  /\ match snd tp with
     | Some v => exists n, num_int v = Ok n /\ small n
     | None => True
     end.

(** The absolute errors of the predictions that are not null, each prediction
    first converted by [int]. *)
Definition observed_errors (pairs : list (Z * option num)) : list Z :=
  omap (fun tp => (fun v => Z.abs (fst tp - int_of v)) <$> snd tp) pairs.

Definition max_error_of (pairs : list (Z * option num)) : Z :=
  match observed_errors pairs with
  | [] => max_possible_error
  | e :: es => foldl Z.max e es
  end.

(** The prediction that is scored for a pair: a null becomes gold plus the
    penalty. *)
Definition penalized (max_error : Z) (tp : Z * option num) : num :=
  match snd tp with
  | None => NInt (fst tp + max_error)
  | Some v => v
  end.

(** The pairs that can be scored once penalized by [E]: the gold value is
    small and the prediction has a float64 value. *)
Definition scorable (E : Z) (tp : Z * option num) : Prop :=
  small (fst tp) /\ num_val (penalized E tp) = Ok (val_of (penalized E tp)).

Definition missing (tp : Z * option num) : bool := is_None (snd tp).

(** The mean of the squared differences. *)
Definition mse_of (pairs : list (Z * num)) : Qc :=
  let sq := map (fun tp => ((Qc_of_Z (fst tp) - val_of (snd tp))
                            * (Qc_of_Z (fst tp) - val_of (snd tp)))%Qc) pairs in
  (Qc_sum sq / Qc_of_Z (Z.of_nat (length sq)))%Qc.

(** The pairs that enter the mean: gold value and penalized prediction. *)
Definition scored (max_error : Z) (pairs : list (Z * option num)) : list (Z * num) :=
  map (fun tp => (fst tp, penalized max_error tp)) pairs.

End WellbeingScorer.

(** ** span_scorer.py *)

Module SpanScorer.
Section Scorer.
(** [self.tokenizer(texts)["input_ids"]], one id list per text, the two
    special tokens included. *)
Variable tokenizer : string -> list Z.
(** [self.scorer.score([cand], [ref])]: the F component of BERTScore. *)
Variable bertscore_F : string -> string -> Qc.

Definition scorer_task : string := "A.1".

(** Return default values when no predictions are submitted. *)
Definition score_empty_predictions : results :=
  <["bertscore_weighted_recall" := {| task := scorer_task; value := Fin 0%Qc |}]>
    {["bertscore_recall" := {| task := scorer_task; value := Fin 0%Qc |}]}.

(** [[s.strip() for s in spans if s.strip()]] over submitted values: a value
    that is not a string has no [strip]. *)
Fixpoint strip_spans (spans : list json) : result (list string) :=
  match spans with
  | [] => Ok []
  | JStr s :: rest =>
      let* r := strip_spans rest in
      Ok (if str_truthy (strip s) then strip s :: r else r)
  | _ :: _ => Raise AttributeError
  end.

(** [sum(len(_) - 2 for _ in self.tokenizer(spans)["input_ids"])] *)
Definition num_spans_tokens (spans : list string) : Z :=
  foldr Z.add 0 (map (fun s => Z.of_nat (length (tokenizer s)) - 2) spans).

Definition span_weight (num_gold_spans_tokens num_pred_spans_tokens : Z)
  : result Qc :=
  if num_gold_spans_tokens <? num_pred_spans_tokens then
    if num_pred_spans_tokens =? 0 then Raise ZeroDivisionError
    else Ok (Qc_of_Z num_gold_spans_tokens / Qc_of_Z num_pred_spans_tokens)%Qc
  else Ok 1%Qc.

(** Score predicted evidence spans by comparing with reference spans. *)
Definition compute_span_metrics (gold_spans : list string)
    (predicted_spans : list json) : result results :=
  let gold_spans := strip_nonempty gold_spans in
  let* predicted_spans := strip_spans predicted_spans in
  match predicted_spans with
  | [] => Ok score_empty_predictions
  | pred0 :: preds =>
      let num_gold_spans_tokens := num_spans_tokens gold_spans in
      let num_pred_spans_tokens := num_spans_tokens predicted_spans in
      let* weight := span_weight num_gold_spans_tokens num_pred_spans_tokens in
      (* for each expert evidence span, calculate maximum BERTScore *)
      let curr_recalls :=
        map (fun gold_span =>
               foldl Qc_max (bertscore_F pred0 gold_span)
                     (map (fun p => bertscore_F p gold_span) preds))
            gold_spans in
      let curr_recalls_weighted := map (fun score => (score * weight)%Qc) curr_recalls in
      Ok (<["bertscore_weighted_recall" :=
              {| task := scorer_task; value := np_mean curr_recalls_weighted |}]>
            {["bertscore_recall" :=
                {| task := scorer_task; value := np_mean curr_recalls |}]})
  end.
End Scorer.

(** The verbosity weight of step 3. *)
Definition weight_of (g p : Z) : Qc :=
  if g <? p then (Qc_of_Z g / Qc_of_Z p)%Qc else 1%Qc.

End SpanScorer.

(** ** nli_scorer.py *)

Module NLIScorer.

(** The softmax over the three labels. *)
Record prediction : Type :=
  { entailment : Qc; neutral : Qc; contradiction : Qc }.

Section Scorer.
(** [self._compute_nli_scores(premise, hypothesis)] *)
Variable _compute_nli_scores : string -> string -> prediction.

Definition one_minus (x : npfloat) : npfloat :=
  match x with NaN => NaN | Fin q => Fin (1 - q)%Qc end.

Definition compute_nli_scores (source_sents predicted_sents : list string)
    (task prefix source_name : string) : result results :=
  let* scores :=
    match predicted_sents with
    | _ :: _ =>
        let pairs :=
          flat_map (fun source_sent =>
                      map (fun predicted_sent =>
                             _compute_nli_scores source_sent predicted_sent)
                          predicted_sents)
                   source_sents in
        let entail_scores := map entailment pairs in
        let contradict_scores := map contradiction pairs in
        let mean_consistency := one_minus (np_mean contradict_scores) in
        let* max_entailment := np_max entail_scores in
        let* max_contradiction := np_max contradict_scores in
        Ok (mean_consistency, Fin max_entailment, Fin max_contradiction)
    | [] => Ok (Fin 0%Qc, Fin 0%Qc, Fin 1%Qc)
    end in
  let '(mean_consistency, max_entailment, max_contradiction) := scores in
  Ok (<[prefix +:+ "_max_contradiction_" +:+ source_name :=
          {| task := task; value := max_contradiction |}]>
     (<[prefix +:+ "_max_entailment_" +:+ source_name :=
          {| task := task; value := max_entailment |}]>
       {[prefix +:+ "_mean_consistency_" +:+ source_name :=
          {| task := task; value := mean_consistency |}]})).

(** Compute NLI scores for post-level summary against gold summary. *)
Definition compute_post_nli_gold (gold_sents predicted_sents : list string) :=
  compute_nli_scores gold_sents predicted_sents "B" "post" "gold".

(** Compute NLI scores for timeline-level summary against timeline summary. *)
Definition compute_timeline_nli_gold (gold_sents predicted_sents : list string) :=
  compute_nli_scores gold_sents predicted_sents "C" "timeline" "gold".

Definition compute_summary_nli_evidence (evidence_spans summary_sents : list string) :=
  compute_nli_scores evidence_spans summary_sents "B" "post" "evidence".
End Scorer.
End NLIScorer.

(** ** run.py *)

Module Run.

(** The processed gold annotations ([process_gold_data.py]). *)
Record gold_post : Type :=
  { post_summary_sents : list string;
    post_wellbeing_score : option Z }.

Record gold_timeline_level : Type :=
  { post_ids : list string;
    adaptive_spans : list string;      (* the "text" of each span *)
    maladaptive_spans : list string;
    summary_sents : list string }.

Record gold_datum : Type :=
  { timeline_level : gold_timeline_level;
    post_level : list (string * gold_post) }.

(** The four lists filled by the loop over the posts of a timeline. *)
Record predictions : Type :=
  { predicted_spans_adaptive : list json;
    predicted_spans_maladaptive : list json;
    predicted_wellbeing_scores : list (option num);
    predicted_summary_sents : list (list string) }.

Definition no_predictions : predictions :=
  {| predicted_spans_adaptive := [];
     predicted_spans_maladaptive := [];
     predicted_wellbeing_scores := [];
     predicted_summary_sents := [] |}.

(** Lines 94-104: the type conversion of a submitted wellbeing score.  [int]
    raises on a string that [isnumeric] lets through and that is not a decimal
    numeral within the digit limit. *)
Definition normalize_wellbeing_score (wellbeing_score : json) : result (option num) :=
  match wellbeing_score with
  | JStr s =>
      let s := strip s in
      if str_truthy s && isnumeric s then
        let* n := int_of_str s in Ok (Some (NInt n))
      else Ok None
  | JBool b => Ok (Some (NBool b))      (* isinstance(True, int) holds *)
  | JInt n => Ok (Some (NInt n))
  | JFloat x => Ok (Some (NFloat x))
  | _ => Ok None
  end.

Definition gold_lookup (gold : gold_datum) (pid : string) : result gold_post :=
  match assoc pid (post_level gold) with
  | Some p => Ok p
  | None => Raise (KeyError pid)
  end.

(** The record of a post, as the loop reads it. *)
Definition post_record (submission_data : json) (timeline_id post_id : string)
  : result json :=
  let* timeline := getitem submission_data timeline_id in
  let* posts := getitem timeline "post_level" in
  getitem posts post_id.

Section Aggregator.
Variable sent_tokenize : string -> list string.
Variable tokenizer : string -> list Z.
Variable bertscore_F : string -> string -> Qc.
Variable _compute_nli_scores : string -> string -> NLIScorer.prediction.

(** [[s.strip() for s in sent_tokenize(text) if s.strip()]]; the splitter
    rejects a value that is not text. *)
Definition split_sents (text : json) : result (list string) :=
  match text with
  | JStr s => Ok (strip_nonempty (sent_tokenize s))
  | _ => Raise TypeError
  end.

(** Lines 87-109: one iteration of the loop over [post_ids]. *)
Definition collect_post (submission_data : json) (timeline_id : string)
    (acc : predictions) (post_id : string) : result predictions :=
  let* timeline := getitem submission_data timeline_id in
  let* posts := getitem timeline "post_level" in
  let* post_datum := getitem posts post_id in
  let* adaptive := dict_get post_datum "adaptive_evidence" (JList []) in
  let* adaptive := iter_items adaptive in
  let* maladaptive := dict_get post_datum "maladaptive_evidence" (JList []) in
  let* maladaptive := iter_items maladaptive in
  let* wellbeing_score := dict_get post_datum "wellbeing_score" JNull in
  let* wellbeing_score := normalize_wellbeing_score wellbeing_score in
  let* post_summary := dict_get post_datum "summary" (JStr "") in
  let* sents := split_sents post_summary in
  Ok {| predicted_spans_adaptive := predicted_spans_adaptive acc ++ adaptive;
        predicted_spans_maladaptive := predicted_spans_maladaptive acc ++ maladaptive;
        predicted_wellbeing_scores := predicted_wellbeing_scores acc ++ [wellbeing_score];
        predicted_summary_sents := predicted_summary_sents acc ++ [sents] |}.

(** [{metric_name + suffix: v for metric_name, v in r.items()}] *)
Definition with_suffix (suffix : string) (r : results) : results :=
  kmap (fun metric_name => metric_name +:+ suffix) r.

Definition task_A1 (gold : gold_datum) (preds : predictions)
  : result (list results) :=
  let gold_spans_adaptive := adaptive_spans (timeline_level gold) in
  let gold_spans_maladaptive := maladaptive_spans (timeline_level gold) in
  let* curr_result_adaptive :=
    SpanScorer.compute_span_metrics tokenizer bertscore_F
      gold_spans_adaptive (predicted_spans_adaptive preds) in
  let* curr_result_maladaptive :=
    SpanScorer.compute_span_metrics tokenizer bertscore_F
      gold_spans_maladaptive (predicted_spans_maladaptive preds) in
  Ok [curr_result_adaptive; curr_result_maladaptive;
      with_suffix "_adaptive" curr_result_adaptive;
      with_suffix "_maladaptive" curr_result_maladaptive].

Definition task_A2 (gold : gold_datum) (preds : predictions)
  : result (list results) :=
  let* gold_posts := mapM (gold_lookup gold) (post_ids (timeline_level gold)) in
  let gold_wellbeing_scores := map post_wellbeing_score gold_posts in
  let* r := WellbeingScorer.compute_mse gold_wellbeing_scores
              (predicted_wellbeing_scores preds) true true "" in
  Ok [r].

Definition task_B (gold : gold_datum) (preds : predictions)
  : result (list results) :=
  let* gold_posts := mapM (gold_lookup gold) (post_ids (timeline_level gold)) in
  let gold_summary_sents := map post_summary_sents gold_posts in
  foldM (fun curr_results '(curr_gold_summary_sents, curr_predicted_summary_sents) =>
           (* Evaluate only if there is a non-empty gold summary *)
           match curr_gold_summary_sents with
           | _ :: _ =>
               let* r := NLIScorer.compute_post_nli_gold _compute_nli_scores
                           curr_gold_summary_sents curr_predicted_summary_sents in
               Ok (curr_results ++ [r])
           | [] => Ok curr_results
           end)
        (zip gold_summary_sents (predicted_summary_sents preds)) [].

Definition task_C (submission_data : json) (timeline_id : string)
    (gold : gold_datum) : result (list results) :=
  let* timeline := getitem submission_data timeline_id in
  let* tl := getitem timeline "timeline_level" in
  let* timeline_summary := getitem tl "summary" in
  let predicted_summary_sents_timeline :=
    match timeline_summary with
    | JStr s => strip_nonempty (sent_tokenize s)
    | _ => []
    end in
  let gold_summary_sents_timeline := summary_sents (timeline_level gold) in
  (* Evaluate only if there is a non-empty gold summary *)
  match gold_summary_sents_timeline with
  | _ :: _ =>
      let* r := NLIScorer.compute_timeline_nli_gold _compute_nli_scores
                  gold_summary_sents_timeline predicted_summary_sents_timeline in
      Ok [r]
  | [] => Ok []
  end.

Definition when (b : bool) (m : result (list results)) : result (list results) :=
  if b then m else Ok [].

(** The body of the loop over [gold_data.items()]. *)
Definition score_timeline (submission_data : json)
    (do_A1 do_A2 do_B do_C : bool)
    (timeline_id : string) (gold : gold_datum) : result (list results) :=
  let* preds := foldM (collect_post submission_data timeline_id)
                  (post_ids (timeline_level gold)) no_predictions in
  let* a1 := when do_A1 (task_A1 gold preds) in
  let* a2 := when do_A2 (task_A2 gold preds) in
  let* b := when do_B (task_B gold preds) in
  let* c := when do_C (task_C submission_data timeline_id gold) in
  Ok (a1 ++ a2 ++ b ++ c).

Definition score_submission (submission_data : json)
    (gold_data : list (string * gold_datum))
    (do_A1 do_A2 do_B do_C : bool) : result (list (string * list results)) :=
  mapM (fun '(timeline_id, gold) =>
          let* curr_results :=
            score_timeline submission_data do_A1 do_A2 do_B do_C timeline_id gold in
          Ok (timeline_id, curr_results))
       gold_data.
End Aggregator.

(** *** Vocabulary for the statements about the loop *)

(** The four fields read from a post record, each with the default of its
    [.get]. *)
Definition field_defaults : list (string * json) :=
  [("adaptive_evidence", JList []); ("maladaptive_evidence", JList []);
   ("wellbeing_score", JNull); ("summary", JStr "")].

(** *** Vocabulary for the statements about the gold data *)

(** Every post of the timeline has its gold record. *)
Definition gold_complete (gold : gold_datum) : Prop :=
  forall p, In p (post_ids (timeline_level gold)) ->
            exists g, assoc p (post_level gold) = Some g.

(** Some post of the timeline is annotated for wellbeing. *)
Definition gold_annotated (gold : gold_datum) : Prop :=
  exists p g w, In p (post_ids (timeline_level gold))
                /\ assoc p (post_level gold) = Some g
                /\ post_wellbeing_score g = Some w.

(** The timeline and its posts are those the mapping file lists. *)
Definition gold_expected (mapping : list (string * list string))
    (timeline_id : string) (gold : gold_datum) : Prop :=
  exists posts, assoc timeline_id mapping = Some posts
                /\ forall p, In p (post_ids (timeline_level gold)) -> In p posts.

(** The four lists are aligned with [n] posts, and the spans are strings. *)
Definition collected (n : nat) (preds : predictions) : Prop :=
  (exists spans, predicted_spans_adaptive preds = JStr <$> spans)
  /\ (exists spans, predicted_spans_maladaptive preds = JStr <$> spans)
  /\ length (predicted_wellbeing_scores preds) = n
  /\ length (predicted_summary_sents preds) = n.

(** A normalized score that is null or has an integer part from 1 to 10. *)
Definition in_bounds (w : option num) : Prop :=
  match w with
  | None => True
  | Some v => exists k, num_int v = Ok k /\ 1 <= k <= 10
  end.

(** The gold wellbeing scores of the timeline are small integers. *)
Definition gold_small (gold : gold_datum) : Prop :=
  forall p g w, assoc p (post_level gold) = Some g ->
                post_wellbeing_score g = Some w -> WellbeingScorer.small w.

(** Each of the two lists of gold spans has a span that is not blank. *)
Definition gold_spans_present (gold : gold_datum) : Prop :=
  strip_nonempty (adaptive_spans (timeline_level gold)) <> []
  /\ strip_nonempty (maladaptive_spans (timeline_level gold)) <> [].

(** What the tasks that are run ask of the gold data of a timeline. *)
Definition gold_scorable (do_A1 do_A2 do_B : bool) (gold : gold_datum) : Prop :=
  (do_A1 = true -> gold_spans_present gold)
  /\ (do_A2 = true \/ do_B = true -> gold_complete gold)
  /\ (do_A2 = true -> gold_annotated gold /\ gold_small gold).

(** No post of the gold timeline has not-a-number as its submitted score. *)
Definition no_nan_scores (submission_data : json) (timeline_id : string)
    (gold : gold_datum) : Prop :=
  forall p fields,
    In p (post_ids (timeline_level gold)) ->
    post_record submission_data timeline_id p = Ok (JDict fields) ->
    assoc "wellbeing_score" fields <> Some (JFloat FNaN).
End Run.

(** ** Stand-ins for the pretrained models

    Small total functions with the types of the models, to run the scorers
    on concrete inputs. *)

Module Stub.

(** One sentence per line of the text. *)
Fixpoint lines (cur : string) (s : string) : list string :=
  match s with
  | EmptyString => [cur]
  | String a s' =>
      if Ascii.eqb a "010"%char then cur :: lines "" s'
      else lines (cur +:+ String a EmptyString) s'
  end.

Definition sent_tokenize (s : string) : list string :=
  match s with EmptyString => [] | _ => lines "" s end.

(** One token per character, between the two special tokens. *)
Definition tokenizer (s : string) : list Z :=
  1 :: map (fun a => Z.of_nat (nat_of_ascii a)) (list_ascii_of_string s) ++ [2].

(** Full score for identical spans, half otherwise. *)
Definition bertscore_F (candidate reference : string) : Qc :=
  if String.eqb candidate reference then 1%Qc else Q2Qc (1 # 2).

Definition nli (premise hypothesis : string) : NLIScorer.prediction :=
  if String.eqb premise hypothesis then
    {| NLIScorer.entailment := Q2Qc (8 # 10);
       NLIScorer.neutral := Q2Qc (1 # 10);
       NLIScorer.contradiction := Q2Qc (1 # 10) |}
  else
    {| NLIScorer.entailment := Q2Qc (2 # 10);
       NLIScorer.neutral := Q2Qc (5 # 10);
       NLIScorer.contradiction := Q2Qc (3 # 10) |}.

(** One timeline with two posts, and a submission that has only the first. *)
Definition gold_data : list (string * Run.gold_datum) :=
  [("t1",
    {| Run.timeline_level :=
         {| Run.post_ids := ["p1"; "p2"];
            Run.adaptive_spans := ["went for a walk"];
            Run.maladaptive_spans := ["could not sleep"];
            Run.summary_sents := ["They struggle with sleep."] |};
       Run.post_level :=
         [("p1", {| Run.post_summary_sents := ["They went for a walk."];
                    Run.post_wellbeing_score := Some 7 |});
          ("p2", {| Run.post_summary_sents := [];
                    Run.post_wellbeing_score := Some 4 |})] |})].

Definition post_p1 : json :=
  JDict [("adaptive_evidence", JList [JStr "went for a walk"]);
         ("maladaptive_evidence", JList []);
         ("summary", JStr "They went for a walk.");
         ("wellbeing_score", JInt 6)].

Definition submission_without_p2 : json :=
  JDict [("t1", JDict [("timeline_level", JDict [("summary", JStr "They struggle.")]);
                       ("post_level", JDict [("p1", post_p1)])])].

(** A record for p2 that holds only two of the four fields. *)
Definition post_partial : json :=
  JDict [("maladaptive_evidence", JList [JStr "could not sleep"]);
         ("wellbeing_score", JInt 4)].

Definition submission_partial : json :=
  JDict [("t1", JDict [("timeline_level", JDict [("summary", JStr "They struggle.")]);
                       ("post_level", JDict [("p1", post_p1); ("p2", post_partial)])])].

Definition submission_complete : json :=
  JDict [("t1", JDict [("timeline_level", JDict [("summary", JStr "They struggle.")]);
                       ("post_level", JDict [("p1", post_p1); ("p2", JDict [])])])].

Definition post_p2 : json :=
  JDict [("adaptive_evidence", JList []);
         ("maladaptive_evidence", JList [JStr "could not sleep"]);
         ("summary", JStr "");
         ("wellbeing_score", JNull)].

(** A submission with both posts, and the mapping file of the timeline. *)
Definition submission_wellformed : json :=
  JDict [("t1", JDict [("timeline_level", JDict [("summary", JStr "They struggle.")]);
                       ("post_level", JDict [("p1", post_p1); ("p2", post_p2)])])].

Definition mapping : list (string * list string) := [("t1", ["p1"; "p2"])].

End Stub.

(** ** submission_validator.py *)

Module Validator.

Inductive pytype : Type := TNone | TBool | TInt | TFloat | TStr | TList | TDict.

Global Instance pytype_eq_dec : EqDecision pytype.
Proof. solve_decision. Defined.

Definition type_of (v : json) : pytype :=
  match v with
  | JNull => TNone
  | JBool _ => TBool
  | JInt _ => TInt
  | JFloat _ => TFloat
  | JStr _ => TStr
  | JList _ => TList
  | JDict _ => TDict
  end.

(** [t.__name__] *)
Definition type_name (t : pytype) : string :=
  match t with
  | TNone => "NoneType"
  | TBool => "bool"
  | TInt => "int"
  | TFloat => "float"
  | TStr => "str"
  | TList => "list"
  | TDict => "dict"
  end.

(** [isinstance(v, t)]; [bool] is a subclass of [int]. *)
Definition isinstance (v : json) (t : pytype) : bool :=
  match type_of v, t with
  | TBool, TInt => true
  | a, b => bool_decide (a = b)
  end.

(** Truth value of a JSON value. *)
Definition truthy (v : json) : bool :=
  match v with
  | JNull => false
  | JBool b => b
  | JInt n => negb (n =? 0)
  | JFloat x => negb (bool_decide (x = FFin 0%Qc))
  | JStr s => str_truthy s
  | JList l => match l with [] => false | _ => true end
  | JDict d => match d with [] => false | _ => true end
  end.

Inductive level : Type := INFO | WARNING | ERROR.

(** What the logger is given; the formatted values are kept as data. *)
Inductive message : Type :=
| ValidatingFile
| InvalidJSON
| FileNotFound
| ErrorReadingFile
| JSONIsEmpty
| Expected (context type_name got : string)
| MissingRequiredFields (context : string) (fields : gset string)
| MissingExpectedTimelines (timelines : gset string)
| UnexpectedTimelines (timelines : gset string)
| ValidatingTimeline (timeline_id : string)
| FileIsValid
| FileIsInvalid (timeline_issue_count post_issue_count : nat)
| IsEmpty (context : string)
| SummaryIsEmpty (context : string)
| ContainsNoPosts (context : string)
| MissingExpectedPosts (context : string) (posts : gset string)
| UnexpectedPosts (context : string) (posts : gset string)
| ScoreIsFloat (context : string)
| ScoreOutOfRange (context : string) (score : json).

(** The attributes of a [Validator] object, and what it has logged so far. *)
Record validator : Type :=
  { valid : bool;
    timeline_id_to_post_ids : list (string * list string);
    timelines_with_issues : gset string;
    posts_with_issues : gset (string * string);
    logged : list (level * message) }.

Definition set_valid (b : bool) (v : validator) : validator :=
  {| valid := b;
     timeline_id_to_post_ids := timeline_id_to_post_ids v;
     timelines_with_issues := timelines_with_issues v;
     posts_with_issues := posts_with_issues v;
     logged := logged v |}.

Definition emit (l : level) (m : message) (v : validator) : validator :=
  {| valid := valid v;
     timeline_id_to_post_ids := timeline_id_to_post_ids v;
     timelines_with_issues := timelines_with_issues v;
     posts_with_issues := posts_with_issues v;
     logged := logged v ++ [(l, m)] |}.

(** [Validator.__init__], given the mapping file restricted to the split. *)
Definition init (mapping : list (string * list string)) : validator :=
  {| valid := true;
     timeline_id_to_post_ids := mapping;
     timelines_with_issues := ∅;
     posts_with_issues := ∅;
     logged := [] |}.

(** *** Helpers *)

Definition log_timeline_issue (timeline_id : string) (v : validator) : validator :=
  {| valid := false;
     timeline_id_to_post_ids := timeline_id_to_post_ids v;
     timelines_with_issues := {[timeline_id]} ∪ timelines_with_issues v;
     posts_with_issues := posts_with_issues v;
     logged := logged v |}.

Definition log_post_issue (timeline_id post_id : string) (v : validator) : validator :=
  log_timeline_issue timeline_id
    {| valid := valid v;
       timeline_id_to_post_ids := timeline_id_to_post_ids v;
       timelines_with_issues := timelines_with_issues v;
       posts_with_issues := {[(timeline_id, post_id)]} ∪ posts_with_issues v;
       logged := logged v |}.

(** The [if post_id and timeline_id: ... elif timeline_id: ... else: ...] shared
    by [check_type] and [check_required_fields]. *)
Definition record_issue (timeline_id post_id : option string) (v : validator)
  : validator :=
  match timeline_id, post_id with
  | Some t, Some p =>
      if str_truthy p && str_truthy t then log_post_issue t p v
      else if str_truthy t then log_timeline_issue t v
      else set_valid false v
  | Some t, None =>
      if str_truthy t then log_timeline_issue t v else set_valid false v
  | None, _ => set_valid false v
  end.

Definition check_type (value : json) (expected_type : pytype) (context : string)
    (timeline_id post_id : option string) (v : validator) : bool * validator :=
  if negb (isinstance value expected_type) then
    let v := emit ERROR (Expected context (type_name expected_type)
                           (type_name (type_of value))) v in
    (false, record_issue timeline_id post_id v)
  else (true, v).

Definition keys (d : list (string * json)) : gset string := list_to_set (map fst d).

Definition check_required_fields (data : list (string * json))
    (required_fields : gset string) (context : string)
    (timeline_id post_id : option string) (v : validator) : bool * validator :=
  let missing_fields := required_fields ∖ keys data in
  if negb (bool_decide (missing_fields = ∅)) then
    let v := emit ERROR (MissingRequiredFields context missing_fields) v in
    (false, record_issue timeline_id post_id v)
  else (true, v).

(** *** Validation *)

(** [score < 1 or score > 10] for a score that is a float or an int; a
    comparison with not-a-number is false. *)
Definition out_of_range (score : json) : bool :=
  match score with
  | JFloat FNaN => false
  | JFloat (FInf _) => true
  | JFloat (FFin x) => bool_decide (x < Qc_of_Z 1)%Qc || bool_decide (Qc_of_Z 10 < x)%Qc
  | JInt n => (n <? 1) || (10 <? n)
  | JBool b => (Z.b2z b <? 1) || (10 <? Z.b2z b)
  | _ => false
  end.

(** Lines 359-382: the wellbeing score of a post. *)
Definition validate_wellbeing_score (score : json) (context : string)
    (timeline_id post_id : string) (v : validator) : validator :=
  let check_range (v : validator) :=
    if out_of_range score then
      log_post_issue timeline_id post_id (emit ERROR (ScoreOutOfRange context score) v)
    else v in
  match score with
  | JNull => v     (* If no score is predicted, it should be None *)
  | JFloat _ => check_range (emit WARNING (ScoreIsFloat context) v)
  | _ =>
      let '(ok, v) := check_type score TInt (context +:+ ": wellbeing_score")
                        (Some timeline_id) (Some post_id) v in
      if negb ok then v else check_range v
  end.

(** Lines 306-350: one of the two evidence fields of a post. *)
Definition validate_evidence (field : string) (post_data : list (string * json))
    (context : string) (timeline_id post_id : string) (v : validator) : validator :=
  match assoc field post_data with
  | None => v
  | Some evidence_list =>
      let '(ok, v) := check_type evidence_list TList (context +:+ ": " +:+ field)
                        (Some timeline_id) (Some post_id) v in
      match ok, evidence_list with
      | true, JList items =>
          foldl (fun v '(i, evidence) =>
                   snd (check_type evidence TStr
                          (context +:+ ": " +:+ field +:+ "[" +:+ pretty i +:+ "]")
                          (Some timeline_id) (Some post_id) v))
                v (imap (fun (i : nat) x => (i, x)) items)
      | _, _ => v
      end
  end.

Definition post_required_fields : gset string :=
  {["adaptive_evidence"; "maladaptive_evidence"; "summary"; "wellbeing_score"]}.

(** Validate a single post's prediction have expected structure and fields. *)
Definition validate_post_dict (post_data : json) (timeline_id post_id : string)
    (v : validator) : validator :=
  let context := "Timeline " +:+ timeline_id +:+ ", Post " +:+ post_id in
  let '(ok, v) := check_type post_data TDict context (Some timeline_id) (Some post_id) v in
  match ok, post_data with
  | true, JDict [] => log_post_issue timeline_id post_id (set_valid false v)
  | true, JDict d =>
      let v := snd (check_required_fields d post_required_fields context
                      (Some timeline_id) (Some post_id) v) in
      let v := validate_evidence "adaptive_evidence" d context timeline_id post_id v in
      let v := validate_evidence "maladaptive_evidence" d context timeline_id post_id v in
      let v := match assoc "summary" d with
               | Some summary =>
                   snd (check_type summary TStr (context +:+ ": summary")
                          (Some timeline_id) (Some post_id) v)
               | None => v
               end in
      match assoc "wellbeing_score" d with
      | Some score => validate_wellbeing_score score context timeline_id post_id v
      | None => v
      end
  | _, _ => v
  end.

(** Validate the post_level structure and all posts within it. *)
Definition validate_post_level (post_level : json) (timeline_id : string)
    (v : validator) : validator :=
  let context := "Timeline " +:+ timeline_id +:+ ": post_level" in
  let '(ok, v) := check_type post_level TDict context (Some timeline_id) None v in
  match ok, post_level with
  | true, JDict [] =>
      set_valid false (log_timeline_issue timeline_id (emit ERROR (ContainsNoPosts context) v))
  | true, JDict d =>
      let expected_post_ids : gset string :=
        list_to_set (default [] (assoc timeline_id (timeline_id_to_post_ids v))) in
      let actual_post_ids := keys d in
      let missing_posts := expected_post_ids ∖ actual_post_ids in
      let v :=
        if negb (bool_decide (missing_posts = ∅)) then
          foldr (log_post_issue timeline_id)
                (emit ERROR (MissingExpectedPosts context missing_posts) v)
                (elements missing_posts)
        else v in
      let unexpected_posts := actual_post_ids ∖ expected_post_ids in
      let v :=
        if negb (bool_decide (unexpected_posts = ∅)) then
          emit WARNING (UnexpectedPosts context unexpected_posts) v
        else v in
      foldl (fun v '(post_id, post_data) => validate_post_dict post_data timeline_id post_id v)
            v d
  | _, _ => v
  end.

(** Validate the timeline_level structure and fields. *)
Definition validate_timeline_level (timeline_level : json) (timeline_id : string)
    (v : validator) : validator :=
  let context := "Timeline " +:+ timeline_id +:+ ": timeline_level" in
  let '(ok, v) := check_type timeline_level TDict context (Some timeline_id) None v in
  match ok, timeline_level with
  | true, JDict [] =>
      set_valid false (log_timeline_issue timeline_id (emit ERROR (IsEmpty context) v))
  | true, JDict d =>
      let '(ok, v) := check_required_fields d {["summary"]} context
                        (Some timeline_id) None v in
      match ok, assoc "summary" d with
      | true, Some summary =>
          let v := snd (check_type summary TStr (context +:+ " summary")
                          (Some timeline_id) None v) in
          match summary with
          | JStr s =>
              if negb (str_truthy (strip s)) then emit WARNING (SummaryIsEmpty context) v
              else v
          | _ => v
          end
      | _, _ => v
      end
  | _, _ => v
  end.

(** Validate a timeline's structure and fields. *)
Definition validate_timeline_dict (timeline_data : json) (timeline_id : string)
    (v : validator) : validator :=
  let context := "Timeline " +:+ timeline_id in
  let '(ok, v) := check_type timeline_data TDict context (Some timeline_id) None v in
  match ok, timeline_data with
  | true, JDict [] => log_timeline_issue timeline_id (set_valid false v)
  | true, JDict d =>
      let v := snd (check_required_fields d {["timeline_level"; "post_level"]} context
                      (Some timeline_id) None v) in
      let v := match assoc "timeline_level" d with
               | Some tl => validate_timeline_level tl timeline_id v
               | None => v
               end in
      match assoc "post_level" d with
      | Some pl => validate_post_level pl timeline_id v
      | None => v
      end
  | _, _ => v
  end.

(** What opening and parsing the submission file gives. *)
Inductive file_contents : Type :=
| NoSuchFile
| Unreadable
| NotJSON
| Loaded (data : json).

(** Lines 129-139: the timelines the mapping expects and the file lacks. *)
Definition check_missing_timelines (expected_timelines actual_timelines : gset string)
    (v : validator) : validator :=
  let missing_timelines := expected_timelines ∖ actual_timelines in
  if negb (bool_decide (missing_timelines = ∅)) then
    foldr log_timeline_issue
          (set_valid false (emit ERROR (MissingExpectedTimelines missing_timelines) v))
          (elements missing_timelines)
  else v.

(** Lines 141-145: the timelines of the file that the mapping does not have. *)
Definition check_unexpected_timelines (expected_timelines actual_timelines : gset string)
    (v : validator) : validator :=
  let unexpected_timelines := actual_timelines ∖ expected_timelines in
  if negb (bool_decide (unexpected_timelines = ∅)) then
    emit WARNING (UnexpectedTimelines unexpected_timelines) v
  else v.

(** Lines 150-157: validate each timeline. *)
Definition validate_timelines (d : list (string * json)) (v : validator) : validator :=
  foldl (fun v '(timeline_id, timeline_data) =>
           validate_timeline_dict timeline_data timeline_id
             (emit INFO (ValidatingTimeline timeline_id) v))
        v d.

(** Lines 159-168: log validation result with issue counts. *)
Definition report (v : validator) : validator :=
  if valid v then emit INFO FileIsValid v
  else emit ERROR (FileIsInvalid (size (timelines_with_issues v))
                                 (size (posts_with_issues v))) v.

(** Validate the JSON file at the specified path.  No operation inside the
    [try] blocks of the validation methods raises on a value read from JSON (every
    field access is guarded by a membership or type test), so their handlers
    never run and are not represented. *)
Definition validate_file (file : file_contents) (v : validator) : validator :=
  let v := emit INFO ValidatingFile v in
  match file with
  | NotJSON => set_valid false (emit ERROR InvalidJSON v)
  | NoSuchFile => set_valid false (emit ERROR FileNotFound v)
  | Unreadable => set_valid false (emit ERROR ErrorReadingFile v)
  | Loaded data =>
      (* Check if the root is a non-empty dictionary *)
      if negb (truthy data) then set_valid false (emit ERROR JSONIsEmpty v)
      else
        let '(ok, v) := check_type data TDict "Submission file" None None v in
        match ok, data with
        | true, JDict d =>
            (* Check for missing timelines in the submission *)
            let expected_timelines : gset string :=
              list_to_set (map fst (timeline_id_to_post_ids v)) in
            let actual_timelines := keys d in
            let v := check_missing_timelines expected_timelines actual_timelines v in
            let v := check_unexpected_timelines expected_timelines actual_timelines v in
            let v := validate_timelines d v in
            report v
        | _, _ => v
        end
  end.

(** Lines 399-402 of [main]: the exit status of the process once the
    arguments are parsed and the validator is constructed on the mapping. *)
Definition main (mapping : list (string * list string)) (file : file_contents) : Z :=
  let validator := init mapping in
  let validator := validate_file file validator in
  if valid validator then 0 else 1.

(** *** Vocabulary for the statements about the validator *)

(** Issues are only ever added: once cleared the [valid] flag stays cleared,
    the two issue sets only gain members, the mapping is not touched. *)
Definition grows (v v' : validator) : Prop :=
  (valid v = false -> valid v' = false)
  /\ timelines_with_issues v ⊆ timelines_with_issues v'
  /\ posts_with_issues v ⊆ posts_with_issues v'
  /\ timeline_id_to_post_ids v' = timeline_id_to_post_ids v.

(** *** The format a submission is checked against

    Boolean predicates on JSON values, with no state and no log: what a post
    record, a timeline and a whole submission must look like. *)

Definition is_str (v : json) : bool :=
  match v with JStr _ => true | _ => false end.

Definition has_key (d : list (string * json)) (k : string) : bool :=
  match assoc k d with Some _ => true | None => false end.

(** A wellbeing score that raises no issue: null, a float or an integer
    between 1 and 10, [true] (the integer 1), and the float not-a-number, for
    which neither comparison of the range check holds. *)
Definition score_ok (score : json) : bool :=
  match score with
  | JNull => true
  | JFloat FNaN => true
  | JFloat (FInf _) => false
  | JFloat (FFin x) => bool_decide (Qc_of_Z 1 <= x)%Qc && bool_decide (x <= Qc_of_Z 10)%Qc
  | JInt n => (1 <=? n) && (n <=? 10)
  | JBool b => b
  | _ => false
  end.

(** What is asked of an evidence field when it is there: a list of strings. *)
Definition evidence_ok (field : option json) : bool :=
  match field with
  | None => true
  | Some (JList items) => forallb is_str items
  | Some _ => false
  end.

(** A post record with its four fields: two lists of strings, a string and a
    score. *)
Definition post_ok (post_data : json) : bool :=
  match post_data with
  | JDict d =>
      match assoc "adaptive_evidence" d, assoc "maladaptive_evidence" d,
            assoc "summary" d, assoc "wellbeing_score" d with
      | Some (JList adaptive), Some (JList maladaptive), Some (JStr _), Some score =>
          forallb is_str adaptive && forallb is_str maladaptive && score_ok score
      | _, _, _, _ => false
      end
  | _ => false
  end.

Definition timeline_level_ok (timeline_level : json) : bool :=
  match timeline_level with
  | JDict d => match assoc "summary" d with Some (JStr _) => true | _ => false end
  | _ => false
  end.

(** A mapping from post id to well-formed record, not empty, with every post
    of the list [expected]. *)
Definition post_level_ok (expected : list string) (post_level : json) : bool :=
  match post_level with
  | JDict (kv :: d') =>
      forallb (has_key (kv :: d')) expected
      && forallb (fun kv => post_ok (snd kv)) (kv :: d')
  | _ => false
  end.

Definition timeline_ok (mapping : list (string * list string)) (timeline_id : string)
    (timeline_data : json) : bool :=
  match timeline_data with
  | JDict d =>
      match assoc "timeline_level" d, assoc "post_level" d with
      | Some tl, Some pl =>
          timeline_level_ok tl
          && post_level_ok (default [] (assoc timeline_id mapping)) pl
      | _, _ => false
      end
  | _ => false
  end.

(** A mapping, not empty, with every timeline of [mapping], whose timelines
    (the ones [mapping] does not list included) are all well formed. *)
Definition submission_ok (mapping : list (string * list string)) (data : json) : bool :=
  match data with
  | JDict (kv :: d') =>
      forallb (has_key (kv :: d')) (map fst mapping)
      && forallb (fun kv => timeline_ok mapping (fst kv) (snd kv)) (kv :: d')
  | _ => false
  end.

(** The four ways the methods change the state of a validator: a message is
    logged, [self.valid = False], and the two issue loggers. *)
Inductive step : validator -> validator -> Prop :=
| step_emit l m v : step v (emit l m v)
| step_invalid v : step v (set_valid false v)
| step_timeline_issue t v : step v (log_timeline_issue t v)
| step_post_issue t p v : step v (log_post_issue t p v).

Definition steps : validator -> validator -> Prop := rtc step.

(** The issue sets agree with the flag: a recorded timeline clears [valid],
    and a recorded post has its timeline recorded. *)
Definition consistent (v : validator) : Prop :=
  (valid v = true -> timelines_with_issues v = ∅)
  /\ (forall t p, (t, p) ∈ posts_with_issues v -> t ∈ timelines_with_issues v).

End Validator.

(** * Properties *)

(** ** Strings and metric names *)

Lemma append_inv_head (p s t : string) : p +:+ s = p +:+ t -> s = t.
Proof. induction p as [|a p IH]; simpl; [done|]. intros [= H]. by apply IH. Qed.

(** Two names built on the same prefix differ as soon as what follows does. *)
Ltac name_neq :=
  let H := fresh in
  intros H; apply append_inv_head in H; simpl in H; discriminate H.

Example strip_ex : strip "  a b " = "a b".
Proof. reflexivity. Qed.

Example isnumeric_ex : isnumeric "07" = true /\ isnumeric "" = false /\ isnumeric "7.0" = false.
Proof. repeat split. Qed.

Example int_of_str_ex : int_of_str "107" = Ok 107.
Proof. reflexivity. Qed.

(** The superscript two (U+00B2) is numeric and is no decimal digit. *)
Example superscript_two_ex :
  isnumeric (String (ascii_of_nat 178) "") = true
  /\ int_of_str (String (ascii_of_nat 178) "")
     = Raise (ValueError "invalid literal for int() with base 10").
Proof. split; reflexivity. Qed.

(** *** Decimal numerals *)









(** ** The consistency scorer *)

Section NLIFacts.
Import NLIScorer.
Variable nli : string -> string -> prediction.

Lemma nli_names_distinct (prefix source_name : string) :
  prefix +:+ "_mean_consistency_" +:+ source_name
    <> prefix +:+ "_max_entailment_" +:+ source_name
  /\ prefix +:+ "_mean_consistency_" +:+ source_name
    <> prefix +:+ "_max_contradiction_" +:+ source_name
  /\ prefix +:+ "_max_entailment_" +:+ source_name
    <> prefix +:+ "_max_contradiction_" +:+ source_name.
Proof. repeat split; name_neq. Qed.

(** With a source sentence and a predicted sentence the score arrays are not
    empty, so the maxima exist. *)
Lemma compute_nli_scores_total (s : string) (source : list string)
    (predicted : list string) (task prefix source_name : string) :
  is_Ok (compute_nli_scores nli (s :: source) predicted task prefix source_name).
Proof.
  unfold compute_nli_scores. destruct predicted as [|p ps]; simpl; eexists; reflexivity.
Qed.

(** C8.  Whatever the source sentences, an empty list of predicted sentences
    gives exactly the three worst-case metrics, under the prefixed names:
    mean consistency 0.0, maximal entailment 0.0, maximal contradiction 1.0. *)
Theorem compute_nli_scores_empty_prediction
    (source_sents : list string) (task prefix source_name : string) :
  exists r : results,
    compute_nli_scores nli source_sents [] task prefix source_name = Ok r
    /\ r !! (prefix +:+ "_mean_consistency_" +:+ source_name)
        = Some {| task := task; value := Fin 0%Qc |}
    /\ r !! (prefix +:+ "_max_entailment_" +:+ source_name)
        = Some {| task := task; value := Fin 0%Qc |}
    /\ r !! (prefix +:+ "_max_contradiction_" +:+ source_name)
        = Some {| task := task; value := Fin 1%Qc |}
    /\ dom r = {[ prefix +:+ "_mean_consistency_" +:+ source_name;
                  prefix +:+ "_max_entailment_" +:+ source_name;
                  prefix +:+ "_max_contradiction_" +:+ source_name ]}.
Proof.
  destruct (nli_names_distinct prefix source_name) as (Hme & Hmc & Hec).
  exists (<[prefix +:+ "_max_contradiction_" +:+ source_name :=
             {| task := task; value := Fin 1%Qc |}]>
         (<[prefix +:+ "_max_entailment_" +:+ source_name :=
             {| task := task; value := Fin 0%Qc |}]>
           {[prefix +:+ "_mean_consistency_" +:+ source_name :=
             {| task := task; value := Fin 0%Qc |}]})).
  split; [reflexivity|].
  repeat split.
  - rewrite lookup_insert_ne, lookup_insert_ne, lookup_singleton_eq; congruence.
  - rewrite lookup_insert_ne, lookup_insert_eq; congruence.
  - by rewrite lookup_insert_eq.
  - rewrite !dom_insert_L, dom_singleton_L. set_solver.
Qed.
End NLIFacts.

(** ** The span scorer *)

Lemma Qc_sum_scale (l : list Qc) (w : Qc) :
  Qc_sum (map (fun x => x * w)%Qc l) = (Qc_sum l * w)%Qc.
Proof.
  induction l as [|x l IH]; simpl.
  - ring.
  - rewrite IH. ring.
Qed.

(** Scaling every score scales the mean. *)
Lemma np_mean_scale (l : list Qc) (w : Qc) :
  np_mean (map (fun s => s * w)%Qc l)
  = match np_mean l with NaN => NaN | Fin m => Fin (m * w)%Qc end.
Proof.
  destruct l as [|x l]; [done|].
  unfold np_mean. simpl. f_equal.
  rewrite Qc_sum_scale, length_map. unfold Qcdiv. ring.
Qed.

Section SpanFacts.
Import SpanScorer.
Variable tokenizer : string -> list Z.
Variable bertscore_F : string -> string -> Qc.

Lemma strip_spans_blank (preds : list string) :
  Forall (fun s => strip s = "") preds ->
  strip_spans (JStr <$> preds) = Ok [].
Proof.
  induction 1 as [|s preds Hs _ IH]; [done|].
  rewrite fmap_cons. cbn [strip_spans]. rewrite IH. cbn [bind]. by rewrite Hs.
Qed.

Lemma strip_spans_strings (preds : list string) :
  strip_spans (JStr <$> preds) = Ok (strip_nonempty preds).
Proof.
  induction preds as [|s preds IH]; [done|].
  rewrite fmap_cons. cbn [strip_spans]. rewrite IH. cbn [bind].
  unfold strip_nonempty. cbn [map]. rewrite filter_cons.
  destruct (str_truthy (strip s)) eqn:E.
  - rewrite decide_True by done. done.
  - rewrite decide_False by congruence. done.
Qed.

Lemma num_spans_tokens_nonneg (spans : list string) :
  (forall s, (2 <= length (tokenizer s))%nat) ->
  0 <= num_spans_tokens tokenizer spans.
Proof.
  intros Htok. unfold num_spans_tokens.
  induction spans as [|s spans IH]; simpl; [lia|].
  specialize (Htok s). lia.
Qed.

(** C7.  When every predicted span is empty once stripped (the empty list
    included), the result is recall 0.0 and weighted recall 0.0, whatever the
    gold spans. *)
Theorem compute_span_metrics_empty_predictions
    (gold_spans predicted_spans : list string) :
  Forall (fun s => strip s = "") predicted_spans ->
  exists r : results,
    compute_span_metrics tokenizer bertscore_F gold_spans (JStr <$> predicted_spans)
    = Ok r
    /\ r !! "bertscore_recall" = Some {| task := "A.1"; value := Fin 0%Qc |}
    /\ r !! "bertscore_weighted_recall" = Some {| task := "A.1"; value := Fin 0%Qc |}.
Proof.
  intros Hblank. exists score_empty_predictions.
  unfold compute_span_metrics. rewrite (strip_spans_blank _ Hblank). simpl.
  split; [done|]. split; reflexivity.
Qed.

(** C4.  With gold and predicted spans that are not empty after stripping,
    and a tokenizer that frames every text with its two special tokens, the
    weighted recall is the recall times the weight, the weight being g/p when
    g < p and 1 otherwise (g and p the token counts without the special
    tokens); so it is recall times one half for g = 50 and p = 100, and the
    recall itself when g >= p.  Scores are exact rationals here. *)
Theorem compute_span_metrics_weighted_recall
    (gold_spans predicted_spans : list string) :
  (forall s, (2 <= length (tokenizer s))%nat) ->
  strip_nonempty gold_spans <> [] ->
  strip_nonempty predicted_spans <> [] ->
  let g := num_spans_tokens tokenizer (strip_nonempty gold_spans) in
  let p := num_spans_tokens tokenizer (strip_nonempty predicted_spans) in
  exists (r : results) (recall : Qc),
    compute_span_metrics tokenizer bertscore_F gold_spans (JStr <$> predicted_spans)
    = Ok r
    /\ r !! "bertscore_recall" = Some {| task := "A.1"; value := Fin recall |}
    /\ r !! "bertscore_weighted_recall"
        = Some {| task := "A.1"; value := Fin (recall * weight_of g p)%Qc |}
    /\ (g < p -> weight_of g p = (Qc_of_Z g / Qc_of_Z p)%Qc)
    /\ (g = 50 -> p = 100 -> (recall * weight_of g p = recall * Q2Qc (1 # 2))%Qc)
    /\ (p <= g -> (recall * weight_of g p = recall)%Qc).
Proof.
  intros Htok Hgold Hpred g p.
  unfold compute_span_metrics. rewrite strip_spans_strings. cbn [bind].
  fold g. destruct (strip_nonempty predicted_spans) as [|pred0 preds] eqn:Epred; [done|].
  fold p.
  assert (Hw : span_weight g p = Ok (weight_of g p)).
  { unfold span_weight, weight_of. destruct (g <? p) eqn:Hlt; [|done].
    apply Z.ltb_lt in Hlt.
    pose proof (num_spans_tokens_nonneg (strip_nonempty gold_spans) Htok).
    fold g in H. destruct (p =? 0) eqn:Hp0; [lia|done]. }
  rewrite Hw. cbn [bind].
  destruct (strip_nonempty gold_spans) as [|gold0 golds] eqn:Egold; [done|].
  cbv zeta. rewrite np_mean_scale. cbn [map].
  set (scores := _ :: _).
  destruct (np_mean scores) as [|recall] eqn:Emean; [done|].
  eexists _, recall. split; [reflexivity|].
  split; [by rewrite lookup_insert_ne, lookup_singleton_eq|].
  split; [by rewrite lookup_insert_eq|].
  split; [|split].
  - intros Hlt. unfold weight_of. by rewrite (proj2 (Z.ltb_lt _ _) Hlt).
  - intros Hg Hp. rewrite Hg, Hp. f_equal; by apply Qc_is_canon.
  - intros Hle. unfold weight_of. rewrite (proj2 (Z.ltb_ge _ _) Hle). ring.
Qed.
End SpanFacts.

(** ** Loops *)

Lemma foldM_preserves {A B} (P : B -> Prop) (f : B -> A -> result B) (l : list A) :
  (forall b a b', In a l -> P b -> f b a = Ok b' -> P b') ->
  forall acc r, P acc -> foldM f l acc = Ok r -> P r.
Proof.
  induction l as [|x l IH]; intros Hstep acc r Hacc; simpl.
  - by intros [= <-].
  - destruct (f acc x) as [b|e] eqn:Hf; simpl; [|done].
    apply IH; [|by eapply Hstep; [left| |]].
    intros b0 a b' Hin. apply Hstep. by right.
Qed.

Lemma foldM_total {A B} (P : B -> Prop) (f : B -> A -> result B) (l : list A) :
  (forall b a, In a l -> P b -> exists b', f b a = Ok b' /\ P b') ->
  forall acc, P acc -> exists r, foldM f l acc = Ok r /\ P r.
Proof.
  induction l as [|x l IH]; intros Hstep acc Hacc; simpl.
  - by exists acc.
  - destruct (Hstep acc x) as (b & -> & Hb); [by left|done|]. simpl.
    apply IH; [|done]. intros b0 a Hin. apply Hstep. by right.
Qed.

(** ** Which exceptions a computation can raise *)

Create HintDb safe.

Lemma raises_only_Ok {A} (P : exn -> Prop) (a : A) : raises_only P (Ok a).
Proof. intros e. discriminate. Qed.

Lemma raises_only_Raise {A} (P : exn -> Prop) (e : exn) :
  P e -> raises_only P (@Raise A e).
Proof. by intros H e' [= <-]. Qed.

Lemma raises_only_bind {A B} (P : exn -> Prop) (m : result A) (k : A -> result B) :
  raises_only P m -> (forall a, m = Ok a -> raises_only P (k a)) ->
  raises_only P (bind m k).
Proof.
  intros Hm Hk e. destruct m as [a|e']; simpl.
  - by apply Hk.
  - intros [= <-]. by apply Hm.
Qed.

Lemma raises_only_foldM {A B} (P : exn -> Prop) (f : B -> A -> result B)
    (l : list A) (acc : B) :
  (forall b a, raises_only P (f b a)) -> raises_only P (foldM f l acc).
Proof.
  intros Hf. revert acc. induction l as [|x l IH]; intros acc; simpl.
  - apply raises_only_Ok.
  - apply raises_only_bind; [apply Hf|]. intros b _. apply IH.
Qed.

Lemma raises_only_mapM {A B} (P : exn -> Prop) (f : A -> result B) (l : list A) :
  (forall a, raises_only P (f a)) -> raises_only P (mapM f l).
Proof.
  intros Hf. induction l as [|x l IH]; simpl.
  - apply raises_only_Ok.
  - apply raises_only_bind; [apply Hf|]. intros b _.
    apply raises_only_bind; [apply IH|]. intros bs _. apply raises_only_Ok.
Qed.

Lemma no_empty_max_getitem (v : json) (k : string) : no_empty_max (getitem v k).
Proof. intros e. destruct v; simpl; try by intros [= <-]. destruct (assoc k d); by intros [= <-]. Qed.

Lemma no_empty_max_dict_get (v : json) (k : string) (d : json) :
  no_empty_max (dict_get v k d).
Proof. intros e. destruct v; simpl; by intros [= <-]. Qed.

Lemma no_empty_max_iter_items (v : json) : no_empty_max (iter_items v).
Proof. intros e. destruct v; simpl; by intros [= <-]. Qed.

Lemma no_empty_max_mask_select {A} (a : list A) (mask : list bool) :
  no_empty_max (mask_select a mask).
Proof.
  revert mask. induction a as [|x a IH]; intros [|b mask]; simpl;
    try (by apply raises_only_Ok); try (by apply raises_only_Raise).
  apply raises_only_bind; [apply IH|]. intros r _. apply raises_only_Ok.
Qed.

Lemma no_empty_max_mask_assign {A} (a : list A) (mask : list bool) (vals : list A) :
  no_empty_max (mask_assign a mask vals).
Proof.
  revert mask vals. induction a as [|x a IH]; intros [|[] mask] vals; simpl;
    try (by apply raises_only_Raise).
  - destruct vals; [apply raises_only_Ok|by apply raises_only_Raise].
  - destruct vals as [|v vals]; [by apply raises_only_Raise|].
    apply raises_only_bind; [apply IH|]. intros r _. apply raises_only_Ok.
  - apply raises_only_bind; [apply IH|]. intros r _. apply raises_only_Ok.
Qed.

#[export] Hint Resolve raises_only_Ok no_empty_max_getitem no_empty_max_dict_get
  no_empty_max_iter_items no_empty_max_mask_select no_empty_max_mask_assign : safe.

(** Peel the binds of a computation, closing each step from the hint base. *)
Ltac safe :=
  repeat first
    [ solve [eauto with safe]
    | apply raises_only_Ok
    | apply raises_only_Raise; discriminate
    | apply raises_only_bind; [solve [eauto with safe]|intros ? ?] ].

(** ** The wellbeing scorer *)

Lemma mask_select_map {A B} (f : A -> B) (g : A -> bool) (l : list A) :
  mask_select (map f l) (map g l) = Ok (map f (List.filter g l)).
Proof.
  induction l as [|x l IH]; simpl; [done|].
  rewrite IH. simpl. by destruct (g x).
Qed.

Lemma mask_assign_map {A B} (f k : A -> B) (g : A -> bool) (l : list A) :
  mask_assign (map f l) (map g l) (map k (List.filter g l))
  = Ok (map (fun x => if g x then k x else f x) l).
Proof.
  induction l as [|x l IH]; simpl; [done|].
  destruct (g x); simpl; by rewrite IH.
Qed.

Lemma mask_any_filter {A} (g : A -> bool) (l : list A) :
  mask_any (map g l) = true -> List.filter g l <> [].
Proof.
  unfold mask_any. induction l as [|x l IH]; simpl; [done|].
  unfold id at 1. destruct (g x); [done|]. exact IH.
Qed.

Lemma mask_any_false {A} (g : A -> bool) (l : list A) :
  mask_any (map g l) = false -> forall x, In x l -> g x = false.
Proof.
  unfold mask_any. induction l as [|x l IH]; simpl; [done|].
  unfold id at 1. destruct (g x) eqn:E; [done|].
  intros H y [<-|Hy]; [done|]. by apply IH.
Qed.

Lemma foldl_Zmax_ge (l : list Z) (x : Z) : x <= foldl Z.max x l.
Proof.
  revert x. induction l as [|y l IH]; intros x; simpl; [lia|].
  specialize (IH (Z.max x y)). lia.
Qed.

Lemma foldl_Zmax_upper (l : list Z) (x e : Z) :
  In e (x :: l) -> e <= foldl Z.max x l.
Proof.
  revert x. induction l as [|y l IH]; intros x; simpl.
  - intros [Hx|[]]. lia.
  - pose proof (foldl_Zmax_ge l (Z.max x y)) as Hge.
    intros [Hx|[Hy|H]]; [lia|lia|].
    apply IH. by right.
Qed.

Lemma foldl_Zmax_in (l : list Z) (x : Z) : In (foldl Z.max x l) (x :: l).
Proof.
  revert x. induction l as [|y l IH]; intros x; simpl; [by left|].
  destruct (IH (Z.max x y)) as [H|H].
  - rewrite <- H. destruct (Z.max_spec x y) as [[_ ->]|[_ ->]]; auto.
  - auto.
Qed.

Module WellbeingFacts.
Import WellbeingScorer.

Lemma select_gold (y_trues : list (option Z)) (y_preds : list (option num)) :
  length y_trues = length y_preds ->
  mask_select y_trues (map (fun o => negb (is_None o)) y_trues)
  = Ok (map (fun tp => Some (fst tp)) (annotated y_trues y_preds)).
Proof.
  revert y_preds. induction y_trues as [|[t|] yt IH]; intros [|p yp] Hlen;
    simplify_eq/=; try done; by rewrite (IH yp).
Qed.

Lemma select_pred (y_trues : list (option Z)) (y_preds : list (option num)) :
  length y_trues = length y_preds ->
  mask_select y_preds (map (fun o => negb (is_None o)) y_trues)
  = Ok (map snd (annotated y_trues y_preds)).
Proof.
  revert y_preds. induction y_trues as [|[t|] yt IH]; intros [|p yp] Hlen;
    simplify_eq/=; try done; by rewrite (IH yp).
Qed.

(** *** Values in range *)

Lemma bound_eq : bound = 2305843009213693952.
Proof. reflexivity. Qed.

Lemma int64_min_eq : int64_min = -9223372036854775808.
Proof. reflexivity. Qed.

Lemma int64_max_eq : int64_max = 9223372036854775807.
Proof. reflexivity. Qed.

(** Arithmetic on values bounded by [bound], [int64_min] and [int64_max]. *)
Ltac range :=
  unfold small in *;
  rewrite ?bound_eq, ?int64_min_eq, ?int64_max_eq in *;
  lia.

Lemma to_int64_range (n : Z) : int64_min <= n <= int64_max -> to_int64 n = Ok n.
Proof.
  intros [Hlo Hhi]. unfold to_int64.
  by rewrite (proj2 (Z.leb_le _ _) Hlo), (proj2 (Z.leb_le _ _) Hhi).
Qed.

Lemma to_int64_small (n : Z) : small n -> to_int64 n = Ok n.
Proof. intros H. apply to_int64_range. range. Qed.

Lemma wrap64_range (n : Z) : int64_min <= n <= int64_max -> wrap64 n = n.
Proof.
  intros H. unfold wrap64. rewrite Z.mod_small; [lia|].
  change (2 ^ 64) with 18446744073709551616. range.
Qed.

Lemma float_of_int_range (n : Z) :
  Z.abs n <= 4 * bound -> float_of_int n = Ok (Qc_of_Z n).
Proof.
  intros H. unfold float_of_int.
  assert (Hmax : 4 * bound < 2 ^ 1024 - 2 ^ 970) by (apply Z.ltb_lt; reflexivity).
  by rewrite (proj2 (Z.leb_gt _ _)) by lia.
Qed.

(** A number with an integer part has a float64 value. *)
Lemma num_int_val (v : num) (n : Z) :
  num_int v = Ok n -> small n -> num_val v = Ok (val_of v).
Proof.
  unfold val_of. destruct v as [b|m|[|neg|x]]; simpl; try done.
  intros [= ->] Hn. rewrite float_of_int_range; [done|]. range.
Qed.

Lemma num_int_int_of (v : num) (n : Z) : num_int v = Ok n -> int_of v = n.
Proof. unfold int_of. by intros ->. Qed.

Lemma astype_int_gold_some {A} (f : A -> Z) (l : list A) :
  Forall (fun x => small (f x)) l ->
  astype_int_gold (map (fun x => Some (f x)) l) = Ok (map f l).
Proof.
  unfold astype_int_gold. induction 1 as [|x l Hx _ IH]; simpl; [done|].
  by rewrite (to_int64_small _ Hx), IH.
Qed.

Lemma in_range_gold (pairs : list (Z * option num)) :
  Forall in_range pairs -> Forall (fun tp => small (fst tp)) pairs.
Proof. intros H. eapply Forall_impl; [exact H|]. by intros tp [? _]. Qed.

Lemma check_and_process_penalize (y_trues : list (option Z)) (y_preds : list (option num)) :
  length y_trues = length y_preds ->
  Forall (fun tp => small (fst tp)) (annotated y_trues y_preds) ->
  check_and_process_wellbeing_scores y_trues y_preds true
  = Ok (map fst (annotated y_trues y_preds),
        map snd (annotated y_trues y_preds),
        map is_None (map snd (annotated y_trues y_preds))).
Proof.
  intros Hlen Hgold. unfold check_and_process_wellbeing_scores.
  rewrite (select_gold _ _ Hlen), (select_pred _ _ Hlen). cbn [bind negb].
  by rewrite astype_int_gold_some.
Qed.

Lemma mask_all_observed (pairs : list (Z * option num)) :
  mask_all (map missing pairs) = true <-> observed_errors pairs = [].
Proof.
  unfold mask_all, observed_errors, missing.
  induction pairs as [|[t [v|]] pairs IH]; simpl; [done| |].
  - split; done.
  - exact IH.
Qed.

Lemma astype_int_pred_present (pairs : list (Z * option num)) :
  Forall in_range pairs ->
  astype_int_pred (map snd (List.filter (fun tp => negb (missing tp)) pairs))
  = Ok (omap (fun tp => int_of <$> snd tp) pairs).
Proof.
  unfold astype_int_pred, missing.
  induction 1 as [|[t [v|]] pairs [_ Hv] _ IH]; simpl; [done| |].
  - destruct Hv as (n & Hn & Hsmall). rewrite Hn. cbn [bind].
    rewrite (to_int64_small _ Hsmall). cbn [bind]. rewrite IH. cbn [bind].
    by rewrite (num_int_int_of _ _ Hn).
  - exact IH.
Qed.

Lemma observed_errors_zip (pairs : list (Z * option num)) :
  Forall in_range pairs ->
  map (fun e => wrap64 (Z.abs e))
      (zip_with (fun t p => wrap64 (t - p))
         (map fst (List.filter (fun tp => negb (missing tp)) pairs))
         (omap (fun tp => int_of <$> snd tp) pairs))
  = observed_errors pairs.
Proof.
  unfold observed_errors, missing.
  induction 1 as [|[t [v|]] pairs [Ht Hv] _ IH]; simpl; [done| |].
  - f_equal; [|exact IH]. destruct Hv as (n & Hn & Hsmall).
    rewrite (num_int_int_of _ _ Hn). simpl in Ht.
    rewrite (wrap64_range (t - n)) by range. apply wrap64_range. range.
  - exact IH.
Qed.

Lemma observed_errors_range (pairs : list (Z * option num)) :
  Forall in_range pairs ->
  Forall (fun e => 0 <= e <= 2 * bound) (observed_errors pairs).
Proof.
  unfold observed_errors.
  induction 1 as [|[t [v|]] pairs [Ht Hv] _ IH]; simpl; [done| |done].
  constructor; [|exact IH]. destruct Hv as (n & Hn & Hsmall).
  rewrite (num_int_int_of _ _ Hn). simpl in Ht. range.
Qed.

Lemma foldl_Zmax_range (l : list Z) (x lo hi : Z) :
  lo <= x <= hi -> Forall (fun e => lo <= e <= hi) l -> lo <= foldl Z.max x l <= hi.
Proof.
  intros Hx Hl. revert x Hx. induction Hl as [|y l Hy _ IH]; intros x Hx; simpl; [done|].
  apply IH. lia.
Qed.

(** The penalty is far from the limits of int64. *)
Lemma max_error_of_range (pairs : list (Z * option num)) :
  Forall in_range pairs -> 0 <= max_error_of pairs <= 2 * bound.
Proof.
  intros H. apply observed_errors_range in H. unfold max_error_of.
  destruct (observed_errors pairs) as [|e es].
  - unfold max_possible_error. range.
  - inversion H; subst. by apply foldl_Zmax_range.
Qed.

Lemma penalized_present (max_error : Z) (pairs : list (Z * option num)) :
  (forall tp, In tp pairs -> missing tp = false) ->
  map snd pairs = map (fun tp => Some (penalized max_error tp)) pairs.
Proof.
  intros H. apply map_ext_in. intros [t [v|]] Hin; [done|].
  by specialize (H _ Hin).
Qed.

(** Lines 92-104 on a batch without a null: nothing is converted. *)
Lemma penalize_missing_present (E : Z) (pairs : list (Z * option num)) :
  (forall tp, In tp pairs -> missing tp = false) ->
  penalize_missing (map fst pairs) (map snd pairs) (map is_None (map snd pairs))
  = Ok (map (fun tp => Some (penalized E tp)) pairs).
Proof.
  intros H. unfold penalize_missing. rewrite !map_map.
  change (fun x => is_None (snd x)) with missing.
  replace (mask_any (map missing pairs)) with false.
  - f_equal. by apply penalized_present.
  - symmetry. unfold mask_any. induction pairs as [|tp pairs IH]; simpl; [done|].
    rewrite (H tp) by by left. simpl. apply IH. intros tp' Hin. apply H. by right.
Qed.

(** What lines 92-104 compute, on the pairs that are scored. *)
Lemma penalize_missing_spec (pairs : list (Z * option num)) :
  Forall in_range pairs ->
  penalize_missing (map fst pairs) (map snd pairs) (map is_None (map snd pairs))
  = Ok (map (fun tp => Some (penalized (max_error_of pairs) tp)) pairs).
Proof.
  intros Hrange. unfold penalize_missing. rewrite !map_map. fold missing.
  change (fun x => is_None (snd x)) with missing.
  destruct (mask_any (map missing pairs)) eqn:Hany.
  2:{ f_equal. apply penalized_present. by apply mask_any_false. }
  assert (Hsubst : forall E, 0 <= E <= 2 * bound ->
    (let* golds := mask_select (map fst pairs) (map missing pairs) in
     mask_assign (map snd pairs) (map missing pairs)
       (map (fun t => Some (NInt (wrap64 (t + E)))) golds))
    = Ok (map (fun tp => Some (penalized E tp)) pairs)).
  { intros E HE. rewrite mask_select_map. cbn [bind]. rewrite map_map.
    rewrite (mask_assign_map snd (fun tp => Some (NInt (wrap64 (fst tp + E)))) missing).
    f_equal. apply map_ext_in. intros [t [v|]] Hin; [done|].
    unfold penalized. cbn [missing snd fst is_None]. do 2 f_equal.
    apply wrap64_range.
    assert (Ht : small t).
    { apply in_range_gold in Hrange. rewrite List.Forall_forall in Hrange.
      exact (Hrange _ Hin). }
    range. }
  pose proof (max_error_of_range pairs Hrange) as HE.
  destruct (mask_all (map missing pairs)) eqn:Hall.
  - cbn [bind]. revert HE. unfold max_error_of.
    rewrite (proj1 (mask_all_observed pairs) Hall). apply Hsubst.
  - rewrite (mask_select_map fst (fun tp => negb (missing tp))).
    rewrite (mask_select_map snd (fun tp => negb (missing tp))).
    cbn [bind]. rewrite (astype_int_pred_present _ Hrange). cbn [bind].
    rewrite (observed_errors_zip _ Hrange). revert HE. unfold max_error_of.
    destruct (observed_errors pairs) as [|e es] eqn:Eobs.
    + apply mask_all_observed in Eobs. congruence.
    + cbn [np_max_Z bind]. apply Hsubst.
Qed.

Lemma mean_squared_error_spec (pairs : list (Z * num)) :
  pairs <> [] ->
  Forall (fun tp => num_val (snd tp) = Ok (val_of (snd tp))) pairs ->
  mean_squared_error (map fst pairs) (map (fun tp => Some (snd tp)) pairs)
  = Ok (mse_of pairs).
Proof.
  intros Hne Hval. unfold mean_squared_error.
  rewrite !length_map, Nat.eqb_refl. cbn [negb].
  assert (Hm : mapM (fun o : option num =>
                       match o with Some v => num_val v | None => Raise TypeError end)
                    (map (fun tp : Z * num => Some (snd tp)) pairs)
               = Ok (map (fun tp => val_of (snd tp)) pairs)).
  { clear Hne. induction Hval as [|x l Hx _ IH]; simpl; [done|]. by rewrite Hx, IH. }
  rewrite Hm. cbn [bind].
  destruct pairs as [|x l]; [done|]. cbn [map]. f_equal. unfold mse_of.
  assert (Hz : forall l : list (Z * num),
     zip_with (fun (t : Z) (p : Qc) => ((Qc_of_Z t - p) * (Qc_of_Z t - p))%Qc)
       (map fst l) (map (fun tp => val_of (snd tp)) l)
     = map (fun tp => ((Qc_of_Z (fst tp) - val_of (snd tp))
                       * (Qc_of_Z (fst tp) - val_of (snd tp)))%Qc) l).
  { clear. induction l as [|y l IH]; simpl; [done|]. by rewrite IH. }
  change (fst x :: map fst l) with (map fst (x :: l)).
  change (val_of (snd x) :: map (fun tp => val_of (snd tp)) l)
    with (map (fun tp : Z * num => val_of (snd tp)) (x :: l)).
  by rewrite Hz.
Qed.

Lemma in_range_scorable (E : Z) (pairs : list (Z * option num)) :
  0 <= E <= 2 * bound -> Forall in_range pairs -> Forall (scorable E) pairs.
Proof.
  intros HE H. eapply Forall_impl; [exact H|].
  intros [t [v|]] [Ht Hv]; split; try done.
  - destruct Hv as (n & Hn & Hsmall). by apply (num_int_val v n).
  - unfold penalized, val_of. simpl in *.
    rewrite float_of_int_range; [done|]. range.
Qed.

Lemma mean_squared_error_scored (E : Z) (pairs : list (Z * option num)) :
  pairs <> [] ->
  Forall (scorable E) pairs ->
  mean_squared_error (map fst pairs) (map (fun tp => Some (penalized E tp)) pairs)
  = Ok (mse_of (scored E pairs)).
Proof.
  intros Hne Hval. rewrite <- mean_squared_error_spec.
  - unfold scored. by rewrite !map_map.
  - unfold scored. by destruct pairs.
  - unfold scored. apply List.Forall_map.
    eapply Forall_impl; [exact Hval|]. by intros tp [_ H].
Qed.

(** One activation with [do_penalize=True], on lists of the same length with
    at least one annotated post, once the penalty [E] is known. *)
Lemma compute_mse_body_penalized self (E : Z) (y_trues : list (option Z))
    (y_preds : list (option num)) (do_binwise : bool) (suffix : string) :
  length y_trues = length y_preds ->
  annotated y_trues y_preds <> [] ->
  let pairs := annotated y_trues y_preds in
  Forall (scorable E) pairs ->
  penalize_missing (map fst pairs) (map snd pairs) (map is_None (map snd pairs))
  = Ok (map (fun tp => Some (penalized E tp)) pairs) ->
  compute_mse_body self y_trues y_preds true do_binwise suffix
  = let top : results :=
      {[ metric_name suffix := {| task := "A.2"; value := Fin (mse_of (scored E pairs)) |} ]} in
    if do_binwise then
      foldM (score_bin self true (map fst pairs)
               (map (fun tp => Some (penalized E tp)) pairs)) bins top
    else Ok top.
Proof.
  intros Hlen Hne pairs Hval Hpen. unfold compute_mse_body.
  rewrite (check_and_process_penalize _ _ Hlen).
  2:{ eapply Forall_impl; [exact Hval|]. by intros tp [H _]. }
  cbn [bind]. fold pairs. rewrite Hpen. cbn [bind].
  rewrite (mean_squared_error_scored E pairs Hne Hval). reflexivity.
Qed.

(** The same, for values in range: the penalty is [max_error_of]. *)
Lemma compute_mse_body_penalize self (y_trues : list (option Z))
    (y_preds : list (option num)) (do_binwise : bool) (suffix : string) :
  length y_trues = length y_preds ->
  annotated y_trues y_preds <> [] ->
  let pairs := annotated y_trues y_preds in
  Forall in_range pairs ->
  let E := max_error_of pairs in
  compute_mse_body self y_trues y_preds true do_binwise suffix
  = let top : results :=
      {[ metric_name suffix := {| task := "A.2"; value := Fin (mse_of (scored E pairs)) |} ]} in
    if do_binwise then
      foldM (score_bin self true (map fst pairs)
               (map (fun tp => Some (penalized E tp)) pairs)) bins top
    else Ok top.
Proof.
  intros Hlen Hne pairs Hrange E.
  apply compute_mse_body_penalized; try done.
  - apply in_range_scorable; [apply max_error_of_range|]; done.
  - by apply penalize_missing_spec.
Qed.

Lemma annotated_some (pairs : list (Z * num)) :
  annotated (map (fun q => Some (fst q)) pairs) (map (fun q => Some (snd q)) pairs)
  = map (fun q => (fst q, Some (snd q))) pairs.
Proof. induction pairs as [|q l IH]; simpl; [done|]. by rewrite IH. Qed.

Lemma scored_some (E : Z) (pairs : list (Z * num)) :
  scored E (map (fun q => (fst q, Some (snd q))) pairs) = pairs.
Proof.
  unfold scored. induction pairs as [|[t v] l IH]; simpl; [done|]. by rewrite IH.
Qed.

(** Without bins, on annotated posts that all have a prediction: the mean
    squared error under the suffixed name, whatever the recursive call is. *)
Lemma compute_mse_body_flat self (pairs : list (Z * num)) (suffix : string) :
  pairs <> [] ->
  Forall (fun q => small (fst q) /\ num_val (snd q) = Ok (val_of (snd q))) pairs ->
  compute_mse_body self (map (fun q => Some (fst q)) pairs)
    (map (fun q => Some (snd q)) pairs) true false suffix
  = Ok {[ metric_name suffix := {| task := "A.2"; value := Fin (mse_of pairs) |} ]}.
Proof.
  intros Hne Hval. rewrite (compute_mse_body_penalized self 0).
  - rewrite annotated_some. cbv zeta. by rewrite scored_some.
  - by rewrite !length_map.
  - rewrite annotated_some. by destruct pairs.
  - rewrite annotated_some. apply List.Forall_map.
    eapply Forall_impl; [exact Hval|]. by intros q [? ?].
  - rewrite annotated_some. apply penalize_missing_present.
    intros tp (q & <- & _)%in_map_iff. done.
Qed.

Lemma metric_name_label (label : string) :
  label <> "" -> metric_name label = "mse_" +:+ label.
Proof. unfold metric_name. by destruct label. Qed.

Lemma mse_label_neq_mse (label : string) : "mse_" +:+ label <> "mse".
Proof. done. Qed.

Lemma Forall_filter_list {A} (P : A -> Prop) (f : A -> bool) (l : list A) :
  Forall P l -> Forall P (List.filter f l).
Proof.
  induction 1 as [|x l Hx _ IH]; simpl; [done|]. destruct (f x); [by constructor|done].
Qed.

(** One bin, with [do_penalize=True], after the penalty has been applied. *)
Lemma score_bin_penalize self (E : Z) (pairs : list (Z * option num))
    (acc : results) (label : string) (lo hi : Z) :
  label <> "" ->
  Forall (scorable E) pairs ->
  exists m,
    score_bin (compute_mse_body self) true (map fst pairs)
      (map (fun tp => Some (penalized E tp)) pairs) acc (label, (lo, hi))
    = Ok (if mask_any (map (in_bin lo hi) (map fst pairs))
          then {[ "mse_" +:+ label := m ]} ∪ acc else acc).
Proof.
  intros Hlabel Hval. unfold score_bin. rewrite map_map.
  destruct (mask_any _) eqn:Hany; cbn [negb]; [|by exists {| task := ""; value := NaN |}].
  rewrite (mask_select_map fst (fun tp => in_bin lo hi (fst tp))).
  rewrite (mask_select_map (fun tp => Some (penalized E tp)) (fun tp => in_bin lo hi (fst tp))).
  cbn [bind]. set (F := List.filter _ pairs).
  assert (HF : F <> []) by by apply mask_any_filter.
  assert (HvalF : Forall (scorable E) F) by by apply Forall_filter_list.
  replace (map Some (map fst F)) with (map (fun q => Some (fst q)) (scored E F))
    by (unfold scored; by rewrite !map_map).
  replace (map (fun tp => Some (penalized E tp)) F)
    with (map (fun q => Some (snd q)) (scored E F))
    by (unfold scored; by rewrite !map_map).
  rewrite compute_mse_body_flat.
  - cbn [bind]. rewrite (metric_name_label _ Hlabel). by eexists.
  - unfold scored. by destruct F.
  - unfold scored. apply List.Forall_map.
    eapply Forall_impl; [exact HvalF|]. by intros q [? ?].
Qed.

Lemma bins_labels (bin : string * (Z * Z)) : In bin bins -> fst bin <> "".
Proof. intros [<-|[<-|[<-|[]]]]; done. Qed.

(** With [do_penalize=True], lists of the same length, at least one
    annotated post and values in range, [compute_mse] returns, and its
    ["mse"] entry is the mean squared error of the gold values against the
    penalized predictions. *)
Lemma compute_mse_penalize (y_trues : list (option Z)) (y_preds : list (option num))
    (do_binwise : bool) :
  length y_trues = length y_preds ->
  annotated y_trues y_preds <> [] ->
  let pairs := annotated y_trues y_preds in
  Forall in_range pairs ->
  exists r : results,
    compute_mse y_trues y_preds true do_binwise "" = Ok r
    /\ r !! "mse" = Some {| task := "A.2";
                            value := Fin (mse_of (scored (max_error_of pairs) pairs)) |}.
Proof.
  intros Hlen Hne pairs Hrange. unfold compute_mse. cbn [compute_mse_depth].
  rewrite (compute_mse_body_penalize _ _ _ _ _ Hlen Hne Hrange). fold pairs. cbv zeta.
  change (metric_name "") with "mse".
  destruct do_binwise.
  - apply (foldM_total (fun acc : results => acc !! "mse" = Some _)).
    + intros acc [label [lo hi]] Hin Hacc.
      destruct (score_bin_penalize (compute_mse_depth 0) (max_error_of pairs) pairs
                  acc label lo hi (bins_labels _ Hin)) as [m Hm].
      { apply in_range_scorable; [by apply max_error_of_range|done]. }
      eexists. split; [exact Hm|].
      destruct (mask_any _); [|done].
      rewrite lookup_union_r; [done|]. by apply lookup_singleton_ne, mse_label_neq_mse.
    + by rewrite lookup_singleton_eq.
  - eexists. split; [reflexivity|]. by rewrite lookup_singleton_eq.
Qed.

Lemma max_error_of_all_missing (pairs : list (Z * option num)) :
  (forall tp, In tp pairs -> snd tp = None) -> max_error_of pairs = 9.
Proof.
  intros H. unfold max_error_of.
  replace (observed_errors pairs) with (@nil Z); [done|].
  symmetry. apply mask_all_observed. unfold mask_all.
  induction pairs as [|[t p] l IH]; simpl; [done|].
  assert (Hp : p = None) by (apply (H (t, p)); by left). subst p. simpl.
  apply IH. intros tp Hin. apply H. by right.
Qed.

Lemma observed_errors_in (pairs : list (Z * option num)) (e : Z) :
  In e (observed_errors pairs)
  <-> exists t v, In (t, Some v) pairs /\ e = Z.abs (t - int_of v).
Proof.
  unfold observed_errors. induction pairs as [|[t [v|]] l IH]; simpl.
  - split; [done|]. by intros (? & ? & [] & _).
  - rewrite IH. split.
    + intros [<-|(t' & v' & Hin & ->)]; [exists t, v|exists t', v']; auto.
    + intros (t' & v' & [[= <- <-]|Hin] & ->); [by left|right; eauto].
  - rewrite IH. split.
    + intros (t' & v' & Hin & ->). exists t', v'. auto.
    + intros (t' & v' & [[=]|Hin] & ->). eauto.
Qed.

(** When some prediction is not null, the penalty is the largest absolute
    error of the predictions that are not null, each converted by [int]. *)
Lemma max_error_of_some_present (pairs : list (Z * option num)) :
  (exists t v, In (t, Some v) pairs) ->
  (exists t v, In (t, Some v) pairs /\ max_error_of pairs = Z.abs (t - int_of v))
  /\ (forall t v, In (t, Some v) pairs -> Z.abs (t - int_of v) <= max_error_of pairs).
Proof.
  intros (t0 & v0 & Hin0). unfold max_error_of.
  destruct (observed_errors pairs) as [|e es] eqn:Eobs.
  - exfalso. assert (H : In (Z.abs (t0 - int_of v0)) (observed_errors pairs))
      by (apply observed_errors_in; eauto).
    by rewrite Eobs in H.
  - split.
    + apply observed_errors_in. rewrite Eobs. apply foldl_Zmax_in.
    + intros t v Hin. apply foldl_Zmax_upper. rewrite <- Eobs.
      apply observed_errors_in. eauto.
Qed.

(** C3 (amended).  With [do_penalize=True], lists of the same length, at least
    one annotated post, and gold values and integer parts of the predictions
    between -2^61 and 2^61 (so that no conversion to int64 raises and no int64
    operation wraps around), [compute_mse] returns and the value under ["mse"]
    is the mean squared error of the gold values against the predictions in
    which every null is replaced by gold + max_error.  When every prediction
    paired with a gold value is null, max_error is 9.  When some are not
    null, max_error is the largest |gold - int(prediction)| among them: the
    prediction is converted by [int] (a float is truncated) before the error
    is taken, so for integer predictions it is the largest absolute error. *)
Theorem compute_mse_missing_penalty (y_trues : list (option Z))
    (y_preds : list (option num)) (do_binwise : bool) :
  length y_trues = length y_preds ->
  annotated y_trues y_preds <> [] ->
  Forall in_range (annotated y_trues y_preds) ->
  exists (max_error : Z) (mse : Qc) (r : results),
    compute_mse y_trues y_preds true do_binwise "" = Ok r
    /\ r !! "mse" = Some {| task := "A.2"; value := Fin mse |}
    /\ mean_squared_error (map fst (annotated y_trues y_preds))
         (map (fun tp => Some (penalized max_error tp)) (annotated y_trues y_preds))
       = Ok mse
    /\ (forall t, penalized max_error (t, None) = NInt (t + max_error))
    /\ (forall t v, penalized max_error (t, Some v) = v)
    /\ ((forall tp, In tp (annotated y_trues y_preds) -> snd tp = None) ->
        max_error = 9)
    /\ ((exists t v, In (t, Some v) (annotated y_trues y_preds)) ->
        (exists t v n, In (t, Some v) (annotated y_trues y_preds)
                       /\ num_int v = Ok n
                       /\ max_error = Z.abs (t - n))
        /\ (forall t v n, In (t, Some v) (annotated y_trues y_preds) ->
                          num_int v = Ok n ->
                          Z.abs (t - n) <= max_error))
    /\ (forall n, num_int (NInt n) = Ok n)
    /\ (forall x, num_int (NFloat (FFin x)) = Ok (Qc_trunc x)).
Proof.
  intros Hlen Hne Hrange.
  destruct (compute_mse_penalize y_trues y_preds do_binwise Hlen Hne Hrange)
    as (r & Hr & Hmse).
  exists (max_error_of (annotated y_trues y_preds)),
         (mse_of (scored (max_error_of (annotated y_trues y_preds))
                    (annotated y_trues y_preds))), r.
  split; [exact Hr|]. split; [exact Hmse|].
  split.
  { apply mean_squared_error_scored; [done|].
    apply in_range_scorable; [by apply max_error_of_range|done]. }
  split; [done|]. split; [done|].
  split; [apply max_error_of_all_missing|].
  split; [|done].
  intros Hsome. destruct (max_error_of_some_present _ Hsome) as [(t & v & Hin & Hmax) Hle].
  split.
  - rewrite List.Forall_forall in Hrange.
    destruct (Hrange _ Hin) as [_ (n & Hn & _)].
    exists t, v, n. split; [done|]. split; [done|].
    by rewrite Hmax, (num_int_int_of _ _ Hn).
  - intros t' v' n' Hin' Hn'. rewrite <- (num_int_int_of _ _ Hn'). by apply Hle.
Qed.

(** The all-null batch for gold values 3, 5, 8 is scored as 3, 5, 8 against
    12, 14, 17. *)
Lemma compute_mse_missing_penalty_witness :
  exists (mse : Qc) (r : results),
    compute_mse [Some 3; Some 5; Some 8] [None; None; None] true true "" = Ok r
    /\ r !! "mse" = Some {| task := "A.2"; value := Fin mse |}
    /\ mean_squared_error [3; 5; 8] [Some (NInt 12); Some (NInt 14); Some (NInt 17)]
       = Ok mse.
Proof.
  destruct (compute_mse_missing_penalty [Some 3; Some 5; Some 8] [None; None; None] true)
    as (E & mse & r & Hr & Hlookup & Hmse & _ & _ & Hall & _).
  - reflexivity.
  - simpl. discriminate.
  - simpl. repeat (constructor; [split; [cbn; range|done]|]). constructor.
  - exists mse, r. split; [exact Hr|]. split; [exact Hlookup|].
    rewrite Hall in Hmse; [exact Hmse|].
    simpl. intros tp [<-|[<-|[<-|[]]]]; reflexivity.
Defined.

(** The penalty ignores the fractional part of a float prediction: for gold
    7, 5 and predictions 7.9, null the only observed error is |7 - 7.9| = 0.9,
    yet the null is replaced by 5 + 0 (mean squared error 0.405), not by
    5 + 0.9 (mean squared error 0.81). *)
Lemma compute_mse_float_penalty_counterexample :
  compute_mse [Some 7; Some 5] [Some (NFloat (FFin (Q2Qc (79 # 10)))); None] true false ""
  = Ok {[ "mse" := {| task := "A.2"; value := Fin (Q2Qc (81 # 200)) |} ]}
  /\ penalize_missing [7; 5] [Some (NFloat (FFin (Q2Qc (79 # 10)))); None] [false; true]
     = Ok [Some (NFloat (FFin (Q2Qc (79 # 10)))); Some (NInt 5)]
  /\ mean_squared_error [7; 5]
       [Some (NFloat (FFin (Q2Qc (79 # 10))));
        Some (NFloat (FFin (Qc_of_Z 5 + Q2Qc (9 # 10))%Qc))]
     = Ok (Q2Qc (81 # 100))
  /\ mean_squared_error [7; 5]
       [Some (NFloat (FFin (Q2Qc (79 # 10)))); Some (NInt (5 + 0))]
     = Ok (Q2Qc (81 # 200))
  /\ Q2Qc (81 # 200) <> Q2Qc (81 # 100).
Proof. compute_done. Qed.

(** Outside the range the conversions of numpy raise: a prediction of 2^64
    next to a null does not fit int64, and not-a-number has no integer part. *)
Example compute_mse_out_of_range_ex :
  compute_mse [Some 5; Some 5] [Some (NInt (2 ^ 64)); None] true false ""
  = Raise OverflowError
  /\ compute_mse [Some 5; Some 5] [Some (NFloat FNaN); None] true false ""
     = Raise (ValueError "cannot convert float NaN to integer")
  /\ compute_mse [Some 5] [Some (NFloat FNaN)] true false ""
     = Raise (ValueError "Input contains NaN").
Proof. repeat split. Qed.

(** *** The recursion *)

Lemma foldM_ext {A B} (f g : B -> A -> result B) (l : list A) (acc : B) :
  (forall b a, f b a = g b a) -> foldM f l acc = foldM g l acc.
Proof.
  intros H. revert acc. induction l as [|x l IH]; intros acc; simpl; [done|].
  rewrite H. destruct (g acc x); simpl; [apply IH|done].
Qed.

Lemma compute_mse_body_ext self1 self2 y_trues y_preds do_penalize do_binwise suffix :
  (forall yt yp pen sfx, self1 yt yp pen false sfx = self2 yt yp pen false sfx) ->
  compute_mse_body self1 y_trues y_preds do_penalize do_binwise suffix
  = compute_mse_body self2 y_trues y_preds do_penalize do_binwise suffix.
Proof.
  intros Hself. unfold compute_mse_body.
  destruct (check_and_process_wellbeing_scores _ _ _) as [[[g p] m]|]; cbn [bind]; [|done].
  destruct (penalize_missing g p m) as [p'|]; cbn [bind]; [|done].
  destruct (mean_squared_error g p') as [mse|]; cbn [bind]; [|done].
  destruct do_binwise; [|done].
  apply foldM_ext. intros acc [label [lo hi]]. unfold score_bin.
  destruct (negb _); [done|].
  destruct (mask_select g _); cbn [bind]; [|done].
  destruct (mask_select p' _); cbn [bind]; [|done].
  by rewrite Hself.
Qed.

(** Two activations are enough: a deeper bound gives the same result. *)
Lemma compute_mse_depth_enough (d : nat) y_trues y_preds do_penalize do_binwise suffix :
  compute_mse_depth (S (S d)) y_trues y_preds do_penalize do_binwise suffix
  = compute_mse y_trues y_preds do_penalize do_binwise suffix.
Proof.
  unfold compute_mse. cbn [compute_mse_depth].
  apply compute_mse_body_ext. intros yt yp pen sfx.
  destruct d; reflexivity.
Qed.

(** *** Bins *)

Lemma mask_select_In {A} (a : list A) (mask : list bool) (r : list A) (x : A) :
  mask_select a mask = Ok r -> In x r -> In x a.
Proof.
  revert mask r. induction a as [|y a IH]; intros [|b mask] r; simpl; try done.
  - by intros [= <-].
  - destruct (mask_select a mask) as [r'|] eqn:E; simpl; [|done].
    intros [= <-]. destruct b; simpl; [intros [->|H]|intros H]; eauto.
Qed.

Lemma astype_int_gold_In (l : list (option Z)) (g : list Z) (t : Z) :
  astype_int_gold l = Ok g -> In t g -> In (Some t) l.
Proof.
  unfold astype_int_gold. revert g. induction l as [|[n|] l IH]; intros g; simpl.
  - by intros [= <-].
  - unfold to_int64 at 1. destruct (_ && _); simpl; [|done].
    destruct (mapM _ l) as [g'|] eqn:E; simpl; [|done].
    intros [= <-]. intros [->|H]; [by left|right; by eapply IH].
  - done.
Qed.

(** The gold values that are scored are non-null gold values of the batch. *)
Lemma check_and_process_golds y_trues y_preds do_penalize g p m :
  check_and_process_wellbeing_scores y_trues y_preds do_penalize = Ok (g, p, m) ->
  forall t, In t g -> In (Some t) y_trues.
Proof.
  unfold check_and_process_wellbeing_scores.
  destruct (mask_select y_trues _) as [a|] eqn:E1; simpl; [|done].
  destruct (mask_select y_preds _) as [b|] eqn:E2; simpl; [|done].
  destruct do_penalize; simpl.
  - destruct (astype_int_gold a) as [g'|] eqn:E3; simpl; [|done].
    intros [= <- <- <-] t Hin.
    eapply mask_select_In; [exact E1|]. by eapply astype_int_gold_In.
  - destruct (mask_select a _) as [a'|] eqn:E3; simpl; [|done].
    destruct (astype_int_gold a') as [g'|] eqn:E4; simpl; [|done].
    destruct (mask_select b _) as [b'|] eqn:E5; simpl; [|done].
    destruct (astype_int_pred b') as [p'|] eqn:E6; simpl; [|done].
    intros [= <- <- <-] t Hin.
    eapply mask_select_In; [exact E1|]. eapply mask_select_In; [exact E3|].
    by eapply astype_int_gold_In.
Qed.

Lemma mask_any_exists {A} (g : A -> bool) (l : list A) :
  mask_any (map g l) = true -> exists x, In x l /\ g x = true.
Proof.
  unfold mask_any. induction l as [|x l IH]; simpl; [done|].
  destruct (g x) eqn:E; simpl.
  - intros _. exists x. auto.
  - intros H. destruct (IH H) as (y & Hy & Hg). exists y. auto.
Qed.

(** Without bins the result has one entry, under the suffixed name. *)
Lemma compute_mse_body_flat_keys self y_trues y_preds do_penalize suffix r :
  compute_mse_body self y_trues y_preds do_penalize false suffix = Ok r ->
  exists m, r = {[ metric_name suffix := m ]}.
Proof.
  unfold compute_mse_body.
  destruct (check_and_process_wellbeing_scores _ _ _) as [[[g p] m]|]; simpl; [|done].
  destruct (penalize_missing g p m) as [p'|]; simpl; [|done].
  destruct (mean_squared_error g p') as [mse|]; simpl; [|done].
  intros [= <-]. eauto.
Qed.

(** A bin that holds no gold value of the batch adds no entry; the call's own
    entry is named after its [suffix] argument. *)
Lemma compute_mse_empty_bin_suffix (y_trues : list (option Z))
    (y_preds : list (option num)) (do_penalize : bool) (suffix : string)
    (label : string) (lo hi : Z) (r : results) :
  In (label, (lo, hi)) bins ->
  (forall t, In (Some t) y_trues -> ~ (lo <= t <= hi)) ->
  metric_name suffix <> "mse_" +:+ label ->
  compute_mse y_trues y_preds do_penalize true suffix = Ok r ->
  r !! ("mse_" +:+ label) = None.
Proof.
  intros Hbin Hgold Hname. unfold compute_mse. cbn [compute_mse_depth].
  unfold compute_mse_body at 1.
  destruct (check_and_process_wellbeing_scores _ _ _) as [[[g p] m]|] eqn:Ecap;
    cbn [bind]; [|done].
  destruct (penalize_missing g p m) as [p'|]; cbn [bind]; [|done].
  destruct (mean_squared_error g p') as [mse|]; cbn [bind]; [|done].
  apply (foldM_preserves (fun acc : results => acc !! ("mse_" +:+ label) = None)).
  - intros acc [label' [lo' hi']] acc' Hbin' Hacc. unfold score_bin.
    destruct (mask_any _) eqn:Hany; cbn [negb]; [|by intros [= <-]].
    destruct (mask_select g _); simpl; [|done].
    destruct (mask_select p' _); simpl; [|done].
    destruct (compute_mse_body _ _ _ _ _ _) as [sub|] eqn:Hsub; simpl; [|done].
    intros [= <-]. apply compute_mse_body_flat_keys in Hsub as [m' ->].
    apply lookup_union_None. split; [|done].
    destruct (decide (label' = label)) as [->|Hne].
    + exfalso. apply mask_any_exists in Hany as (t & Ht & Hin).
      apply (Hgold t); [by eapply check_and_process_golds|].
      assert ((lo', hi') = (lo, hi)) as [= -> ->].
      { destruct Hbin as [[= <- <- <-]|[[= <- <- <-]|[[= <- <- <-]|[]]]];
          destruct Hbin' as [[= <- <-]|[[= <- <-]|[[= <- <-]|[]]]]; done. }
      unfold in_bin in Hin. lia.
    + apply lookup_singleton_ne.
      rewrite (metric_name_label label' (bins_labels _ Hbin')).
      intros H. by apply (append_inv_head "mse_") in H.
  - by apply lookup_singleton_ne.
Qed.

(** C6 (amended).  With [do_binwise=True] and a [suffix] that is not the
    label of the bin, a bin (serious 1-4, impaired 5-6, minimal 7-10) that
    holds no gold value of the batch has no entry in the mapping that
    [compute_mse] returns.  With [do_penalize=True], the default suffix, lists
    of the same length, at least one annotated post and values in range, the
    mapping is returned. *)
Theorem compute_mse_skips_empty_bins (y_trues : list (option Z))
    (y_preds : list (option num)) (label : string) (lo hi : Z) :
  In (label, (lo, hi)) bins ->
  (forall t, In (Some t) y_trues -> ~ (lo <= t <= hi)) ->
  (forall do_penalize suffix r,
      suffix <> label ->
      compute_mse y_trues y_preds do_penalize true suffix = Ok r ->
      r !! ("mse_" +:+ label) = None)
  /\ (length y_trues = length y_preds ->
      annotated y_trues y_preds <> [] ->
      Forall in_range (annotated y_trues y_preds) ->
      exists r, compute_mse y_trues y_preds true true "" = Ok r
                /\ r !! ("mse_" +:+ label) = None).
Proof.
  intros Hbin Hgold.
  assert (Hskip : forall do_penalize suffix r,
             suffix <> label ->
             compute_mse y_trues y_preds do_penalize true suffix = Ok r ->
             r !! ("mse_" +:+ label) = None).
  { intros do_penalize suffix r Hsuffix.
    apply compute_mse_empty_bin_suffix with lo hi; try done.
    unfold metric_name. destruct (str_truthy suffix); [|done].
    intros H. by apply append_inv_head in H. }
  split; [exact Hskip|].
  intros Hlen Hne Hrange.
  destruct (compute_mse_penalize y_trues y_preds true Hlen Hne Hrange) as (r & Hr & _).
  exists r. split; [exact Hr|]. apply (Hskip true "" r); [|done].
  intros <-. by apply bins_labels in Hbin.
Qed.

(** A batch with gold values 7 and 8 only: the result is there, and it has no
    entry for the serious bin. *)
Lemma compute_mse_skips_empty_bins_witness :
  exists r : results,
    compute_mse [Some 7; None; Some 8] [Some (NInt 6); None; None] true true "" = Ok r
    /\ r !! "mse_serious" = None
    /\ is_Some (r !! "mse_minimal").
Proof.
  destruct (compute_mse_skips_empty_bins
              [Some 7; None; Some 8] [Some (NInt 6); None; None] "serious" 1 4)
    as [_ Hret].
  - simpl. auto.
  - simpl. intros t [[= <-]|[[=]|[[= <-]|[]]]]; lia.
  - destruct Hret as (r & Hr & Hserious); [reflexivity|simpl; discriminate| |].
    { simpl. constructor; [split; [cbn; range|exists 6; split; [done|range]]|].
      constructor; [split; [cbn; range|done]|]. constructor. }
    exists r. split; [exact Hr|]. split; [exact Hserious|].
    assert (Hrun : compute_mse [Some 7; None; Some 8] [Some (NInt 6); None; None]
                     true true ""
                   = Ok (default ∅ (match compute_mse [Some 7; None; Some 8]
                                            [Some (NInt 6); None; None] true true ""
                                    with Ok r' => Some r' | Raise _ => None end))).
    { vm_compute. reflexivity. }
    rewrite Hrun in Hr. injection Hr as <-. vm_compute. eauto.
Defined.

(** A call whose [suffix] is the label of a bin names its own entry after
    it: with gold value 7 only, the mapping has an entry ["mse_serious"]
    although no gold value lies between 1 and 4. *)
Lemma compute_mse_suffix_names_bin_counterexample :
  In ("serious", (1, 4)) bins
  /\ (forall t, In (Some t) [Some 7] -> ~ (1 <= t <= 4))
  /\ exists r : results,
       compute_mse [Some 7] [Some (NInt 7)] true true "serious" = Ok r
       /\ r !! "mse_serious" = Some {| task := "A.2"; value := Fin 0%Qc |}.
Proof.
  split; [by left|]. split; [intros t [[= <-]|[]]; lia|].
  eexists. split; [vm_compute; reflexivity|]. vm_compute. reflexivity.
Qed.

(** *** No maximum over an empty array *)

Lemma mask_select_negb_nonempty {A} (a : list A) (mask : list bool) (r : list A) :
  mask_all mask = false -> mask_select a (map negb mask) = Ok r -> r <> [].
Proof.
  unfold mask_all. revert mask r. induction a as [|x a IH]; intros [|b mask] r; simpl; try done.
  destruct (mask_select a (map negb mask)) as [r'|] eqn:E; simpl; [|done].
  destruct b; simpl; intros Hall [= <-]; [|done]. by eapply IH.
Qed.

Lemma mapM_length {A B} (f : A -> result B) (a : list A) (r : list B) :
  mapM f a = Ok r -> length r = length a.
Proof.
  revert r. induction a as [|x a IH]; intros r; simpl; [by intros [= <-]|].
  destruct (f x); simpl; [|done].
  destruct (mapM f a) as [r'|]; simpl; [|done]. intros [= <-]. simpl. by rewrite (IH r').
Qed.

Lemma astype_int_pred_length (a : list (option num)) (r : list Z) :
  astype_int_pred a = Ok r -> length r = length a.
Proof. apply mapM_length. Qed.

Lemma no_empty_max_to_int64 (n : Z) : no_empty_max (to_int64 n).
Proof.
  unfold to_int64. destruct (_ && _); [apply raises_only_Ok|by apply raises_only_Raise].
Qed.

Lemma no_empty_max_num_int (v : num) : no_empty_max (num_int v).
Proof.
  destruct v as [b|n|[|neg|x]]; simpl;
    first [apply raises_only_Ok|by apply raises_only_Raise].
Qed.

Lemma no_empty_max_num_val (v : num) : no_empty_max (num_val v).
Proof.
  destruct v as [b|n|[|neg|x]]; simpl;
    try first [apply raises_only_Ok|by apply raises_only_Raise].
  unfold float_of_int. destruct (_ <=? _); [by apply raises_only_Raise|apply raises_only_Ok].
Qed.

Lemma no_empty_max_astype_int_gold (a : list (option Z)) : no_empty_max (astype_int_gold a).
Proof.
  apply raises_only_mapM. intros [n|]; [apply no_empty_max_to_int64|by apply raises_only_Raise].
Qed.

Lemma no_empty_max_astype_int_pred (a : list (option num)) : no_empty_max (astype_int_pred a).
Proof.
  apply raises_only_mapM. intros [v|]; [|by apply raises_only_Raise].
  apply raises_only_bind; [apply no_empty_max_num_int|].
  intros n _. apply no_empty_max_to_int64.
Qed.

#[export] Hint Resolve no_empty_max_astype_int_gold no_empty_max_astype_int_pred : safe.

Lemma no_empty_max_check_and_process y_trues y_preds do_penalize :
  no_empty_max (check_and_process_wellbeing_scores y_trues y_preds do_penalize).
Proof. unfold check_and_process_wellbeing_scores. safe. destruct do_penalize; cbn [negb]; safe. Qed.

(** The maximum of line 102 is taken over at least one error. *)
Lemma no_empty_max_penalize_missing y_trues y_preds none_mask :
  no_empty_max (penalize_missing y_trues y_preds none_mask).
Proof.
  unfold penalize_missing. destruct (mask_any none_mask); [|safe].
  apply raises_only_bind; [|intros; safe].
  destruct (mask_all none_mask) eqn:Hall; [safe|].
  destruct (mask_select y_trues _) as [ts|] eqn:Ets; cbn [bind];
    [|intros ? [= <-]; exact (no_empty_max_mask_select _ _ _ Ets)].
  destruct (mask_select y_preds _) as [ps|] eqn:Eps; cbn [bind];
    [|intros ? [= <-]; exact (no_empty_max_mask_select _ _ _ Eps)].
  destruct (astype_int_pred ps) as [ns|] eqn:Ens; cbn [bind];
    [|intros ? [= <-]; exact (no_empty_max_astype_int_pred _ _ Ens)].
  pose proof (mask_select_negb_nonempty _ _ _ Hall Ets) as Hts.
  pose proof (mask_select_negb_nonempty _ _ _ Hall Eps) as Hps.
  apply astype_int_pred_length in Ens.
  destruct ts as [|t ts]; [done|]. destruct ps as [|p ps]; [done|].
  destruct ns as [|n ns]; [done|]. simpl. apply raises_only_Ok.
Qed.

Lemma no_empty_max_mean_squared_error y_true y_pred :
  no_empty_max (mean_squared_error y_true y_pred).
Proof.
  unfold mean_squared_error. destruct (negb _); [by apply raises_only_Raise|].
  apply raises_only_bind.
  - apply raises_only_mapM. intros [v|]; [apply no_empty_max_num_val|by apply raises_only_Raise].
  - intros preds _. destruct y_true; [by apply raises_only_Raise|apply raises_only_Ok].
Qed.

#[export] Hint Resolve no_empty_max_check_and_process no_empty_max_penalize_missing
  no_empty_max_mean_squared_error : safe.

Lemma no_empty_max_compute_mse_body self y_trues y_preds do_penalize do_binwise suffix :
  (forall yt yp pen b sfx, no_empty_max (self yt yp pen b sfx)) ->
  no_empty_max (compute_mse_body self y_trues y_preds do_penalize do_binwise suffix).
Proof.
  intros Hself. unfold compute_mse_body.
  apply raises_only_bind; [safe|]. intros [[g p] m] _.
  apply raises_only_bind; [safe|]. intros p' _.
  apply raises_only_bind; [safe|]. intros mse _.
  destruct do_binwise; [|safe].
  apply raises_only_foldM. intros acc [label [lo hi]]. unfold score_bin.
  destruct (negb _); [safe|].
  apply raises_only_bind; [safe|]. intros yt _.
  apply raises_only_bind; [safe|]. intros yp _.
  apply raises_only_bind; [apply Hself|]. intros sub _. safe.
Qed.

Lemma no_empty_max_compute_mse y_trues y_preds do_penalize do_binwise suffix :
  no_empty_max (compute_mse y_trues y_preds do_penalize do_binwise suffix).
Proof.
  unfold compute_mse. cbn [compute_mse_depth].
  apply no_empty_max_compute_mse_body. intros.
  apply no_empty_max_compute_mse_body. intros.
  by apply raises_only_Raise.
Qed.

End WellbeingFacts.

(** ** The aggregator *)

Lemma foldM_raise {A B} (f : B -> A -> result B) (l : list A) (x : A) (acc : B) :
  In x l -> (forall b, exists e, f b x = Raise e) -> exists e, foldM f l acc = Raise e.
Proof.
  intros Hin Hx. revert acc. induction l as [|y l IH]; intros acc; [done|].
  simpl. destruct Hin as [->|Hin].
  - destruct (Hx acc) as [e ->]. by exists e.
  - destruct (f acc y) as [b|e]; simpl; [by apply IH|by exists e].
Qed.

Lemma mapM_raise {A B} (f : A -> result B) (l : list A) (x : A) :
  In x l -> (exists e, f x = Raise e) -> exists e, mapM f l = Raise e.
Proof.
  intros Hin [e Hx]. induction l as [|y l IH]; [done|].
  simpl. destruct Hin as [->|Hin].
  - rewrite Hx. by exists e.
  - destruct (f y) as [b|e']; simpl; [|by exists e'].
    destruct (IH Hin) as [e'' ->]. by exists e''.
Qed.

Module RunFacts.
Import Run.

Section Aggregator.
Variable sent_tokenize : string -> list string.
Variable tokenizer : string -> list Z.
Variable bertscore_F : string -> string -> Qc.
Variable nli : string -> string -> NLIScorer.prediction.

Lemma collect_post_record submission_data timeline_id acc post_id :
  collect_post sent_tokenize submission_data timeline_id acc post_id
  = let* post_datum := post_record submission_data timeline_id post_id in
    let* adaptive := dict_get post_datum "adaptive_evidence" (JList []) in
    let* adaptive := iter_items adaptive in
    let* maladaptive := dict_get post_datum "maladaptive_evidence" (JList []) in
    let* maladaptive := iter_items maladaptive in
    let* wellbeing_score := dict_get post_datum "wellbeing_score" JNull in
    let* wellbeing_score := normalize_wellbeing_score wellbeing_score in
    let* post_summary := dict_get post_datum "summary" (JStr "") in
    let* sents := split_sents sent_tokenize post_summary in
    Ok {| predicted_spans_adaptive := predicted_spans_adaptive acc ++ adaptive;
          predicted_spans_maladaptive := predicted_spans_maladaptive acc ++ maladaptive;
          predicted_wellbeing_scores := predicted_wellbeing_scores acc ++ [wellbeing_score];
          predicted_summary_sents := predicted_summary_sents acc ++ [sents] |}.
Proof.
  unfold collect_post, post_record.
  destruct (getitem submission_data timeline_id) as [t|]; [|done]. cbn [bind].
  by destruct (getitem t "post_level").
Qed.

(** One iteration on a post record that is there: every field is read with
    its default. *)
Lemma collect_post_fields submission_data timeline_id acc post_id fields :
  post_record submission_data timeline_id post_id = Ok (JDict fields) ->
  collect_post sent_tokenize submission_data timeline_id acc post_id
  = let* adaptive :=
      iter_items (default (JList []) (assoc "adaptive_evidence" fields)) in
    let* maladaptive :=
      iter_items (default (JList []) (assoc "maladaptive_evidence" fields)) in
    let* wellbeing_score :=
      normalize_wellbeing_score (default JNull (assoc "wellbeing_score" fields)) in
    let* sents :=
      split_sents sent_tokenize (default (JStr "") (assoc "summary" fields)) in
    Ok {| predicted_spans_adaptive := predicted_spans_adaptive acc ++ adaptive;
          predicted_spans_maladaptive := predicted_spans_maladaptive acc ++ maladaptive;
          predicted_wellbeing_scores := predicted_wellbeing_scores acc ++ [wellbeing_score];
          predicted_summary_sents := predicted_summary_sents acc ++ [sents] |}.
Proof.
  intros Hrec. rewrite collect_post_record, Hrec. cbn [bind dict_get].
  by destruct (assoc "adaptive_evidence" fields), (assoc "maladaptive_evidence" fields),
       (assoc "wellbeing_score" fields), (assoc "summary" fields).
Qed.

(** A post id that the submission does not have stops the loop. *)
Lemma collect_post_missing submission_data timeline_id acc post_id posts :
  (let* timeline := getitem submission_data timeline_id in
   getitem timeline "post_level") = Ok (JDict posts) ->
  assoc post_id posts = None ->
  collect_post sent_tokenize submission_data timeline_id acc post_id
  = Raise (KeyError post_id).
Proof.
  intros Hposts Hmissing. rewrite collect_post_record. unfold post_record.
  destruct (getitem submission_data timeline_id) as [t|]; [|done]. cbn [bind] in *.
  rewrite Hposts. cbn [bind getitem]. by rewrite Hmissing.
Qed.

(** C1 (amended).  A post id of the gold timeline that the submission's
    [post_level] mapping lacks makes [score_submission] raise (the lookup is
    a [KeyError]); no result is returned.  What is defaulted is a missing
    field of a post record that is there, field by field: whatever the other
    fields hold, the iteration reads each of the four fields or, when the
    record lacks it, its default (no evidence spans, a null wellbeing score,
    an empty summary), so a record that lacks a field is treated as the same
    record with the default in that field. *)
Theorem score_submission_missing_post :
  (forall submission_data gold_data do_A1 do_A2 do_B do_C timeline_id gold post_id posts,
      In (timeline_id, gold) gold_data ->
      In post_id (post_ids (timeline_level gold)) ->
      (let* timeline := getitem submission_data timeline_id in
       getitem timeline "post_level") = Ok (JDict posts) ->
      assoc post_id posts = None ->
      forall acc,
        collect_post sent_tokenize submission_data timeline_id acc post_id
        = Raise (KeyError post_id)
        /\ exists e,
            score_submission sent_tokenize tokenizer bertscore_F nli
              submission_data gold_data do_A1 do_A2 do_B do_C = Raise e)
  /\ (forall submission_data timeline_id acc post_id fields,
        post_record submission_data timeline_id post_id = Ok (JDict fields) ->
        collect_post sent_tokenize submission_data timeline_id acc post_id
        = let* adaptive :=
            iter_items (default (JList []) (assoc "adaptive_evidence" fields)) in
          let* maladaptive :=
            iter_items (default (JList []) (assoc "maladaptive_evidence" fields)) in
          let* wellbeing_score :=
            normalize_wellbeing_score (default JNull (assoc "wellbeing_score" fields)) in
          let* sents :=
            split_sents sent_tokenize (default (JStr "") (assoc "summary" fields)) in
          Ok {| predicted_spans_adaptive := predicted_spans_adaptive acc ++ adaptive;
                predicted_spans_maladaptive :=
                  predicted_spans_maladaptive acc ++ maladaptive;
                predicted_wellbeing_scores :=
                  predicted_wellbeing_scores acc ++ [wellbeing_score];
                predicted_summary_sents := predicted_summary_sents acc ++ [sents] |})
  /\ (forall submission_data submission_data' timeline_id acc post_id fields k dflt,
        In (k, dflt) field_defaults ->
        post_record submission_data timeline_id post_id = Ok (JDict fields) ->
        assoc k fields = None ->
        post_record submission_data' timeline_id post_id
        = Ok (JDict ((k, dflt) :: fields)) ->
        collect_post sent_tokenize submission_data timeline_id acc post_id
        = collect_post sent_tokenize submission_data' timeline_id acc post_id)
  /\ (iter_items (JList []) = Ok []
      /\ normalize_wellbeing_score JNull = Ok None
      /\ split_sents sent_tokenize (JStr "") = Ok (strip_nonempty (sent_tokenize "")))
  /\ (forall submission_data timeline_id acc post_id fields,
        post_record submission_data timeline_id post_id = Ok (JDict fields) ->
        assoc "adaptive_evidence" fields = None ->
        assoc "maladaptive_evidence" fields = None ->
        assoc "wellbeing_score" fields = None ->
        assoc "summary" fields = None ->
        collect_post sent_tokenize submission_data timeline_id acc post_id
        = Ok {| predicted_spans_adaptive := predicted_spans_adaptive acc ++ [];
                predicted_spans_maladaptive := predicted_spans_maladaptive acc ++ [];
                predicted_wellbeing_scores := predicted_wellbeing_scores acc ++ [None];
                predicted_summary_sents :=
                  predicted_summary_sents acc ++ [strip_nonempty (sent_tokenize "")] |}).
Proof.
  split; [|split; [|split; [|split]]].
  - intros sub gold_data a1 a2 b c tid gold pid posts Hgold Hpid Hposts Hmissing acc.
    split; [by eapply collect_post_missing|].
    unfold score_submission.
    apply (mapM_raise _ _ (tid, gold) Hgold).
    unfold score_timeline.
    destruct (foldM_raise (collect_post sent_tokenize sub tid)
                (post_ids (timeline_level gold)) pid no_predictions Hpid) as [e ->].
    + intros b0. exists (KeyError pid). by eapply collect_post_missing.
    + by exists e.
  - intros sub tid acc pid fields. apply collect_post_fields.
  - intros sub sub' tid acc pid fields k dflt Hk Hrec Hnone Hrec'.
    rewrite (collect_post_fields _ _ _ _ _ Hrec), (collect_post_fields _ _ _ _ _ Hrec').
    destruct Hk as [[= <- <-]|[[= <- <-]|[[= <- <-]|[[= <- <-]|[]]]]];
      cbn [assoc String.eqb Ascii.eqb Bool.eqb]; by rewrite Hnone.
  - done.
  - intros sub tid acc pid fields Hrec Ha Hm Hw Hs.
    rewrite (collect_post_fields _ _ _ _ _ Hrec). by rewrite Ha, Hm, Hw, Hs.
Qed.

Lemma no_empty_max_int_of_str (s : string) : no_empty_max (int_of_str s).
Proof.
  unfold int_of_str. repeat case_match;
    first [apply raises_only_Ok|by apply raises_only_Raise].
Qed.

Lemma no_empty_max_normalize (wellbeing_score : json) :
  no_empty_max (normalize_wellbeing_score wellbeing_score).
Proof.
  destruct wellbeing_score; simpl; try apply raises_only_Ok.
  destruct (_ && _); [|apply raises_only_Ok].
  apply raises_only_bind; [apply no_empty_max_int_of_str|]. intros. apply raises_only_Ok.
Qed.

(** What the loop over the posts hands to the scorer: for each post id, in
    order, the normalized wellbeing score of its record. *)
Lemma collect_posts_scores submission_data timeline_id (ids : list string) acc preds :
  foldM (collect_post sent_tokenize submission_data timeline_id) ids acc = Ok preds ->
  exists scores,
    predicted_wellbeing_scores preds = predicted_wellbeing_scores acc ++ scores
    /\ Forall2 (fun post_id w =>
                  exists fields,
                    post_record submission_data timeline_id post_id = Ok (JDict fields)
                    /\ normalize_wellbeing_score
                         (default JNull (assoc "wellbeing_score" fields)) = Ok w)
               ids scores.
Proof.
  revert acc. induction ids as [|pid ids IH]; intros acc; simpl.
  - intros [= <-]. exists []. by rewrite app_nil_r.
  - destruct (collect_post _ _ _ acc pid) as [acc'|] eqn:E; simpl; [|done].
    intros Hrest. destruct (IH _ Hrest) as (scores & Hscores & Hall).
    rewrite collect_post_record in E.
    destruct (post_record submission_data timeline_id pid)
      as [[| | | | | |fields]|] eqn:Hrec; try done.
    cbn [bind dict_get] in E.
    destruct (iter_items _); [|done]. cbn [bind] in E.
    destruct (iter_items _); [|done]. cbn [bind] in E.
    destruct (normalize_wellbeing_score _) as [w|] eqn:Ew; [|done]. cbn [bind] in E.
    destruct (split_sents _ _); [|done]. cbn [bind] in E.
    injection E as <-. simpl in Hscores.
    exists (w :: scores). split; [by rewrite Hscores, <- app_assoc|].
    constructor; [|done]. exists fields. split; [done|].
    by destruct (assoc "wellbeing_score" fields).
Qed.


(** *** The empty-array failure of the consistency scorer *)

Lemma is_Ok_raises_only {A} (P : exn -> Prop) (m : result A) :
  is_Ok m -> raises_only P m.
Proof. intros [a ->] e. discriminate. Qed.

Lemma no_empty_max_strip_spans (spans : list json) :
  no_empty_max (SpanScorer.strip_spans spans).
Proof.
  induction spans as [|v spans IH]; simpl; [safe|].
  destruct v; try (by apply raises_only_Raise).
  apply raises_only_bind; [exact IH|]. intros. safe.
Qed.

Lemma no_empty_max_compute_span_metrics gold_spans predicted_spans :
  no_empty_max (SpanScorer.compute_span_metrics tokenizer bertscore_F
                  gold_spans predicted_spans).
Proof.
  unfold SpanScorer.compute_span_metrics.
  apply raises_only_bind; [apply no_empty_max_strip_spans|].
  intros [|pred0 preds] _; [safe|].
  apply raises_only_bind; [|intros; safe].
  unfold SpanScorer.span_weight.
  destruct (_ <? _); [|safe]. destruct (_ =? _); [by apply raises_only_Raise|safe].
Qed.

Lemma gold_lookup_raises (gold : gold_datum) (pid : string) :
  raises_only (fun e => exists k, e = KeyError k) (gold_lookup gold pid).
Proof.
  unfold gold_lookup. destruct (assoc pid (post_level gold)).
  - apply raises_only_Ok.
  - apply raises_only_Raise. eauto.
Qed.

Lemma getitem_raises (v : json) (k : string) :
  raises_only (fun e => e = TypeError \/ exists k, e = KeyError k) (getitem v k).
Proof.
  destruct v; simpl; try (apply raises_only_Raise; by left).
  destruct (assoc k d); [apply raises_only_Ok|apply raises_only_Raise; eauto].
Qed.

(** Task B only looks up the gold posts; the scorer is called on gold
    summaries that are not empty, and returns. *)
Lemma task_B_raises (gold : gold_datum) (preds : predictions) :
  raises_only (fun e => exists k, e = KeyError k) (task_B nli gold preds).
Proof.
  unfold task_B.
  apply raises_only_bind; [apply raises_only_mapM, gold_lookup_raises|].
  intros gold_posts _. apply raises_only_foldM.
  intros curr_results [[|s gold_sents] predicted_sents]; [apply raises_only_Ok|].
  apply raises_only_bind; [|intros; apply raises_only_Ok].
  apply is_Ok_raises_only, compute_nli_scores_total.
Qed.

Lemma task_C_raises submission_data timeline_id (gold : gold_datum) :
  raises_only (fun e => e = TypeError \/ exists k, e = KeyError k)
    (task_C sent_tokenize nli submission_data timeline_id gold).
Proof.
  unfold task_C.
  apply raises_only_bind; [apply getitem_raises|]. intros timeline _.
  apply raises_only_bind; [apply getitem_raises|]. intros tl _.
  apply raises_only_bind; [apply getitem_raises|]. intros timeline_summary _.
  destruct (summary_sents (timeline_level gold)) as [|s gold_sents];
    [apply raises_only_Ok|].
  apply raises_only_bind; [|intros; apply raises_only_Ok].
  apply is_Ok_raises_only, compute_nli_scores_total.
Qed.

Lemma no_empty_max_split_sents (text : json) :
  no_empty_max (split_sents sent_tokenize text).
Proof. destruct text; simpl; try (by apply raises_only_Raise). apply raises_only_Ok. Qed.

Lemma no_empty_max_collect_post submission_data timeline_id acc post_id :
  no_empty_max (collect_post sent_tokenize submission_data timeline_id acc post_id).
Proof.
  unfold collect_post.
  do 8 (apply raises_only_bind; [solve [eauto with safe]|intros ? _]).
  apply raises_only_bind; [apply no_empty_max_normalize|intros ? _].
  apply raises_only_bind; [solve [eauto with safe]|intros ? _].
  apply raises_only_bind; [apply no_empty_max_split_sents|]. intros. safe.
Qed.

Lemma raises_only_weaken {A} (P Q : exn -> Prop) (m : result A) :
  (forall e, P e -> Q e) -> raises_only P m -> raises_only Q m.
Proof. intros HPQ Hm e He. by apply HPQ, Hm. Qed.

Lemma no_empty_max_score_timeline submission_data do_A1 do_A2 do_B do_C
    timeline_id (gold : gold_datum) :
  no_empty_max (score_timeline sent_tokenize tokenizer bertscore_F nli
                  submission_data do_A1 do_A2 do_B do_C timeline_id gold).
Proof.
  unfold score_timeline.
  apply raises_only_bind.
  { apply raises_only_foldM. intros acc pid. apply no_empty_max_collect_post. }
  intros preds _. apply raises_only_bind.
  { destruct do_A1; [|safe]. unfold when, task_A1.
    apply raises_only_bind; [apply no_empty_max_compute_span_metrics|]. intros.
    apply raises_only_bind; [apply no_empty_max_compute_span_metrics|]. intros. safe. }
  intros a1 _. apply raises_only_bind.
  { destruct do_A2; [|safe]. unfold when, task_A2.
    apply raises_only_bind.
    - apply raises_only_mapM. intros pid.
      eapply raises_only_weaken; [|apply gold_lookup_raises]. by intros e [k ->].
    - intros. apply raises_only_bind; [apply WellbeingFacts.no_empty_max_compute_mse|].
      intros. safe. }
  intros a2 _. apply raises_only_bind.
  { destruct do_B; [|safe]. unfold when.
    eapply raises_only_weaken; [|apply task_B_raises]. by intros e [k ->]. }
  intros b _. apply raises_only_bind; [|intros; safe].
  destruct do_C; [|safe]. unfold when.
  eapply raises_only_weaken; [|apply task_C_raises]. by intros e [->|[k ->]].
Qed.

(** C10.  [compute_nli_scores] has no result when there is no source
    sentence but a predicted one: the score arrays are empty and the maximum
    raises.  With a source sentence it always returns.  [score_submission]
    calls it only on gold summaries that are not empty (tasks B and C raise
    nothing but the errors of their lookups), so the failure never comes
    out of [score_submission]. *)
Theorem compute_nli_scores_partial :
  (forall p ps task prefix source_name,
      NLIScorer.compute_nli_scores nli [] (p :: ps) task prefix source_name
      = Raise zero_size_max)
  /\ (forall s source predicted task prefix source_name,
        is_Ok (NLIScorer.compute_nli_scores nli (s :: source) predicted
                 task prefix source_name))
  /\ (forall gold preds,
        raises_only (fun e => exists k, e = KeyError k) (task_B nli gold preds))
  /\ (forall submission_data timeline_id gold,
        raises_only (fun e => e = TypeError \/ exists k, e = KeyError k)
          (task_C sent_tokenize nli submission_data timeline_id gold))
  /\ (forall submission_data gold_data do_A1 do_A2 do_B do_C,
        score_submission sent_tokenize tokenizer bertscore_F nli
          submission_data gold_data do_A1 do_A2 do_B do_C
        <> Raise zero_size_max).
Proof.
  split; [done|].
  split; [apply compute_nli_scores_total|].
  split; [apply task_B_raises|].
  split; [apply task_C_raises|].
  intros sub gold_data a1 a2 b c H.
  assert (Hsafe : no_empty_max
            (score_submission sent_tokenize tokenizer bertscore_F nli
               sub gold_data a1 a2 b c)).
  { unfold score_submission. apply raises_only_mapM. intros [tid gold].
    apply raises_only_bind; [apply no_empty_max_score_timeline|]. intros. safe. }
  by apply (Hsafe _ H).
Qed.
End Aggregator.
End RunFacts.

(** ** The validator *)

Module ValidatorFacts.
Import Validator.

Create HintDb grows.

Lemma grows_refl v : grows v v.
Proof. by repeat split. Qed.

Lemma grows_trans v1 v2 v3 : grows v1 v2 -> grows v2 v3 -> grows v1 v3.
Proof.
  intros (Ha & Hb & Hc & Hd) (Ha' & Hb' & Hc' & Hd').
  repeat split; [auto|set_solver|set_solver|congruence].
Qed.

Lemma grows_emit l m v : grows v (emit l m v).
Proof. by repeat split. Qed.

Lemma grows_set_valid_false v : grows v (set_valid false v).
Proof. by repeat split. Qed.

Lemma grows_log_timeline_issue t v : grows v (log_timeline_issue t v).
Proof. repeat split; simpl; [set_solver|done]. Qed.

Lemma grows_log_post_issue t p v : grows v (log_post_issue t p v).
Proof. repeat split; simpl; set_solver. Qed.

Lemma grows_record_issue t p v : grows v (record_issue t p v).
Proof.
  unfold record_issue. destruct t as [t|], p as [p|];
    repeat case_match;
    auto using grows_log_post_issue, grows_log_timeline_issue, grows_set_valid_false.
Qed.

Lemma grows_check_type value ty ctx t p v :
  grows v (snd (check_type value ty ctx t p v)).
Proof.
  unfold check_type. destruct (negb _); simpl; [|apply grows_refl].
  eapply grows_trans; [apply grows_emit|apply grows_record_issue].
Qed.

Lemma grows_check_required_fields data req ctx t p v :
  grows v (snd (check_required_fields data req ctx t p v)).
Proof.
  unfold check_required_fields. destruct (negb _); simpl; [|apply grows_refl].
  eapply grows_trans; [apply grows_emit|apply grows_record_issue].
Qed.

Lemma grows_foldl {A} (f : validator -> A -> validator) (l : list A) v :
  (forall v a, grows v (f v a)) -> grows v (foldl f v l).
Proof.
  intros Hf. revert v. induction l as [|x l IH]; intros v; simpl; [apply grows_refl|].
  eapply grows_trans; [apply Hf|apply IH].
Qed.

Lemma grows_foldr {A} (f : A -> validator -> validator) (l : list A) v :
  (forall a v, grows v (f a v)) -> grows v (foldr f v l).
Proof.
  intros Hf. induction l as [|x l IH]; simpl; [apply grows_refl|].
  eapply grows_trans; [apply IH|apply Hf].
Qed.

#[export] Hint Resolve grows_refl grows_emit grows_set_valid_false
  grows_log_timeline_issue grows_log_post_issue grows_record_issue
  grows_check_type grows_check_required_fields : grows.

(** Name the state left by a check and record that it grew. *)
Ltac checked E H :=
  match goal with
  | |- context [check_type ?a ?b ?c ?d ?e ?v] =>
      pose proof (grows_check_type a b c d e v) as H;
      destruct (check_type a b c d e v) as [? ?] eqn:E; simpl in H
  | |- context [check_required_fields ?a ?b ?c ?d ?e ?v] =>
      pose proof (grows_check_required_fields a b c d e v) as H;
      destruct (check_required_fields a b c d e v) as [? ?] eqn:E; simpl in H
  end.

Lemma grows_validate_wellbeing_score score ctx t p v :
  grows v (validate_wellbeing_score score ctx t p v).
Proof.
  unfold validate_wellbeing_score.
  destruct score; try (checked E H; destruct (negb _); [done|]);
    repeat case_match;
    eauto using grows_refl, grows_trans, grows_emit, grows_log_post_issue.
Qed.

Lemma grows_validate_evidence field data ctx t p v :
  grows v (validate_evidence field data ctx t p v).
Proof.
  unfold validate_evidence. destruct (assoc field data) as [ev|]; [|apply grows_refl].
  checked E H. repeat case_match; try done.
  eapply grows_trans; [exact H|]. apply grows_foldl.
  intros v' [i x]. apply grows_check_type.
Qed.

(** Peel the calls of a method from the outside in. *)
Ltac grows_chain :=
  repeat first
    [ assumption
    | apply grows_refl
    | eapply grows_trans;
      [|first [ apply grows_validate_wellbeing_score
              | apply grows_validate_evidence
              | apply grows_check_type
              | apply grows_check_required_fields
              | apply grows_emit
              | apply grows_set_valid_false
              | apply grows_log_post_issue
              | apply grows_log_timeline_issue ]] ].

Lemma grows_validate_post_dict post_data t p v :
  grows v (validate_post_dict post_data t p v).
Proof.
  unfold validate_post_dict. checked E H.
  repeat case_match; try done; subst; grows_chain.
Qed.

Lemma grows_validate_post_level post_level t v :
  grows v (validate_post_level post_level t v).
Proof.
  unfold validate_post_level. checked E H.
  repeat case_match; try done; subst; try solve [grows_chain];
    (eapply grows_trans; [|apply grows_foldl; intros ? [? ?]; apply grows_validate_post_dict]);
    try (eapply grows_trans; [|apply grows_emit]);
    try (eapply grows_trans; [|apply grows_foldr; intros; apply grows_log_post_issue]);
    grows_chain.
Qed.

Lemma grows_validate_timeline_level timeline_level t v :
  grows v (validate_timeline_level timeline_level t v).
Proof.
  unfold validate_timeline_level. checked E H.
  destruct b; [|done]. destruct timeline_level as [| | | | | |[|kv d]]; try done.
  - grows_chain.
  - checked E' H'. assert (grows v v1) by by eapply grows_trans.
    repeat case_match; try done; subst; grows_chain.
Qed.

Lemma grows_validate_timeline_dict timeline_data t v :
  grows v (validate_timeline_dict timeline_data t v).
Proof.
  unfold validate_timeline_dict. checked E H.
  repeat case_match; try done; subst; try solve [grows_chain];
    try (eapply grows_trans; [|apply grows_validate_post_level]);
    try (eapply grows_trans; [|apply grows_validate_timeline_level]);
    grows_chain.
Qed.

(** *** Missing timelines *)

Lemma assoc_None_keys (k : string) (d : list (string * json)) :
  assoc k d = None <-> k ∉ keys d.
Proof.
  unfold keys. induction d as [|[k' x] d IH]; simpl.
  - split; [set_solver|done].
  - destruct (String.eqb_spec k k') as [->|Hne].
    + split; [done|set_solver].
    + rewrite IH. set_solver.
Qed.

Lemma foldr_log_timeline_issue (l : list string) (v : validator) (t : string) :
  In t l ->
  valid (foldr log_timeline_issue v l) = false
  /\ t ∈ timelines_with_issues (foldr log_timeline_issue v l).
Proof.
  induction l as [|x l IH]; simpl; [done|].
  intros [->|Hin]; [set_solver|]. split; [done|]. destruct (IH Hin). set_solver.
Qed.

Lemma validate_file_loaded_dict (kv : string * json) (d : list (string * json))
    (v : validator) :
  validate_file (Loaded (JDict (kv :: d))) v
  = let expected : gset string := list_to_set (map fst (timeline_id_to_post_ids v)) in
    report (validate_timelines (kv :: d)
              (check_unexpected_timelines expected (keys (kv :: d))
                 (check_missing_timelines expected (keys (kv :: d))
                    (emit INFO ValidatingFile v)))).
Proof. reflexivity. Qed.

Lemma validate_file_grows_after_missing_check (kv : string * json)
    (d : list (string * json)) (v : validator) :
  grows (check_missing_timelines (list_to_set (map fst (timeline_id_to_post_ids v)))
           (keys (kv :: d)) (emit INFO ValidatingFile v))
        (validate_file (Loaded (JDict (kv :: d))) v).
Proof.
  rewrite validate_file_loaded_dict. cbv zeta.
  eapply grows_trans; [|unfold report; destruct (valid _); apply grows_emit].
  eapply grows_trans;
    [|apply grows_foldl; intros v' [t data];
      eapply grows_trans; [apply grows_emit|apply grows_validate_timeline_dict]].
  unfold check_unexpected_timelines. destruct (negb _); [apply grows_emit|apply grows_refl].
Qed.

Lemma check_missing_timelines_flags (expected actual : gset string) (v : validator)
    (t : string) :
  t ∈ expected -> t ∉ actual ->
  valid (check_missing_timelines expected actual v) = false
  /\ t ∈ timelines_with_issues (check_missing_timelines expected actual v).
Proof.
  intros Hexp Hact. unfold check_missing_timelines.
  rewrite bool_decide_eq_false_2 by set_solver. cbn [negb].
  apply foldr_log_timeline_issue. apply list_elem_of_In, elem_of_elements. set_solver.
Qed.

(** C9 (amended).  When the top-level mapping of the submission is not empty
    and lacks a timeline id of the timeline-to-post mapping, [validate_file]
    clears [valid] and puts the id in [timelines_with_issues], and the process
    exits with 1.  The exit status is 0 exactly when [valid] is still set and
    1 exactly when it is cleared. *)
Theorem validate_file_missing_timeline (mapping : list (string * list string))
    (d : list (string * json)) (timeline_id : string) :
  d <> [] ->
  In timeline_id (map fst mapping) ->
  assoc timeline_id d = None ->
  valid (validate_file (Loaded (JDict d)) (init mapping)) = false
  /\ timeline_id ∈ timelines_with_issues (validate_file (Loaded (JDict d)) (init mapping))
  /\ main mapping (Loaded (JDict d)) = 1
  /\ (forall file, main mapping file = 0
                   <-> valid (validate_file file (init mapping)) = true)
  /\ (forall file, main mapping file = 1
                   <-> valid (validate_file file (init mapping)) = false).
Proof.
  intros Hd Hexp Hact. destruct d as [|kv d]; [done|].
  destruct (check_missing_timelines_flags
              (list_to_set (map fst (timeline_id_to_post_ids (init mapping))))
              (keys (kv :: d)) (emit INFO ValidatingFile (init mapping)) timeline_id)
    as [Hvalid Hin].
  { apply elem_of_list_to_set. by apply list_elem_of_In. }
  { by apply assoc_None_keys. }
  destruct (validate_file_grows_after_missing_check kv d (init mapping))
    as (Hv & Ht & _ & _).
  assert (Hfinal : valid (validate_file (Loaded (JDict (kv :: d))) (init mapping)) = false)
    by auto.
  split; [exact Hfinal|]. split; [set_solver|].
  unfold main. split; [by rewrite Hfinal|].
  split; intros file; destruct (valid (validate_file file (init mapping)));
    split; intros H; done.
Qed.

(** *** Wellbeing scores *)

Lemma validate_post_dict_last (kv : string * json) (d : list (string * json))
    (t p : string) (v : validator) (score : json) :
  assoc "wellbeing_score" (kv :: d) = Some score ->
  exists v1,
    validate_post_dict (JDict (kv :: d)) t p v
    = validate_wellbeing_score score ("Timeline " +:+ t +:+ ", Post " +:+ p) t p v1.
Proof.
  intros Hscore. unfold validate_post_dict.
  change (check_type (JDict (kv :: d)) TDict _ (Some t) (Some p) v) with (true, v).
  cbv beta iota zeta. rewrite Hscore. by eexists.
Qed.

Lemma log_post_issue_flags (t p : string) (v : validator) :
  valid (log_post_issue t p v) = false
  /\ (t, p) ∈ posts_with_issues (log_post_issue t p v)
  /\ t ∈ timelines_with_issues (log_post_issue t p v).
Proof. repeat split; simpl; set_solver. Qed.

Lemma keys_assoc (k : string) (d : list (string * json)) (x : json) :
  assoc k d = Some x -> k ∈ keys d.
Proof.
  intros H. destruct (decide (k ∈ keys d)) as [|Hn]; [done|].
  apply assoc_None_keys in Hn. congruence.
Qed.

Lemma foldl_check_strings (g : nat -> string) (t p : string) (v : validator)
    (items : list (nat * json)) :
  Forall (fun ix => exists s, snd ix = JStr s) items ->
  foldl (fun v '(i, evidence) =>
           snd (check_type evidence TStr (g i) (Some t) (Some p) v)) v items
  = v.
Proof.
  induction 1 as [|[i x] items [s Hs] _ IH]; simpl in *; [done|]. by subst x.
Qed.

Lemma imap_strings (f : nat -> json -> nat * json) (spans : list string) :
  (forall i x, snd (f i x) = x) ->
  Forall (fun ix => exists s, snd ix = JStr s) (imap f (JStr <$> spans)).
Proof.
  revert f. induction spans as [|s spans IH]; intros f Hf; [constructor|].
  rewrite fmap_cons. cbn [imap]. constructor.
  - exists s. apply Hf.
  - apply IH. intros i x. apply Hf.
Qed.

Lemma validate_evidence_strings (field : string) (d : list (string * json))
    (ctx t p : string) (v : validator) (spans : list string) :
  assoc field d = Some (JList (JStr <$> spans)) ->
  validate_evidence field d ctx t p v = v.
Proof.
  intros Hf. unfold validate_evidence. rewrite Hf.
  change (check_type (JList (JStr <$> spans)) TList _ (Some t) (Some p) v) with (true, v).
  cbv beta iota zeta.
  apply (foldl_check_strings
           (fun i => ctx +:+ ": " +:+ field +:+ "[" +:+ pretty i +:+ "]")).
  by apply imap_strings.
Qed.

Lemma record_issue_post_flags (t p : string) (v : validator) :
  valid (record_issue (Some t) (Some p) v) = false
  /\ (t <> "" -> p <> "" ->
      (t, p) ∈ posts_with_issues (record_issue (Some t) (Some p) v)
      /\ t ∈ timelines_with_issues (record_issue (Some t) (Some p) v)).
Proof.
  unfold record_issue. destruct p as [|a p], t as [|b t]; simpl; split; try done.
  intros _ _. set_solver.
Qed.

(** C5 (amended).  A wellbeing score given as a string -- the numeric string
    "7" as any other -- fails the type check of [validate_post_dict]: [valid]
    is cleared and, when neither the timeline id nor the post id is the empty
    string, the post is added to [posts_with_issues] (with an empty id the
    check records no post).  An integer
    below 1 or above 10 (0, 11) is flagged in the same way as out of range.  A
    float between 1 and 10 (7.0), in a record whose other fields are well
    formed, only adds the truncation warning to the log. *)
Theorem validate_post_dict_wellbeing_score (v : validator) (t p : string)
    (d : list (string * json)) :
  (forall s, assoc "wellbeing_score" d = Some (JStr s) ->
     valid (validate_post_dict (JDict d) t p v) = false
     /\ (t <> "" -> p <> "" ->
         (t, p) ∈ posts_with_issues (validate_post_dict (JDict d) t p v)
         /\ t ∈ timelines_with_issues (validate_post_dict (JDict d) t p v)))
  /\ (forall n, assoc "wellbeing_score" d = Some (JInt n) ->
       n < 1 \/ 10 < n ->
       valid (validate_post_dict (JDict d) t p v) = false
       /\ (t, p) ∈ posts_with_issues (validate_post_dict (JDict d) t p v)
       /\ t ∈ timelines_with_issues (validate_post_dict (JDict d) t p v))
  /\ (forall x adaptive maladaptive summary,
       assoc "adaptive_evidence" d = Some (JList (JStr <$> adaptive)) ->
       assoc "maladaptive_evidence" d = Some (JList (JStr <$> maladaptive)) ->
       assoc "summary" d = Some (JStr summary) ->
       assoc "wellbeing_score" d = Some (JFloat (FFin x)) ->
       (Qc_of_Z 1 <= x)%Qc -> (x <= Qc_of_Z 10)%Qc ->
       validate_post_dict (JDict d) t p v
       = emit WARNING (ScoreIsFloat ("Timeline " +:+ t +:+ ", Post " +:+ p)) v).
Proof.
  split; [|split].
  - intros s Hs. destruct d as [|kv d]; [done|].
    destruct (validate_post_dict_last kv d t p v _ Hs) as [v1 ->].
    unfold validate_wellbeing_score, check_type. simpl.
    apply record_issue_post_flags.
  - intros n Hn Hrange. destruct d as [|kv d]; [done|].
    destruct (validate_post_dict_last kv d t p v _ Hn) as [v1 ->].
    unfold validate_wellbeing_score, check_type. simpl.
    replace ((n <? 1) || (10 <? n)) with true by (symmetry; apply orb_true_iff; lia).
    apply log_post_issue_flags.
  - intros x adaptive maladaptive summary Ha Hm Hs Hw Hlo Hhi.
    destruct d as [|kv d]; [done|].
    unfold validate_post_dict.
    change (check_type (JDict (kv :: d)) TDict _ (Some t) (Some p) v) with (true, v).
    cbv beta iota zeta.
    assert (Hreq : post_required_fields ∖ keys (kv :: d) = ∅).
    { pose proof (keys_assoc _ _ _ Ha). pose proof (keys_assoc _ _ _ Hm).
      pose proof (keys_assoc _ _ _ Hs). pose proof (keys_assoc _ _ _ Hw).
      unfold post_required_fields. set_solver. }
    unfold check_required_fields. rewrite Hreq.
    rewrite bool_decide_eq_true_2 by done. cbn [negb snd].
    rewrite (validate_evidence_strings _ _ _ _ _ _ _ Ha).
    rewrite (validate_evidence_strings _ _ _ _ _ _ _ Hm).
    rewrite Hs, Hw.
    change (snd (check_type (JStr summary) TStr _ (Some t) (Some p) v)) with v.
    unfold validate_wellbeing_score, out_of_range.
    rewrite bool_decide_eq_false_2 by by apply Qcle_not_lt.
    rewrite bool_decide_eq_false_2 by by apply Qcle_not_lt.
    done.
Qed.

End ValidatorFacts.

(** * Concrete runs *)

Lemma stub_tokenizer_special_tokens (s : string) :
  (2 <= length (Stub.tokenizer s))%nat.
Proof. unfold Stub.tokenizer. simpl. rewrite length_app. simpl. lia. Qed.

(** Gold text of 15 tokens against 36 predicted ones. *)
Lemma compute_span_metrics_weighted_recall_witness :
  exists (r : results) (recall : Qc),
    SpanScorer.compute_span_metrics Stub.tokenizer Stub.bertscore_F
      ["went for a walk"]
      (JStr <$> ["a walk"; "  "; "went out for a long walk today"]) = Ok r
    /\ r !! "bertscore_recall" = Some {| task := "A.1"; value := Fin recall |}
    /\ r !! "bertscore_weighted_recall"
        = Some {| task := "A.1"; value := Fin (recall * SpanScorer.weight_of 15 36)%Qc |}.
Proof.
  destruct (compute_span_metrics_weighted_recall Stub.tokenizer Stub.bertscore_F
              ["went for a walk"] ["a walk"; "  "; "went out for a long walk today"])
    as (r & recall & Hr & Hrecall & Hweighted & _).
  - apply stub_tokenizer_special_tokens.
  - vm_compute. discriminate.
  - vm_compute. discriminate.
  - exists r, recall. split; [exact Hr|]. split; [exact Hrecall|exact Hweighted].
Defined.

Lemma compute_span_metrics_empty_predictions_witness :
  exists r : results,
    SpanScorer.compute_span_metrics Stub.tokenizer Stub.bertscore_F
      ["went for a walk"] (JStr <$> ["  "; ""]) = Ok r
    /\ r !! "bertscore_recall" = Some {| task := "A.1"; value := Fin 0%Qc |}
    /\ r !! "bertscore_weighted_recall" = Some {| task := "A.1"; value := Fin 0%Qc |}.
Proof.
  apply (compute_span_metrics_empty_predictions Stub.tokenizer Stub.bertscore_F
           ["went for a walk"] ["  "; ""]).
  repeat constructor.
Defined.

(** The submission has post p1 of timeline t1 but not post p2, which the gold
    timeline lists: the run stops on the lookup of p2. *)
Lemma score_submission_missing_post_counterexample :
  map (fun tg => Run.post_ids (Run.timeline_level (snd tg))) Stub.gold_data
  = [["p1"; "p2"]]
  /\ Run.post_record Stub.submission_without_p2 "t1" "p1" = Ok Stub.post_p1
  /\ Run.post_record Stub.submission_without_p2 "t1" "p2" = Raise (KeyError "p2")
  /\ Run.score_submission Stub.sent_tokenize Stub.tokenizer Stub.bertscore_F Stub.nli
       Stub.submission_without_p2 Stub.gold_data true true true true
     = Raise (KeyError "p2").
Proof. repeat split. Qed.

(** With an empty record for p2 every field is defaulted and the timeline is
    scored. *)
Example score_submission_defaults_ex :
  is_Ok (Run.score_submission Stub.sent_tokenize Stub.tokenizer Stub.bertscore_F
           Stub.nli Stub.submission_complete Stub.gold_data true true true true).
Proof.
  assert (H : match Run.score_submission Stub.sent_tokenize Stub.tokenizer
                      Stub.bertscore_F Stub.nli Stub.submission_complete
                      Stub.gold_data true true true true with
              | Ok _ => true
              | Raise _ => false
              end = true) by (vm_compute; reflexivity).
  destruct (Run.score_submission _ _ _ _ _ _ _ _ _ _) as [r|e]; [by exists r|discriminate].
Qed.

Lemma score_submission_missing_post_witness :
  (exists e,
      Run.score_submission Stub.sent_tokenize Stub.tokenizer Stub.bertscore_F Stub.nli
        Stub.submission_without_p2 Stub.gold_data true true true true = Raise e)
  /\ Run.collect_post Stub.sent_tokenize Stub.submission_partial "t1"
       Run.no_predictions "p2"
     = Ok {| Run.predicted_spans_adaptive := [];
             Run.predicted_spans_maladaptive := [JStr "could not sleep"];
             Run.predicted_wellbeing_scores := [Some (NInt 4)];
             Run.predicted_summary_sents := [[]] |}
  /\ Run.collect_post Stub.sent_tokenize Stub.submission_complete "t1"
       Run.no_predictions "p2"
     = Run.collect_post Stub.sent_tokenize
         (JDict [("t1", JDict [("post_level",
                                JDict [("p2", JDict [("summary", JStr "")])])])])
         "t1" Run.no_predictions "p2"
  /\ Run.collect_post Stub.sent_tokenize Stub.submission_complete "t1"
       Run.no_predictions "p2"
     = Ok {| Run.predicted_spans_adaptive := [];
             Run.predicted_spans_maladaptive := [];
             Run.predicted_wellbeing_scores := [None];
             Run.predicted_summary_sents := [[]] |}.
Proof.
  destruct (RunFacts.score_submission_missing_post
              Stub.sent_tokenize Stub.tokenizer Stub.bertscore_F Stub.nli)
    as (Hmissing & Hfields & Hfield & _ & Hdefault).
  split; [|split; [|split]].
  - eapply (Hmissing Stub.submission_without_p2 Stub.gold_data true true true true
              "t1" _ "p2" [("p1", Stub.post_p1)]).
    + left. reflexivity.
    + simpl. auto.
    + reflexivity.
    + reflexivity.
    + exact Run.no_predictions.
  - rewrite (Hfields Stub.submission_partial "t1" Run.no_predictions "p2"
               [("maladaptive_evidence", JList [JStr "could not sleep"]);
                ("wellbeing_score", JInt 4)] eq_refl).
    reflexivity.
  - apply (Hfield Stub.submission_complete _ "t1" Run.no_predictions "p2" []
             "summary" (JStr "")).
    + simpl. auto.
    + reflexivity.
    + reflexivity.
    + reflexivity.
  - apply (Hdefault Stub.submission_complete "t1" Run.no_predictions "p2" []);
      reflexivity.
Defined.


(** A string that [isnumeric] lets through and [int] does not parse stops the
    run: the superscript two (U+00B2) in the wellbeing score of a post. *)
Example score_submission_superscript_ex :
  Run.score_submission Stub.sent_tokenize Stub.tokenizer Stub.bertscore_F Stub.nli
    (JDict [("t1", JDict [("timeline_level", JDict [("summary", JStr "")]);
                          ("post_level",
                           JDict [("p1", JDict [("wellbeing_score",
                                                 JStr (String (ascii_of_nat 178) ""))]);
                                  ("p2", JDict [])])])])
    Stub.gold_data true true true true
  = Raise (ValueError "invalid literal for int() with base 10").
Proof. reflexivity. Qed.


(** The numeric string "7" is flagged although the scorer would parse it. *)
Lemma validate_post_dict_numeric_string_counterexample :
  Validator.valid (Validator.validate_post_dict
           (JDict [("adaptive_evidence", JList []);
                   ("maladaptive_evidence", JList []);
                   ("summary", JStr "");
                   ("wellbeing_score", JStr "7")])
           "t1" "p1" (Validator.init [("t1", ["p1"])])) = false
  /\ Validator.posts_with_issues
       (Validator.validate_post_dict
          (JDict [("adaptive_evidence", JList []);
                  ("maladaptive_evidence", JList []);
                  ("summary", JStr "");
                  ("wellbeing_score", JStr "7")])
          "t1" "p1" (Validator.init [("t1", ["p1"])])) = {[("t1", "p1")]}
  /\ Validator.valid (Validator.init [("t1", ["p1"])]) = true
  /\ Validator.posts_with_issues (Validator.init [("t1", ["p1"])]) = ∅.
Proof. compute_done. Qed.

Lemma validate_post_dict_wellbeing_score_witness :
  Validator.valid (Validator.validate_post_dict
           (JDict [("adaptive_evidence", JList []);
                   ("maladaptive_evidence", JList []);
                   ("summary", JStr "");
                   ("wellbeing_score", JStr "7")])
           "t1" "p1" (Validator.init [])) = false
  /\ ("t1", "p1") ∈ Validator.posts_with_issues
       (Validator.validate_post_dict
          (JDict [("adaptive_evidence", JList []);
                  ("maladaptive_evidence", JList []);
                  ("summary", JStr "");
                  ("wellbeing_score", JInt 11)])
          "t1" "p1" (Validator.init []))
  /\ Validator.validate_post_dict
       (JDict [("adaptive_evidence", JList (JStr <$> ["went for a walk"]));
               ("maladaptive_evidence", JList (JStr <$> []));
               ("summary", JStr "");
               ("wellbeing_score", JFloat (FFin (Qc_of_Z 7)))])
       "t1" "p1" (Validator.init [])
     = Validator.emit Validator.WARNING
         (Validator.ScoreIsFloat "Timeline t1, Post p1") (Validator.init []).
Proof.
  split; [|split].
  - apply (proj1 (ValidatorFacts.validate_post_dict_wellbeing_score
                    (Validator.init []) "t1" "p1" _) "7").
    reflexivity.
  - apply (proj1 (proj2 (ValidatorFacts.validate_post_dict_wellbeing_score
                           (Validator.init []) "t1" "p1" _)) 11).
    + reflexivity.
    + right. lia.
  - apply (proj2 (proj2 (ValidatorFacts.validate_post_dict_wellbeing_score
                           (Validator.init []) "t1" "p1" _))
             (Qc_of_Z 7) ["went for a walk"] [] "").
    + reflexivity.
    + reflexivity.
    + reflexivity.
    + reflexivity.
    + vm_compute. discriminate.
    + vm_compute. discriminate.
Defined.

(** An empty top-level mapping lacks every required timeline, yet none is
    recorded: the validator stops at the emptiness check. *)
Lemma validate_file_empty_mapping_counterexample :
  In "t1" (map fst [("t1", ["p1"])])
  /\ assoc "t1" ([] : list (string * json)) = None
  /\ Validator.valid (Validator.validate_file (Validator.Loaded (JDict []))
              (Validator.init [("t1", ["p1"])])) = false
  /\ Validator.timelines_with_issues
       (Validator.validate_file (Validator.Loaded (JDict []))
          (Validator.init [("t1", ["p1"])])) = ∅
  /\ "t1" ∉ Validator.timelines_with_issues
       (Validator.validate_file (Validator.Loaded (JDict []))
          (Validator.init [("t1", ["p1"])])).
Proof. split; [by left|]. compute_done. Qed.

Lemma validate_file_missing_timeline_witness :
  Validator.valid (Validator.validate_file
           (Validator.Loaded (JDict [("t2", JDict [])]))
           (Validator.init [("t1", ["p1"])])) = false
  /\ "t1" ∈ Validator.timelines_with_issues
       (Validator.validate_file
          (Validator.Loaded (JDict [("t2", JDict [])]))
          (Validator.init [("t1", ["p1"])]))
  /\ Validator.main [("t1", ["p1"])] (Validator.Loaded (JDict [("t2", JDict [])])) = 1.
Proof.
  destruct (ValidatorFacts.validate_file_missing_timeline
              [("t1", ["p1"])] [("t2", JDict [])] "t1") as (Hv & Ht & Hm & _).
  - discriminate.
  - left. reflexivity.
  - reflexivity.
  - split; [exact Hv|]. split; [exact Ht|exact Hm].
Defined.

(** * Further properties *)

(** ** The verdict of the validator *)

Module ValidatorVerdict.
Import Validator ValidatorFacts.

Lemma has_key_keys (d : list (string * json)) (k : string) :
  has_key d k = true <-> k ∈ keys d.
Proof.
  unfold has_key. destruct (assoc k d) as [x|] eqn:E.
  - split; [intros _; by eapply keys_assoc|done].
  - split; [done|]. intros H. by apply assoc_None_keys in E.
Qed.

Lemma required_keys (req : list string) (d : list (string * json)) :
  bool_decide ((list_to_set req : gset string) ∖ keys d = ∅) = forallb (has_key d) req.
Proof.
  apply eq_true_iff_eq. rewrite bool_decide_eq_true, forallb_forall.
  setoid_rewrite has_key_keys. split.
  - intros H k Hk. apply list_elem_of_In in Hk.
    destruct (decide (k ∈ keys d)) as [|Hn]; [done|]. exfalso.
    assert (k ∈ (list_to_set req : gset string) ∖ keys d) by set_solver. set_solver.
  - intros H. apply set_eq. intros k. split; [|set_solver].
    intros [Hk Hn]%elem_of_difference. apply elem_of_list_to_set, list_elem_of_In in Hk.
    by apply H in Hk.
Qed.

Lemma valid_record_issue t p v : valid (record_issue t p v) = false.
Proof. unfold record_issue. by repeat case_match. Qed.

Lemma check_type_spec value ty ctx t p v :
  fst (check_type value ty ctx t p v) = isinstance value ty
  /\ valid (snd (check_type value ty ctx t p v)) = valid v && isinstance value ty.
Proof.
  unfold check_type. destruct (isinstance value ty); simpl.
  - by rewrite andb_true_r.
  - by rewrite valid_record_issue, andb_false_r.
Qed.

Lemma check_required_fields_spec d (req : list string) ctx t p v :
  fst (check_required_fields d (list_to_set req) ctx t p v) = forallb (has_key d) req
  /\ valid (snd (check_required_fields d (list_to_set req) ctx t p v))
     = valid v && forallb (has_key d) req.
Proof.
  unfold check_required_fields. rewrite required_keys.
  destruct (forallb _ req); simpl.
  - by rewrite andb_true_r.
  - by rewrite valid_record_issue, andb_false_r.
Qed.

Lemma valid_foldl {A} (f : validator -> A -> validator) (ok : A -> bool)
    (l : list A) (v : validator) :
  (forall v a, valid (f v a) = valid v && ok a) ->
  valid (foldl f v l) = valid v && forallb ok l.
Proof.
  intros Hf. revert v. induction l as [|x l IH]; intros v; simpl.
  - by rewrite andb_true_r.
  - by rewrite IH, Hf, andb_assoc.
Qed.

Lemma valid_log_post_issue t p v : valid (log_post_issue t p v) = false.
Proof. done. Qed.

Lemma out_of_range_score_ok (score : json) :
  isinstance score TInt = true \/ isinstance score TFloat = true ->
  out_of_range score = negb (score_ok score).
Proof.
  destruct score as [|b|n|[|neg|x]|s|l|d]; simpl; intros [H|H]; try done.
  - by destruct b.
  - rewrite negb_andb. f_equal; [rewrite Z.ltb_antisym|rewrite Z.ltb_antisym]; done.
  - rewrite negb_andb. f_equal.
    + destruct (decide (x < Qc_of_Z 1)%Qc) as [Hlt|Hge].
      * rewrite bool_decide_eq_true_2, bool_decide_eq_false_2; [done| |done].
        by apply Qclt_not_le.
      * rewrite bool_decide_eq_false_2, bool_decide_eq_true_2; [done| |done].
        by apply Qcnot_lt_le.
    + destruct (decide (Qc_of_Z 10 < x)%Qc) as [Hlt|Hge].
      * rewrite bool_decide_eq_true_2, bool_decide_eq_false_2; [done| |done].
        by apply Qclt_not_le.
      * rewrite bool_decide_eq_false_2, bool_decide_eq_true_2; [done| |done].
        by apply Qcnot_lt_le.
Qed.

Lemma valid_validate_wellbeing_score score ctx t p v :
  valid (validate_wellbeing_score score ctx t p v) = valid v && score_ok score.
Proof.
  unfold validate_wellbeing_score.
  destruct score as [|b|n|x|s|l|d].
  - simpl. by rewrite andb_true_r.
  - destruct b; simpl; [by rewrite andb_true_r|by rewrite andb_false_r].
  - change (check_type (JInt n) TInt (ctx +:+ ": wellbeing_score") (Some t) (Some p) v)
      with (true, v).
    cbv beta iota zeta. cbn [negb].
    rewrite (out_of_range_score_ok (JInt n)) by by left.
    destruct (score_ok (JInt n)); simpl; [by rewrite andb_true_r|by rewrite andb_false_r].
  - rewrite (out_of_range_score_ok (JFloat x)) by by right.
    destruct (score_ok (JFloat x)); simpl; [by rewrite andb_true_r|by rewrite andb_false_r].
  - unfold check_type. change (isinstance (JStr s) TInt) with false.
    cbv beta iota zeta. cbn [negb]. by rewrite valid_record_issue, andb_false_r.
  - unfold check_type. change (isinstance (JList l) TInt) with false.
    cbv beta iota zeta. cbn [negb]. by rewrite valid_record_issue, andb_false_r.
  - unfold check_type. change (isinstance (JDict d) TInt) with false.
    cbv beta iota zeta. cbn [negb]. by rewrite valid_record_issue, andb_false_r.
Qed.

(** What [validate_evidence] accepts for a field: nothing to say when the field
    is absent, a list of strings when it is there. *)
Lemma valid_validate_evidence field d ctx t p v :
  valid (validate_evidence field d ctx t p v)
  = valid v && evidence_ok (assoc field d).
Proof.
  unfold validate_evidence, evidence_ok.
  destruct (assoc field d) as [ev|]; [|by rewrite andb_true_r].
  pose proof (check_type_spec ev TList (ctx +:+ ": " +:+ field) (Some t) (Some p) v)
    as [Hok Hvalid].
  destruct ev as [|b|n|x|s|items|d'];
    try (destruct (check_type _ TList _ _ _ v) as [ok v']; cbn [fst snd] in Hok, Hvalid;
         subst ok; simpl; rewrite Hvalid; by destruct (valid v)).
  clear Hok Hvalid.
  change (check_type (JList items) TList (ctx +:+ ": " +:+ field) (Some t) (Some p) v)
    with (true, v).
  cbv beta iota zeta.
  assert (Hpair : forall (i : nat) (x : json), snd ((fun i x => (i, x)) i x) = x) by done.
  revert Hpair. generalize (fun (i : nat) (x : json) => (i, x)). intros f Hf.
  rewrite (valid_foldl _ (fun ix => is_str (snd ix))).
  - f_equal. revert f Hf. induction items as [|x items IH]; intros f Hf; [done|].
    cbn [imap forallb]. rewrite Hf. f_equal. apply IH. intros i y. apply Hf.
  - intros v' [i x]. simpl. rewrite (proj2 (check_type_spec _ _ _ _ _ _)).
    f_equal. by destruct x.
Qed.

Lemma post_required_fields_list :
  post_required_fields
  = list_to_set ["adaptive_evidence"; "maladaptive_evidence"; "summary"; "wellbeing_score"].
Proof. unfold post_required_fields. set_solver. Qed.

(** The flag after a post record has been validated. *)
Lemma valid_validate_post_dict post_data t p v :
  valid (validate_post_dict post_data t p v) = valid v && post_ok post_data.
Proof.
  unfold validate_post_dict.
  pose proof (check_type_spec post_data TDict ("Timeline " +:+ t +:+ ", Post " +:+ p)
                (Some t) (Some p) v) as [Hok Hvalid].
  destruct (check_type post_data TDict _ _ _ v) as [ok v0]. cbn [fst snd] in Hok, Hvalid.
  subst ok.
  destruct post_data as [|b|n|x|s|l|[|kv d]];
    try (simpl; rewrite Hvalid; by destruct (valid v)).
  - simpl. by rewrite andb_false_r.
  - change (isinstance (JDict (kv :: d)) TDict) with true in *.
    rewrite andb_true_r in Hvalid. cbv beta iota zeta.
    set (fields := kv :: d).
    assert (Hfinal : forall v1 : validator,
      valid (match assoc "wellbeing_score" fields with
             | Some score =>
                 validate_wellbeing_score score ("Timeline " +:+ t +:+ ", Post " +:+ p) t p v1
             | None => v1
             end)
      = valid v1 && match assoc "wellbeing_score" fields with
                    | Some score => score_ok score
                    | None => true
                    end).
    { intros v1. destruct (assoc "wellbeing_score" fields).
      - apply valid_validate_wellbeing_score.
      - by rewrite andb_true_r. }
    rewrite Hfinal.
    assert (Hsummary : forall v1 : validator,
      valid (match assoc "summary" fields with
             | Some summary =>
                 snd (check_type summary TStr
                        (("Timeline " +:+ t +:+ ", Post " +:+ p) +:+ ": summary")
                        (Some t) (Some p) v1)
             | None => v1
             end)
      = valid v1 && match assoc "summary" fields with
                    | Some summary => is_str summary
                    | None => true
                    end).
    { intros v1. destruct (assoc "summary" fields) as [summary|].
      - rewrite (proj2 (check_type_spec _ _ _ _ _ _)). f_equal. by destruct summary.
      - by rewrite andb_true_r. }
    rewrite Hsummary, !valid_validate_evidence, post_required_fields_list.
    rewrite (proj2 (check_required_fields_spec _ _ _ _ _ _)), Hvalid.
    unfold post_ok, evidence_ok, has_key. cbn [forallb]. fold fields.
    destruct (valid v); [|done]. cbn [andb].
    destruct (assoc "adaptive_evidence" fields) as [[]|];
      destruct (assoc "maladaptive_evidence" fields) as [[]|];
      destruct (assoc "summary" fields) as [[]|];
      destruct (assoc "wellbeing_score" fields) as [|];
      cbn [andb is_str]; rewrite ?andb_true_r, ?andb_false_r; done.
Qed.

Lemma valid_foldr_issue {A} (f : A -> validator -> validator) (l : list A) v :
  (forall a v, valid (f a v) = false) ->
  l <> [] -> valid (foldr f v l) = false.
Proof. intros Hf. destruct l; [done|]. intros _. apply Hf. Qed.

Lemma mapping_check_type value ty ctx t p v :
  timeline_id_to_post_ids (snd (check_type value ty ctx t p v)) = timeline_id_to_post_ids v.
Proof. apply grows_check_type. Qed.

Lemma valid_emit_if (b : bool) l m v : valid (if b then emit l m v else v) = valid v.
Proof. by destruct b. Qed.

(** The flag after the [timeline_level] entry has been validated. *)
Lemma valid_validate_timeline_level timeline_level t v :
  valid (validate_timeline_level timeline_level t v) = valid v && timeline_level_ok timeline_level.
Proof.
  unfold validate_timeline_level.
  pose proof (check_type_spec timeline_level TDict ("Timeline " +:+ t +:+ ": timeline_level")
                (Some t) None v) as [Hok Hvalid].
  destruct (check_type timeline_level TDict _ _ _ v) as [ok v0]. cbn [fst snd] in Hok, Hvalid.
  subst ok.
  destruct timeline_level as [|b|n|x|s|l|[|kv d]];
    try (simpl; rewrite Hvalid; by destruct (valid v)).
  - simpl. by rewrite andb_false_r.
  - change (isinstance (JDict (kv :: d)) TDict) with true in *.
    rewrite andb_true_r in Hvalid. cbv beta iota zeta.
    set (fields := kv :: d).
    assert (Hreq : ({["summary"]} : gset string) = list_to_set ["summary"]) by set_solver.
    rewrite Hreq.
    pose proof (check_required_fields_spec fields ["summary"]
                  ("Timeline " +:+ t +:+ ": timeline_level") (Some t) None v0) as [Hok' Hvalid'].
    destruct (check_required_fields fields _ _ _ _ v0) as [ok v1].
    cbn [fst snd] in Hok', Hvalid'. subst ok.
    unfold timeline_level_ok, has_key in *. fold fields. cbn [forallb] in *.
    destruct (assoc "summary" fields) as [summary|]; cbn [andb] in *.
    + rewrite andb_true_r in Hvalid'.
      destruct summary as [|b|n|x|s|l|l];
        try (rewrite (proj2 (check_type_spec _ _ _ _ _ _)); simpl; by rewrite !andb_false_r).
      change (check_type (JStr s) TStr _ (Some t) None v1) with (true, v1). cbn [snd].
      rewrite andb_true_r. destruct (negb _); simpl; congruence.
    + rewrite Hvalid', Hvalid. done.
Qed.

(** The flag after the [post_level] entry has been validated. *)
Lemma valid_validate_post_level post_level t v :
  valid (validate_post_level post_level t v)
  = valid v && post_level_ok (default [] (assoc t (timeline_id_to_post_ids v))) post_level.
Proof.
  unfold validate_post_level.
  pose proof (check_type_spec post_level TDict ("Timeline " +:+ t +:+ ": post_level")
                (Some t) None v) as [Hok Hvalid].
  pose proof (mapping_check_type post_level TDict ("Timeline " +:+ t +:+ ": post_level")
                (Some t) None v) as Hmap.
  destruct (check_type post_level TDict _ _ _ v) as [ok v0].
  cbn [fst snd] in Hok, Hvalid, Hmap. subst ok.
  destruct post_level as [|b|n|x|s|l|[|kv d]];
    try (simpl; rewrite Hvalid; by destruct (valid v)).
  - simpl. by rewrite andb_false_r.
  - change (isinstance (JDict (kv :: d)) TDict) with true in *.
    rewrite andb_true_r in Hvalid. cbv beta iota zeta.
    set (posts := kv :: d). rewrite Hmap.
    set (expected := default [] (assoc t (timeline_id_to_post_ids v))).
    rewrite (valid_foldl _ (fun kv => post_ok (snd kv))).
    2:{ intros v' [post_id post_data]. apply valid_validate_post_dict. }
    unfold post_level_ok. rewrite valid_emit_if, required_keys.
    change (match posts with
            | [] => false
            | kv0 :: d' =>
                forallb (has_key (kv0 :: d')) expected
                && forallb (fun kv1 : string * json => post_ok (snd kv1)) (kv0 :: d')
            end)
      with (forallb (has_key posts) expected
            && forallb (fun kv1 : string * json => post_ok (snd kv1)) posts).
    destruct (forallb (has_key posts) expected) eqn:E; cbn [negb andb].
    + by rewrite Hvalid.
    + rewrite andb_false_r, valid_foldr_issue; [done..|].
      intros Hnil%elements_empty_inv. apply leibniz_equiv in Hnil.
      rewrite <- required_keys in E. by rewrite Hnil, bool_decide_eq_false in E.
Qed.

(** The flag after one timeline has been validated. *)
Lemma valid_validate_timeline_dict timeline_data t v :
  valid (validate_timeline_dict timeline_data t v)
  = valid v && timeline_ok (timeline_id_to_post_ids v) t timeline_data.
Proof.
  unfold validate_timeline_dict.
  pose proof (check_type_spec timeline_data TDict ("Timeline " +:+ t) (Some t) None v)
    as [Hok Hvalid].
  pose proof (mapping_check_type timeline_data TDict ("Timeline " +:+ t) (Some t) None v)
    as Hmap.
  destruct (check_type timeline_data TDict _ _ _ v) as [ok v0].
  cbn [fst snd] in Hok, Hvalid, Hmap. subst ok.
  destruct timeline_data as [|b|n|x|s|l|[|kv d]];
    try (simpl; rewrite Hvalid; by destruct (valid v)).
  - simpl. by rewrite andb_false_r.
  - change (isinstance (JDict (kv :: d)) TDict) with true in *.
    rewrite andb_true_r in Hvalid. cbv beta iota zeta.
    set (fields := kv :: d).
    assert (Hreq : ({["timeline_level"; "post_level"]} : gset string)
                   = list_to_set ["timeline_level"; "post_level"]) by set_solver.
    rewrite Hreq.
    pose proof (check_required_fields_spec fields ["timeline_level"; "post_level"]
                  ("Timeline " +:+ t) (Some t) None v0) as [_ Hvalid1].
    pose proof (grows_check_required_fields fields
                  (list_to_set ["timeline_level"; "post_level"])
                  ("Timeline " +:+ t) (Some t) None v0) as (_ & _ & _ & Hmap1).
    set (v1 := snd (check_required_fields fields _ _ _ _ v0)) in *.
    unfold timeline_ok, has_key in *. fold fields. cbn [forallb] in Hvalid1.
    destruct (assoc "timeline_level" fields) as [tl|].
    + pose proof (valid_validate_timeline_level tl t v1) as Hvalid2.
      pose proof (grows_validate_timeline_level tl t v1) as (_ & _ & _ & Hmap2).
      set (v2 := validate_timeline_level tl t v1) in *.
      destruct (assoc "post_level" fields) as [pl|].
      * rewrite valid_validate_post_level, Hvalid2, Hvalid1, Hvalid, Hmap2, Hmap1, Hmap.
        cbn [andb]. by rewrite !andb_true_r, andb_assoc.
      * rewrite Hvalid2, Hvalid1. cbn [andb]. by rewrite !andb_false_r.
    + destruct (assoc "post_level" fields) as [pl|].
      * rewrite valid_validate_post_level, Hvalid1. cbn [andb].
        by rewrite !andb_false_r.
      * rewrite Hvalid1. cbn [andb]. by rewrite !andb_false_r.
Qed.

(** The flag after every timeline of the file has been validated. *)
Lemma valid_validate_timelines d v :
  valid (validate_timelines d v)
  = valid v && forallb (fun kv => timeline_ok (timeline_id_to_post_ids v) (fst kv) (snd kv)) d.
Proof.
  unfold validate_timelines. revert v. induction d as [|[t data] d IH]; intros v.
  - simpl. by rewrite andb_true_r.
  - cbn [foldl forallb fst snd]. rewrite IH, valid_validate_timeline_dict.
    pose proof (grows_validate_timeline_dict data t (emit INFO (ValidatingTimeline t) v))
      as (_ & _ & _ & Hmap).
    rewrite Hmap. cbn [emit timeline_id_to_post_ids valid]. by rewrite andb_assoc.
Qed.

Lemma valid_check_missing_timelines (expected : list string) d v :
  valid (check_missing_timelines (list_to_set expected) (keys d) v)
  = valid v && forallb (has_key d) expected.
Proof.
  unfold check_missing_timelines. rewrite required_keys.
  destruct (forallb (has_key d) expected) eqn:E; cbn [negb].
  - by rewrite andb_true_r.
  - rewrite andb_false_r. apply valid_foldr_issue; [done|].
    intros Hnil%elements_empty_inv. apply leibniz_equiv in Hnil.
    rewrite <- required_keys in E. by rewrite Hnil, bool_decide_eq_false in E.
Qed.

Lemma mapping_check_missing_timelines expected actual v :
  timeline_id_to_post_ids (check_missing_timelines expected actual v)
  = timeline_id_to_post_ids v.
Proof.
  unfold check_missing_timelines. destruct (negb _); [|done].
  induction (elements (expected ∖ actual)) as [|t l IH]; [done|]. exact IH.
Qed.

Lemma valid_report v : valid (report v) = valid v.
Proof. unfold report. by destruct (valid v) eqn:E. Qed.

(** The flag after a parsed file has been validated, from any starting state. *)
Lemma valid_validate_file data v :
  valid (validate_file (Loaded data) v)
  = valid v && submission_ok (timeline_id_to_post_ids v) data.
Proof.
  destruct data as [|b|n|x|s|l|[|kv d]];
    try (unfold validate_file; cbn [truthy negb]; try case_match;
         cbn; by rewrite ?valid_record_issue, ?andb_false_r).
  rewrite validate_file_loaded_dict, valid_report, valid_validate_timelines.
  unfold check_unexpected_timelines. rewrite valid_emit_if.
  rewrite valid_check_missing_timelines. cbn [emit valid].
  assert (Hmap : forall (b : bool) l m w, timeline_id_to_post_ids (if b then emit l m w else w)
                         = timeline_id_to_post_ids w) by (by intros []).
  rewrite Hmap, mapping_check_missing_timelines. cbn [emit timeline_id_to_post_ids].
  unfold submission_ok. by rewrite andb_assoc.
Qed.

(** X1. [validate_file] on a parsed file, from a fresh validator: the file
    is declared valid exactly when it is a non-empty mapping that has every
    timeline of the mapping file and whose timelines are all well formed
    ([submission_ok]); timelines the mapping file does not list only give a
    warning, yet are checked like the others.  A wellbeing score passes when
    it is null, an integer or a float from 1 to 10, [true], or the float
    not-a-number, which the range check lets through ([score_ok]). *)
Theorem validate_file_verdict (mapping : list (string * list string)) (data : json) :
  valid (validate_file (Loaded data) (init mapping)) = submission_ok mapping data.
Proof. by rewrite valid_validate_file. Qed.

(** The wellbeing scores that pass. *)
Lemma score_ok_cases (score : json) :
  score_ok score = true
  <-> score = JNull
      \/ score = JBool true
      \/ (exists n, score = JInt n /\ 1 <= n <= 10)
      \/ (exists x, score = JFloat (FFin x) /\ (Qc_of_Z 1 <= x)%Qc /\ (x <= Qc_of_Z 10)%Qc)
      \/ score = JFloat FNaN.
Proof.
  destruct score as [|b|n|[|neg|x]|s|l|d]; simpl.
  - split; [by left|done].
  - split; [intros ->; right; by left|].
    intros [|[[= ->]|[(n & ? & _)|[(x & ? & _)|]]]]; done.
  - split.
    + intros [H1 H2]%andb_prop. right. right. left. exists n. split; [done|lia].
    + intros [|[|[(m & [= <-] & Hm)|[(x & ? & _)|]]]]; try done.
      apply andb_true_iff. split; lia.
  - split; [intros _; by repeat right|done].
  - split; [done|]. intros [|[|[(m & ? & _)|[(x & ? & _)|]]]]; done.
  - split.
    + intros [H1 H2]%andb_prop. apply bool_decide_eq_true in H1, H2.
      right. right. right. left. by exists x.
    + intros [|[|[(m & ? & _)|[(y & [= <-] & H1 & H2)|]]]]; try done.
      by rewrite !bool_decide_eq_true_2.
  - split; [done|]. intros [|[|[(m & ? & _)|[(x & ? & _)|]]]]; done.
  - split; [done|]. intros [|[|[(m & ? & _)|[(x & ? & _)|]]]]; done.
  - split; [done|]. intros [|[|[(m & ? & _)|[(x & ? & _)|]]]]; done.
Qed.

(** X3. [validate_post_dict] on a validator that is still valid: the post
    passes exactly when it is a mapping whose two evidence fields are lists of
    strings, whose summary is a string and whose wellbeing score is null, an
    integer or a float from 1 to 10, [true] (the integer 1), or the float
    not-a-number, for which neither comparison of the range check holds. *)
Theorem validate_post_dict_accepts (v : validator) (t p : string) (post_data : json) :
  valid v = true ->
  (valid (validate_post_dict post_data t p v) = true
   <-> exists d adaptive maladaptive summary score,
         post_data = JDict d
         /\ assoc "adaptive_evidence" d = Some (JList adaptive)
         /\ forallb is_str adaptive = true
         /\ assoc "maladaptive_evidence" d = Some (JList maladaptive)
         /\ forallb is_str maladaptive = true
         /\ assoc "summary" d = Some (JStr summary)
         /\ assoc "wellbeing_score" d = Some score
         /\ (score = JNull
             \/ score = JBool true
             \/ (exists n, score = JInt n /\ 1 <= n <= 10)
             \/ (exists x, score = JFloat (FFin x)
                           /\ (Qc_of_Z 1 <= x)%Qc /\ (x <= Qc_of_Z 10)%Qc)
             \/ score = JFloat FNaN)).
Proof.
  intros Hv. rewrite valid_validate_post_dict, Hv. cbn [andb]. unfold post_ok. split.
  - intros H. destruct post_data as [| | | | | |d]; try done.
    destruct (assoc "adaptive_evidence" d) as [[| | | | |adaptive|]|] eqn:Ea; try done.
    destruct (assoc "maladaptive_evidence" d) as [[| | | | |maladaptive|]|] eqn:Em;
      try done.
    destruct (assoc "summary" d) as [[| | | |summary| |]|] eqn:Es; try done.
    destruct (assoc "wellbeing_score" d) as [score|] eqn:Ew; try done.
    apply andb_prop in H as [[Ha Hm]%andb_prop Hs].
    exists d, adaptive, maladaptive, summary, score.
    apply score_ok_cases in Hs.
    repeat split; first [reflexivity|assumption].
  - intros (d & adaptive & maladaptive & summary & score
            & -> & -> & Ha & -> & Hm & -> & -> & Hs).
    apply score_ok_cases in Hs. by rewrite Ha, Hm, Hs.
Qed.

Lemma validate_post_dict_accepts_witness :
  let post score := JDict [("adaptive_evidence", JList [JStr "I went for a walk"]);
                           ("maladaptive_evidence", JList []);
                           ("summary", JStr "A calm day.");
                           ("wellbeing_score", score)] in
  valid (init []) = true
  /\ valid (validate_post_dict (post (JInt 7)) "t1" "p1" (init [])) = true
  /\ valid (validate_post_dict (post (JFloat FNaN)) "t1" "p1" (init [])) = true.
Proof.
  split; [reflexivity|]. split.
  - apply (validate_post_dict_accepts (init []) "t1" "p1"); [reflexivity|].
    eexists _, _, _, _, _. repeat split; try reflexivity.
    right. right. left. exists 7. split; [reflexivity|lia].
  - apply (validate_post_dict_accepts (init []) "t1" "p1"); [reflexivity|].
    eexists _, _, _, _, _. repeat split; try reflexivity.
    by repeat right.
Defined.

End ValidatorVerdict.

(** ** What the validator does to its state *)

Module ValidatorTrace.
Import Validator.

Lemma steps_refl v : steps v v.
Proof. apply rtc_refl. Qed.

Lemma steps_trans v1 v2 v3 : steps v1 v2 -> steps v2 v3 -> steps v1 v3.
Proof. intros. by etrans. Qed.

Lemma steps_emit l m v : steps v (emit l m v).
Proof. apply rtc_once, step_emit. Qed.

Lemma steps_set_valid_false v : steps v (set_valid false v).
Proof. apply rtc_once, step_invalid. Qed.

Lemma steps_log_timeline_issue t v : steps v (log_timeline_issue t v).
Proof. apply rtc_once, step_timeline_issue. Qed.

Lemma steps_log_post_issue t p v : steps v (log_post_issue t p v).
Proof. apply rtc_once, step_post_issue. Qed.

Lemma steps_record_issue t p v : steps v (record_issue t p v).
Proof.
  unfold record_issue. destruct t as [t|], p as [p|];
    repeat case_match;
    auto using steps_log_post_issue, steps_log_timeline_issue, steps_set_valid_false.
Qed.

Lemma steps_check_type value ty ctx t p v :
  steps v (snd (check_type value ty ctx t p v)).
Proof.
  unfold check_type. destruct (negb _); simpl; [|apply steps_refl].
  eapply steps_trans; [apply steps_emit|apply steps_record_issue].
Qed.

Lemma steps_check_required_fields data req ctx t p v :
  steps v (snd (check_required_fields data req ctx t p v)).
Proof.
  unfold check_required_fields. destruct (negb _); simpl; [|apply steps_refl].
  eapply steps_trans; [apply steps_emit|apply steps_record_issue].
Qed.

Lemma steps_foldl {A} (f : validator -> A -> validator) (l : list A) v :
  (forall v a, steps v (f v a)) -> steps v (foldl f v l).
Proof.
  intros Hf. revert v. induction l as [|x l IH]; intros v; simpl; [apply steps_refl|].
  eapply steps_trans; [apply Hf|apply IH].
Qed.

Lemma steps_foldr {A} (f : A -> validator -> validator) (l : list A) v :
  (forall a v, steps v (f a v)) -> steps v (foldr f v l).
Proof.
  intros Hf. induction l as [|x l IH]; simpl; [apply steps_refl|].
  eapply steps_trans; [apply IH|apply Hf].
Qed.

Lemma steps_if (b : bool) v v1 v2 : steps v v1 -> steps v v2 -> steps v (if b then v1 else v2).
Proof. by destruct b. Qed.

(** Name the state left by a check and record how it was reached. *)
Ltac traced E H :=
  match goal with
  | |- context [check_type ?a ?b ?c ?d ?e ?v] =>
      pose proof (steps_check_type a b c d e v) as H;
      destruct (check_type a b c d e v) as [? ?] eqn:E; simpl in H
  | |- context [check_required_fields ?a ?b ?c ?d ?e ?v] =>
      pose proof (steps_check_required_fields a b c d e v) as H;
      destruct (check_required_fields a b c d e v) as [? ?] eqn:E; simpl in H
  end.

Lemma steps_validate_wellbeing_score score ctx t p v :
  steps v (validate_wellbeing_score score ctx t p v).
Proof.
  unfold validate_wellbeing_score.
  destruct score; try (traced E H; destruct (negb _); [done|]);
    repeat case_match;
    eauto using steps_refl, steps_trans, steps_emit, steps_log_post_issue.
Qed.

Lemma steps_validate_evidence field data ctx t p v :
  steps v (validate_evidence field data ctx t p v).
Proof.
  unfold validate_evidence. destruct (assoc field data) as [ev|]; [|apply steps_refl].
  traced E H. repeat case_match; try done.
  eapply steps_trans; [exact H|]. apply steps_foldl.
  intros v' [i x]. apply steps_check_type.
Qed.

(** Peel the calls of a method from the outside in. *)
Ltac steps_chain :=
  repeat first
    [ assumption
    | apply steps_refl
    | eapply steps_trans;
      [|first [ apply steps_validate_wellbeing_score
              | apply steps_validate_evidence
              | apply steps_check_type
              | apply steps_check_required_fields
              | apply steps_emit
              | apply steps_set_valid_false
              | apply steps_log_post_issue
              | apply steps_log_timeline_issue ]] ].

Lemma steps_validate_post_dict post_data t p v :
  steps v (validate_post_dict post_data t p v).
Proof.
  unfold validate_post_dict. traced E H.
  repeat case_match; try done; subst; steps_chain.
Qed.

Lemma steps_validate_post_level post_level t v :
  steps v (validate_post_level post_level t v).
Proof.
  unfold validate_post_level. traced E H.
  repeat case_match; try done; subst; try solve [steps_chain];
    (eapply steps_trans; [|apply steps_foldl; intros ? [? ?]; apply steps_validate_post_dict]);
    try (eapply steps_trans; [|apply steps_emit]);
    try (eapply steps_trans; [|apply steps_foldr; intros; apply steps_log_post_issue]);
    steps_chain.
Qed.

Lemma steps_validate_timeline_level timeline_level t v :
  steps v (validate_timeline_level timeline_level t v).
Proof.
  unfold validate_timeline_level. traced E H.
  destruct b; [|done]. destruct timeline_level as [| | | | | |[|kv d]]; try done.
  - steps_chain.
  - traced E' H'. assert (steps v v1) by by eapply steps_trans.
    repeat case_match; try done; subst; steps_chain.
Qed.

Lemma steps_validate_timeline_dict timeline_data t v :
  steps v (validate_timeline_dict timeline_data t v).
Proof.
  unfold validate_timeline_dict. traced E H.
  repeat case_match; try done; subst; try solve [steps_chain];
    try (eapply steps_trans; [|apply steps_validate_post_level]);
    try (eapply steps_trans; [|apply steps_validate_timeline_level]);
    steps_chain.
Qed.

Lemma steps_check_missing_timelines expected actual v :
  steps v (check_missing_timelines expected actual v).
Proof.
  unfold check_missing_timelines. apply steps_if; [|apply steps_refl].
  eapply steps_trans; [|apply steps_foldr; intros; apply steps_log_timeline_issue].
  steps_chain.
Qed.

Lemma steps_check_unexpected_timelines expected actual v :
  steps v (check_unexpected_timelines expected actual v).
Proof.
  unfold check_unexpected_timelines. apply steps_if; [apply steps_emit|apply steps_refl].
Qed.

Lemma steps_validate_timelines d v : steps v (validate_timelines d v).
Proof.
  unfold validate_timelines. apply steps_foldl. intros v' [t data].
  eapply steps_trans; [apply steps_emit|apply steps_validate_timeline_dict].
Qed.

Lemma steps_report v : steps v (report v).
Proof. unfold report. apply steps_if; apply steps_emit. Qed.

Lemma steps_validate_file file v : steps v (validate_file file v).
Proof.
  destruct file as [| | |data]; [unfold validate_file; steps_chain..|].
  assert (Hearly : steps v (set_valid false
                              (emit ERROR JSONIsEmpty (emit INFO ValidatingFile v))))
    by steps_chain.
  assert (Hcheck : forall data,
             steps v (snd (check_type data TDict "Submission file" None None
                             (emit INFO ValidatingFile v))))
    by (intros; eapply steps_trans; [apply steps_emit|apply steps_check_type]).
  destruct data as [|b|n|x|s|l|[|kv d]];
    try (unfold validate_file; apply steps_if; [exact Hearly|];
         match goal with
         | |- context [check_type ?a _ _ _ _ _] =>
             specialize (Hcheck a); by destruct (check_type a _ _ _ _ _) as [[] ?]
         end).
  { exact Hearly. }
  rewrite ValidatorFacts.validate_file_loaded_dict. cbv zeta.
  eapply steps_trans; [|apply steps_report].
  eapply steps_trans; [|apply steps_validate_timelines].
  eapply steps_trans; [|apply steps_check_unexpected_timelines].
  eapply steps_trans; [|apply steps_check_missing_timelines].
  apply steps_emit.
Qed.

(** *** Invariants of the steps *)

Lemma consistent_step v v' : step v v' -> consistent v -> consistent v'.
Proof.
  intros Hstep [Hvalid Hposts]. destruct Hstep; split; simpl; try done.
  - intros t' p' H. apply Hposts in H. set_solver.
  - intros t' p' [H|H]%elem_of_union.
    + apply elem_of_singleton in H. injection H as -> ->. set_solver.
    + apply Hposts in H. set_solver.
Qed.

Lemma consistent_steps v v' : steps v v' -> consistent v -> consistent v'.
Proof. induction 1; eauto using consistent_step. Qed.

Lemma consistent_init mapping : consistent (init mapping).
Proof. split; [done|]. simpl. set_solver. Qed.

Lemma logged_steps v v' : steps v v' -> logged v `prefix_of` logged v'.
Proof.
  induction 1 as [|v1 v2 v3 Hstep _ IH]; [done|].
  etrans; [|exact IH]. destruct Hstep; simpl; try done. by apply prefix_app_r.
Qed.

Lemma only_adds_steps v v' :
  steps v v' ->
  timeline_id_to_post_ids v' = timeline_id_to_post_ids v
  /\ timelines_with_issues v ⊆ timelines_with_issues v'
  /\ posts_with_issues v ⊆ posts_with_issues v'
  /\ (valid v = false -> valid v' = false).
Proof.
  induction 1 as [|v1 v2 v3 Hstep _ (IH1 & IH2 & IH3 & IH4)]; [done|].
  destruct Hstep; simpl in *; repeat split; auto; set_solver.
Qed.

(** X4. Whatever the file, the state [validate_file] leaves is coherent:
    if the file is declared valid no timeline and no post is recorded as
    having an issue, and every post recorded has its timeline recorded. *)
Theorem validate_file_consistent (mapping : list (string * list string))
    (file : file_contents) :
  let v := validate_file file (init mapping) in
  (valid v = true -> timelines_with_issues v = ∅ /\ posts_with_issues v = ∅)
  /\ (forall t p, (t, p) ∈ posts_with_issues v -> t ∈ timelines_with_issues v).
Proof.
  intros v.
  destruct (consistent_steps (init mapping) v) as [Hvalid Hposts];
    [apply steps_validate_file|apply consistent_init|].
  split; [|done]. intros Hv. specialize (Hvalid Hv). split; [done|].
  apply set_eq. intros [t p]. split; [|set_solver].
  intros H%Hposts. set_solver.
Qed.

(** X5. [validate_file] only adds to the state it is given: the mapping
    is not touched, messages are appended to the log, the two issue sets only
    gain members and a validator that was invalid stays invalid. *)
Theorem validate_file_only_adds (file : file_contents) (v : validator) :
  let v' := validate_file file v in
  timeline_id_to_post_ids v' = timeline_id_to_post_ids v
  /\ logged v `prefix_of` logged v'
  /\ timelines_with_issues v ⊆ timelines_with_issues v'
  /\ posts_with_issues v ⊆ posts_with_issues v'
  /\ (valid v = false -> valid v' = false).
Proof.
  intros v'. pose proof (steps_validate_file file v) as Hsteps.
  destruct (only_adds_steps _ _ Hsteps) as (H1 & H2 & H3 & H4).
  repeat split; try done. by apply logged_steps.
Qed.

(** X6. A file that cannot be read or parsed, or whose content is not a
    non-empty mapping, is declared invalid without any timeline or post being
    recorded. *)
Theorem validate_file_rejects_without_issues (file : file_contents) (v : validator) :
  (forall kv d, file <> Loaded (JDict (kv :: d))) ->
  let v' := validate_file file v in
  valid v' = false
  /\ timelines_with_issues v' = timelines_with_issues v
  /\ posts_with_issues v' = posts_with_issues v.
Proof.
  intros Hfile. destruct file as [| | |data]; [done..|].
  assert (Hroot : forall w, isinstance data TDict = false ->
            check_type data TDict "Submission file" None None w
            = (false, set_valid false
                        (emit ERROR (Expected "Submission file" (type_name TDict)
                                       (type_name (type_of data))) w))).
  { intros w Hty. unfold check_type. by rewrite Hty. }
  destruct data as [|b|n|x|s|l|[|kv d]];
    try (unfold validate_file; rewrite Hroot by done;
         by destruct (negb (truthy _))).
  - done.
  - by destruct (Hfile kv d).
Qed.

Lemma validate_file_rejects_without_issues_witness :
  let v' := validate_file (Loaded (JList [JInt 1])) (init [("t1", ["p1"])]) in
  valid v' = false /\ timelines_with_issues v' = ∅ /\ posts_with_issues v' = ∅.
Proof.
  apply (validate_file_rejects_without_issues (Loaded (JList [JInt 1]))
           (init [("t1", ["p1"])])).
  intros kv d. discriminate.
Defined.

End ValidatorTrace.

(** ** From the validator to the aggregator *)

Lemma assoc_In {A} (k : string) (d : list (string * A)) (x : A) :
  assoc k d = Some x -> In (k, x) d.
Proof.
  induction d as [|[k' y] d IH]; simpl; [done|].
  destruct (String.eqb k k') eqn:E.
  - intros [= ->]. apply String.eqb_eq in E as ->. by left.
  - intros H. right. by apply IH.
Qed.

Lemma mapM_total {A B} (f : A -> result B) (l : list A) :
  (forall x, In x l -> is_Ok (f x)) -> exists r, mapM f l = Ok r /\ length r = length l.
Proof.
  induction l as [|x l IH]; intros Hf; simpl; [by exists []|].
  destruct (Hf x) as [y ->]; [by left|]. cbn [bind].
  destruct IH as (ys & -> & Hlen); [intros; apply Hf; by right|].
  exists (y :: ys). simpl. by rewrite Hlen.
Qed.

Lemma mapM_In {A B} (f : A -> result B) (l : list A) (r : list B) (x : A) (y : B) :
  mapM f l = Ok r -> In x l -> f x = Ok y -> In y r.
Proof.
  revert r. induction l as [|a l IH]; intros r; simpl; [done|].
  destruct (f a) as [b|] eqn:Ea; [|done]. cbn [bind].
  destruct (mapM f l) as [bs|]; [|done]. cbn [bind]. intros [= <-] [->|Hin] Hx.
  - left. congruence.
  - right. by apply IH.
Qed.

Lemma annotated_nonempty (y_trues : list (option Z)) (y_preds : list (option num)) :
  length y_trues = length y_preds ->
  (exists w, In (Some w) y_trues) ->
  WellbeingScorer.annotated y_trues y_preds <> [].
Proof.
  revert y_preds. induction y_trues as [|t y_trues IH]; intros [|q y_preds] Hlen [w Hw];
    try done.
  simpl in Hlen. destruct t as [t|]; [done|]. simpl.
  destruct Hw as [|Hw]; [done|]. apply IH; [lia|by exists w].
Qed.

Section SpanTotal.
Variable tokenizer : string -> list Z.
Variable bertscore_F : string -> string -> Qc.
Hypothesis special_tokens : forall s, (2 <= length (tokenizer s))%nat.

(** On predicted spans that are strings the span scorer returns. *)
Lemma compute_span_metrics_strings (gold_spans spans : list string) :
  is_Ok (SpanScorer.compute_span_metrics tokenizer bertscore_F gold_spans (JStr <$> spans)).
Proof.
  unfold SpanScorer.compute_span_metrics. rewrite strip_spans_strings. cbn [bind].
  destruct (strip_nonempty spans) as [|pred0 preds] eqn:E; [by eexists|].
  unfold SpanScorer.span_weight.
  pose proof (num_spans_tokens_nonneg tokenizer (strip_nonempty gold_spans) special_tokens).
  destruct (_ <? _) eqn:Hlt; [|by eexists].
  apply Z.ltb_lt in Hlt. destruct (_ =? _) eqn:Hz; [|by eexists].
  apply Z.eqb_eq in Hz. lia.
Qed.
End SpanTotal.

Module AcceptedSubmission.
Import Run Validator.

Lemma has_key_assoc (d : list (string * json)) (k : string) :
  has_key d k = true -> exists x, assoc k d = Some x.
Proof. unfold has_key. destruct (assoc k d) as [x|]; [by exists x|done]. Qed.

Lemma forallb_is_str (l : list json) :
  forallb is_str l = true -> exists spans, l = JStr <$> spans.
Proof.
  induction l as [|x l IH]; simpl; [by exists []|].
  intros [Hx Hl]%andb_prop. destruct x as [| | | |s| |]; try done.
  destruct (IH Hl) as [spans ->]. by exists (s :: spans).
Qed.

Lemma post_ok_inv (post : json) :
  post_ok post = true ->
  exists d adaptive maladaptive summary score,
    post = JDict d
    /\ assoc "adaptive_evidence" d = Some (JList (JStr <$> adaptive))
    /\ assoc "maladaptive_evidence" d = Some (JList (JStr <$> maladaptive))
    /\ assoc "summary" d = Some (JStr summary)
    /\ assoc "wellbeing_score" d = Some score
    /\ score_ok score = true.
Proof.
  unfold post_ok. intros H. destruct post as [| | | | | |d]; try done.
  destruct (assoc "adaptive_evidence" d) as [[| | | | |adaptive|]|] eqn:Ea; try done.
  destruct (assoc "maladaptive_evidence" d) as [[| | | | |maladaptive|]|] eqn:Em;
    try done.
  destruct (assoc "summary" d) as [[| | | |summary| |]|] eqn:Es; try done.
  destruct (assoc "wellbeing_score" d) as [score|] eqn:Ew; try done.
  apply andb_prop in H as [[Ha Hm]%andb_prop Hs].
  destruct (forallb_is_str _ Ha) as [a ->]. destruct (forallb_is_str _ Hm) as [m ->].
  by exists d, a, m, summary, score.
Qed.

(** What an accepted submission holds for a timeline of the mapping. *)
Lemma submission_ok_timeline mapping data t posts :
  submission_ok mapping data = true ->
  assoc t mapping = Some posts ->
  exists d fields tl summary pl,
    data = JDict d
    /\ assoc t d = Some (JDict fields)
    /\ assoc "timeline_level" fields = Some (JDict tl)
    /\ assoc "summary" tl = Some (JStr summary)
    /\ assoc "post_level" fields = Some (JDict pl)
    /\ (forall p, In p posts ->
                  exists post, assoc p pl = Some post /\ post_ok post = true).
Proof.
  intros Hok Hmap. unfold submission_ok in Hok.
  destruct data as [| | | | | |[|kv d']]; try done. set (d := kv :: d') in *.
  apply andb_prop in Hok as [Hkeys Hall].
  rewrite forallb_forall in Hkeys, Hall.
  destruct (has_key_assoc d t) as [tdata Ht].
  { apply Hkeys. apply assoc_In in Hmap. by apply (in_map fst) in Hmap. }
  pose proof (Hall _ (assoc_In _ _ _ Ht)) as Htl. cbn [fst snd] in Htl.
  unfold timeline_ok in Htl. rewrite Hmap in Htl. cbn [default] in Htl.
  destruct tdata as [| | | | | |fields]; try done.
  destruct (assoc "timeline_level" fields) as [tl|] eqn:Etl; [|done].
  destruct (assoc "post_level" fields) as [pl|] eqn:Epl; [|done].
  apply andb_prop in Htl as [Htl Hpl].
  unfold timeline_level_ok in Htl. destruct tl as [| | | | | |tl]; try done.
  destruct (assoc "summary" tl) as [[| | | |summary| |]|] eqn:Es; try done.
  unfold post_level_ok in Hpl. destruct pl as [| | | | | |[|kv' pl']]; try done.
  set (pl := kv' :: pl') in *. apply andb_prop in Hpl as [Hposts Hrecords].
  rewrite forallb_forall in Hposts, Hrecords.
  exists d, fields, tl, summary, pl. repeat split; try done.
  intros p Hp. destruct (has_key_assoc pl p (Hposts p Hp)) as [post Hpost].
  exists post. split; [done|]. exact (Hrecords _ (assoc_In _ _ _ Hpost)).
Qed.

Lemma Qc_trunc_bounds (x : Qc) (lo hi : Z) :
  0 <= lo -> (Qc_of_Z lo <= x)%Qc -> (x <= Qc_of_Z hi)%Qc -> lo <= Qc_trunc x <= hi.
Proof.
  intros Hlo H1 H2. unfold Qcle, Qle in *. simpl in *. unfold Qc_trunc.
  assert (Hnum : 0 <= Qnum x) by nia.
  rewrite Z.quot_div_nonneg by lia.
  split; [apply Z.div_le_lower_bound|apply Z.div_le_upper_bound]; lia.
Qed.

(** A score that the validator accepts is normalized without an error, and
    unless it is not-a-number it is null or between 1 and 10. *)
Lemma normalize_score_ok (score : json) :
  score_ok score = true ->
  exists w, normalize_wellbeing_score score = Ok w
            /\ (score <> JFloat FNaN -> in_bounds w).
Proof.
  destruct score as [|b|n|[|neg|x]|s|l|d]; simpl; try done.
  - intros _. by exists None.
  - intros ->. exists (Some (NBool true)). split; [done|]. intros _. by exists 1.
  - intros [H1 H2]%andb_prop. exists (Some (NInt n)). split; [done|].
    intros _. exists n. split; [done|lia].
  - intros _. by exists (Some (NFloat FNaN)).
  - intros [H1 H2]%andb_prop. apply bool_decide_eq_true in H1, H2.
    exists (Some (NFloat (FFin x))). split; [done|]. intros _.
    exists (Qc_trunc x). split; [done|]. by apply Qc_trunc_bounds.
Qed.

Lemma post_record_accepted d fields pl t p post :
  assoc t d = Some (JDict fields) ->
  assoc "post_level" fields = Some (JDict pl) ->
  assoc p pl = Some post ->
  post_record (JDict d) t p = Ok post.
Proof.
  intros Ht Hpl Hp. unfold post_record. cbn [getitem]. rewrite Ht. cbn [bind getitem].
  rewrite Hpl. cbn [bind getitem]. by rewrite Hp.
Qed.

Section Aggregator.
Variable sent_tokenize : string -> list string.
Variable tokenizer : string -> list Z.
Variable bertscore_F : string -> string -> Qc.
Variable nli : string -> string -> NLIScorer.prediction.
Hypothesis special_tokens : forall s, (2 <= length (tokenizer s))%nat.

(** One iteration of the loop, on a post the validator accepted. *)
Lemma collect_post_accepted d fields pl t p post acc n :
  assoc t d = Some (JDict fields) ->
  assoc "post_level" fields = Some (JDict pl) ->
  assoc p pl = Some post ->
  post_ok post = true ->
  collected n acc ->
  exists acc', collect_post sent_tokenize (JDict d) t acc p = Ok acc'
               /\ collected (S n) acc'.
Proof.
  intros Ht Hpl Hp Hpost ([a Ha] & [m Hm] & Hw & Hs).
  destruct (post_ok_inv _ Hpost)
    as (pd & adaptive & maladaptive & summary & score & -> & Ea & Em & Es & Ew & Hscore).
  destruct (normalize_score_ok _ Hscore) as (w & Hnorm & _).
  rewrite (RunFacts.collect_post_fields sent_tokenize (JDict d) t acc p pd)
    by by eapply post_record_accepted.
  rewrite Ea, Em, Es, Ew. cbn [default from_option id iter_items bind split_sents].
  rewrite Hnorm. cbn [bind].
  eexists. split; [reflexivity|]. unfold collected. cbn. repeat split.
  - exists (a ++ adaptive). by rewrite Ha, fmap_app.
  - exists (m ++ maladaptive). by rewrite Hm, fmap_app.
  - rewrite length_app. simpl. lia.
  - rewrite length_app. simpl. lia.
Qed.

(** The loop over the posts of a timeline. *)
Lemma collect_posts_accepted d fields pl t (posts : list string) :
  assoc t d = Some (JDict fields) ->
  assoc "post_level" fields = Some (JDict pl) ->
  (forall p, In p posts -> exists post, assoc p pl = Some post /\ post_ok post = true) ->
  forall acc n, collected n acc ->
  exists preds, foldM (collect_post sent_tokenize (JDict d) t) posts acc = Ok preds
                /\ collected (n + length posts) preds.
Proof.
  intros Ht Hpl. induction posts as [|p posts IH]; intros Hposts acc n Hacc.
  - exists acc. split; [done|]. by rewrite Nat.add_0_r.
  - destruct (Hposts p) as (post & Hp & Hok); [by left|].
    destruct (collect_post_accepted d fields pl t p post acc n) as (acc' & E & Hacc');
      try done.
    cbn [foldM]. rewrite E. cbn [bind].
    destruct (IH (fun q Hq => Hposts q (or_intror Hq)) acc' (S n) Hacc')
      as (preds & -> & Hpreds).
    exists preds. split; [done|]. simpl. by rewrite Nat.add_succ_r.
Qed.

Lemma collected_no_predictions : collected 0 no_predictions.
Proof. repeat split; by exists []. Qed.

Lemma task_A1_collected gold preds n :
  collected n preds -> is_Ok (task_A1 tokenizer bertscore_F gold preds).
Proof.
  intros ([a Ha] & [m Hm] & _). unfold task_A1. rewrite Ha, Hm.
  destruct (compute_span_metrics_strings tokenizer bertscore_F special_tokens
              (adaptive_spans (timeline_level gold)) a) as [ra ->].
  destruct (compute_span_metrics_strings tokenizer bertscore_F special_tokens
              (maladaptive_spans (timeline_level gold)) m) as [rm ->].
  by eexists.
Qed.

Lemma gold_lookup_complete gold :
  gold_complete gold ->
  exists gold_posts,
    mapM (gold_lookup gold) (post_ids (timeline_level gold)) = Ok gold_posts
    /\ length gold_posts = length (post_ids (timeline_level gold)).
Proof.
  intros Hgold. apply mapM_total. intros p Hp. destruct (Hgold p Hp) as [g Hg].
  exists g. unfold gold_lookup. by rewrite Hg.
Qed.

Lemma gold_lookup_In gold (ids : list string) gold_posts g :
  mapM (gold_lookup gold) ids = Ok gold_posts ->
  In g gold_posts -> exists p, assoc p (post_level gold) = Some g.
Proof.
  revert gold_posts. induction ids as [|p ids IH]; intros gold_posts; simpl.
  - by intros [= <-].
  - unfold gold_lookup at 1. destruct (assoc p (post_level gold)) as [g0|] eqn:E; [|done].
    cbn [bind]. destruct (mapM _ ids) as [gs|]; [|done]. cbn [bind].
    intros [= <-] [<-|Hin]; [by exists p|]. by eapply IH.
Qed.

(** The pairs scored by task A.2 are in range when the gold values are small
    and the predictions between 1 and 10. *)
Lemma annotated_in_range (y_trues : list (option Z)) (y_preds : list (option num)) :
  (forall w, In (Some w) y_trues -> WellbeingScorer.small w) ->
  Forall in_bounds y_preds ->
  Forall WellbeingScorer.in_range (WellbeingScorer.annotated y_trues y_preds).
Proof.
  intros Hgold Hpreds. revert y_trues Hgold.
  induction Hpreds as [|w y_preds Hw _ IH]; intros [|[t|] y_trues] Hgold; simpl;
    try done.
  - constructor.
    + split; [apply Hgold; by left|]. destruct w as [v|]; [|done].
      destruct Hw as (k & Hk & Hrange). exists k. split; [done|].
      unfold WellbeingScorer.small. rewrite WellbeingFacts.bound_eq. lia.
    + apply IH. intros w' Hin. apply Hgold. by right.
  - apply IH. intros w' Hin. apply Hgold. by right.
Qed.

Lemma task_A2_collected gold preds :
  gold_complete gold -> gold_annotated gold -> gold_small gold ->
  collected (length (post_ids (timeline_level gold))) preds ->
  Forall in_bounds (predicted_wellbeing_scores preds) ->
  is_Ok (task_A2 gold preds).
Proof.
  intros Hcomplete (p & g & w & Hp & Hg & Hw) Hsmall (_ & _ & Hlen & _) Hbounds.
  unfold task_A2.
  destruct (gold_lookup_complete gold Hcomplete) as (gold_posts & E & Hposts).
  rewrite E. cbn [bind].
  destruct (WellbeingFacts.compute_mse_penalize
              (map post_wellbeing_score gold_posts)
              (predicted_wellbeing_scores preds) true) as (r & -> & _).
  - rewrite length_map. congruence.
  - apply annotated_nonempty; [rewrite length_map; congruence|].
    exists w. rewrite <- Hw. apply in_map.
    apply (mapM_In _ _ _ p g E Hp). unfold gold_lookup. by rewrite Hg.
  - apply annotated_in_range; [|done].
    intros w' (g' & Hw' & Hin)%in_map_iff.
    destruct (gold_lookup_In _ _ _ _ E Hin) as [p' Hp']. by eapply Hsmall.
  - by eexists.
Qed.

Lemma task_B_complete gold preds :
  gold_complete gold -> is_Ok (task_B nli gold preds).
Proof.
  intros Hcomplete. unfold task_B.
  destruct (gold_lookup_complete gold Hcomplete) as (gold_posts & -> & _). cbn [bind].
  destruct (foldM_total (fun _ : list results => True)
              (fun curr_results '(curr_gold_summary_sents, curr_predicted_summary_sents) =>
                 match curr_gold_summary_sents with
                 | _ :: _ =>
                     let* r := NLIScorer.compute_post_nli_gold nli
                                 curr_gold_summary_sents curr_predicted_summary_sents in
                     Ok (curr_results ++ [r])
                 | [] => Ok curr_results
                 end)
              (zip (map post_summary_sents gold_posts) (predicted_summary_sents preds)))
    with (acc := @nil results) as (r & E & _); [|done|by exists r].
  intros b [[|s gold_sents] predicted_sents] _ _; [by eexists|].
  destruct (compute_nli_scores_total nli s gold_sents predicted_sents "B" "post" "gold")
    as [r E]. unfold NLIScorer.compute_post_nli_gold. rewrite E. by eexists.
Qed.

Lemma task_C_accepted d fields tl summary t gold :
  assoc t d = Some (JDict fields) ->
  assoc "timeline_level" fields = Some (JDict tl) ->
  assoc "summary" tl = Some (JStr summary) ->
  is_Ok (task_C sent_tokenize nli (JDict d) t gold).
Proof.
  intros Ht Htl Hs. unfold task_C. cbn [getitem]. rewrite Ht. cbn [bind getitem].
  rewrite Htl. cbn [bind getitem]. rewrite Hs. cbn [bind].
  destruct (summary_sents (timeline_level gold)) as [|s gold_sents]; [by eexists|].
  destruct (compute_nli_scores_total nli s gold_sents
              (strip_nonempty (sent_tokenize summary)) "C" "timeline" "gold") as [r E].
  unfold NLIScorer.compute_timeline_nli_gold. rewrite E. by eexists.
Qed.

(** The scores collected from an accepted submission that holds no
    not-a-number are null or between 1 and 10. *)
Lemma collected_in_bounds pl d fields t (ids : list string) preds :
  assoc t d = Some (JDict fields) ->
  assoc "post_level" fields = Some (JDict pl) ->
  (forall p, In p ids -> exists post, assoc p pl = Some post /\ post_ok post = true) ->
  (forall p pd, In p ids -> post_record (JDict d) t p = Ok (JDict pd) ->
                assoc "wellbeing_score" pd <> Some (JFloat FNaN)) ->
  foldM (collect_post sent_tokenize (JDict d) t) ids no_predictions = Ok preds ->
  Forall in_bounds (predicted_wellbeing_scores preds).
Proof.
  intros Ht Hpl Hposts Hnan Hloop.
  destruct (RunFacts.collect_posts_scores sent_tokenize _ _ _ _ _ Hloop)
    as (scores & -> & Hall). simpl.
  clear Hloop. induction Hall as [|p w ids scores (pd & Hrec & Hnorm) _ IH]; [done|].
  constructor.
  - destruct (Hposts p) as (post & Hp & Hok); [by left|].
    rewrite (post_record_accepted _ _ _ _ _ _ Ht Hpl Hp) in Hrec. injection Hrec as ->.
    destruct (post_ok_inv _ Hok)
      as (pd' & adaptive & maladaptive & summary & score & [= <-] & _ & _ & _ & Ew & Hscore).
    rewrite Ew in Hnorm. cbn [default from_option id] in Hnorm.
    destruct (normalize_score_ok _ Hscore) as (w' & Hw' & Hb).
    rewrite Hw' in Hnorm. injection Hnorm as <-. apply Hb.
    intros ->. eapply (Hnan p pd); [by left| |exact Ew].
    by eapply post_record_accepted.
  - apply IH.
    + intros q Hq. apply Hposts. by right.
    + intros q pd' Hq. apply Hnan. by right.
Qed.

Lemma score_timeline_accepted mapping data do_A1 do_A2 do_B do_C t gold :
  submission_ok mapping data = true ->
  gold_expected mapping t gold ->
  gold_scorable do_A1 do_A2 do_B gold ->
  (do_A2 = true -> no_nan_scores data t gold) ->
  is_Ok (score_timeline sent_tokenize tokenizer bertscore_F nli
           data do_A1 do_A2 do_B do_C t gold).
Proof.
  intros Hok (posts & Hmap & Hposts) (_ & Hcomplete & Hannotated) Hnan.
  destruct (submission_ok_timeline mapping data t posts Hok Hmap)
    as (d & fields & tl & summary & pl & -> & Ht & Htl & Hs & Hpl & Hrecords).
  destruct (collect_posts_accepted d fields pl t (post_ids (timeline_level gold)) Ht Hpl
              (fun p Hp => Hrecords p (Hposts p Hp)) no_predictions 0
              collected_no_predictions) as (preds & E & Hpreds).
  rewrite Nat.add_0_l in Hpreds.
  unfold score_timeline. rewrite E. cbn [bind].
  assert (H1 : is_Ok (when do_A1 (task_A1 tokenizer bertscore_F gold preds))).
  { destruct do_A1; [by eapply task_A1_collected|by eexists]. }
  destruct H1 as [a1 ->]. cbn [bind].
  assert (H2 : is_Ok (when do_A2 (task_A2 gold preds))).
  { destruct do_A2; [|by eexists]. destruct (Hannotated eq_refl) as [Hann Hsmall].
    apply task_A2_collected; auto.
    eapply collected_in_bounds; [exact Ht|exact Hpl| | |exact E].
    - intros p Hp. apply Hrecords, Hposts, Hp.
    - intros p pd Hp. by apply (Hnan eq_refl). }
  destruct H2 as [a2 ->]. cbn [bind].
  assert (H3 : is_Ok (when do_B (task_B nli gold preds))).
  { destruct do_B; [apply task_B_complete; auto|by eexists]. }
  destruct H3 as [b ->]. cbn [bind].
  assert (H4 : is_Ok (when do_C (task_C sent_tokenize nli (JDict d) t gold))).
  { destruct do_C; [by eapply task_C_accepted|by eexists]. }
  destruct H4 as [c ->]. by eexists.
Qed.

(** X7. A submission that the validator accepts is scored: when every gold
    timeline and its posts are those of the mapping file the validator
    checked against, the gold data has what the tasks that are run read
    (spans for A.1, a record for every post for A.2 and B, an annotated post
    and small scores for A.2) and, for task A.2, no submitted wellbeing
    score is not-a-number, [score_submission] returns a result; no lookup,
    type or conversion error stops the run. *)
Theorem accepted_submission_is_scored (mapping : list (string * list string))
    (data : json) (gold_data : list (string * gold_datum))
    (do_A1 do_A2 do_B do_C : bool) :
  submission_ok mapping data = true ->
  (forall t gold, In (t, gold) gold_data ->
     gold_expected mapping t gold
     /\ gold_scorable do_A1 do_A2 do_B gold
     /\ (do_A2 = true -> no_nan_scores data t gold)) ->
  exists r,
    score_submission sent_tokenize tokenizer bertscore_F nli
      data gold_data do_A1 do_A2 do_B do_C = Ok r
    /\ map fst r = map fst gold_data.
Proof.
  intros Hok Hgold. unfold score_submission.
  induction gold_data as [|[t gold] gold_data IH]; [by exists []|].
  destruct (Hgold t gold) as (Hexp & Hscorable & Hnan); [by left|].
  destruct (score_timeline_accepted mapping data do_A1 do_A2 do_B do_C t gold)
    as [curr_results E]; try done.
  destruct IH as (r & Hr & Hkeys); [intros; apply Hgold; by right|].
  cbn [mapM]. rewrite E. cbn [bind]. rewrite Hr. cbn [bind].
  exists ((t, curr_results) :: r). split; [done|]. simpl. by rewrite Hkeys.
Qed.

End Aggregator.

Lemma accepted_submission_is_scored_witness :
  submission_ok Stub.mapping Stub.submission_wellformed = true
  /\ exists r,
       score_submission Stub.sent_tokenize Stub.tokenizer Stub.bertscore_F Stub.nli
         Stub.submission_wellformed Stub.gold_data true true true true = Ok r
       /\ map fst r = ["t1"].
Proof.
  split; [reflexivity|].
  apply (accepted_submission_is_scored Stub.sent_tokenize Stub.tokenizer
           Stub.bertscore_F Stub.nli stub_tokenizer_special_tokens Stub.mapping).
  - reflexivity.
  - intros t gold [[= <- <-]|[]]. split; [|split].
    + exists ["p1"; "p2"]. split; [reflexivity|]. simpl. tauto.
    + split; [|split].
      * intros _. split; vm_compute; discriminate.
      * intros _ p Hp. simpl in Hp. destruct Hp as [<-|[<-|[]]]; eexists; reflexivity.
      * intros _. split.
        -- exists "p1", {| post_summary_sents := ["They went for a walk."];
                           post_wellbeing_score := Some 7 |}, 7.
           split; [left; reflexivity|]. split; reflexivity.
        -- intros p g w Hg Hw. simpl in Hg.
           destruct (String.eqb p "p1"); [injection Hg as <-|].
           { injection Hw as <-. unfold WellbeingScorer.small.
             rewrite WellbeingFacts.bound_eq. lia. }
           destruct (String.eqb p "p2"); [injection Hg as <-|discriminate].
           injection Hw as <-. unfold WellbeingScorer.small.
           rewrite WellbeingFacts.bound_eq. lia.
    + intros _ p fields Hp Hrec. simpl in Hp.
      destruct Hp as [<-|[<-|[]]]; vm_compute in Hrec; injection Hrec as <-; discriminate.
Defined.

(** *** Not-a-number *)

Lemma mask_assign_keeps {A} (f : A -> bool) (a vals r : list A) (x : A) :
  mask_assign a (map f a) vals = Ok r -> In x a -> f x = false -> In x r.
Proof.
  revert vals r. induction a as [|y a IH]; intros vals r; simpl; [done|].
  destruct (f y) eqn:Ey.
  - destruct vals as [|v vals]; [done|].
    destruct (mask_assign a (map f a) vals) as [r'|] eqn:E; simpl; [|done].
    intros [= <-] [->|Hin] Hx; [congruence|]. right. by eapply IH.
  - destruct (mask_assign a (map f a) vals) as [r'|] eqn:E; simpl; [|done].
    intros [= <-] [->|Hin] Hx; [by left|]. right. by eapply IH.
Qed.

(** The penalty leaves the predictions that are not null as they are. *)
Lemma penalize_missing_keeps (g : list Z) (p p' : list (option num)) (v : num) :
  WellbeingScorer.penalize_missing g p (map WellbeingScorer.is_None p) = Ok p' ->
  In (Some v) p -> In (Some v) p'.
Proof.
  unfold WellbeingScorer.penalize_missing.
  destruct (mask_any _); [|by intros [= <-]].
  destruct (if mask_all _ then _ else _) as [E|]; cbn [bind]; [|done].
  destruct (mask_select g _) as [golds|]; cbn [bind]; [|done].
  intros Hassign Hin. by eapply mask_assign_keeps.
Qed.

Lemma annotated_In (y_trues : list (option Z)) (y_preds : list (option num))
    (w : Z) (q : option num) :
  length y_trues = length y_preds ->
  In (w, q) (WellbeingScorer.annotated y_trues y_preds) -> In q y_preds.
Proof.
  revert y_preds. induction y_trues as [|[t|] y_trues IH]; intros [|q' y_preds] Hlen;
    simpl; try done.
  - intros [[= _ <-]|Hin]; [by left|]. right. apply IH; [simpl in Hlen; lia|done].
  - intros Hin. right. apply IH; [simpl in Hlen; lia|done].
Qed.

(** A not-a-number prediction for an annotated post leaves [compute_mse]
    without a result. *)
Lemma compute_mse_nan (y_trues : list (option Z)) (y_preds : list (option num))
    (w : Z) (do_binwise : bool) (suffix : string) :
  length y_trues = length y_preds ->
  In (w, Some (NFloat FNaN)) (WellbeingScorer.annotated y_trues y_preds) ->
  exists e, WellbeingScorer.compute_mse y_trues y_preds true do_binwise suffix = Raise e.
Proof.
  intros Hlen Hin. unfold WellbeingScorer.compute_mse.
  cbn [WellbeingScorer.compute_mse_depth]. unfold WellbeingScorer.compute_mse_body.
  unfold WellbeingScorer.check_and_process_wellbeing_scores.
  rewrite (WellbeingFacts.select_gold _ _ Hlen), (WellbeingFacts.select_pred _ _ Hlen).
  cbn [bind negb].
  destruct (WellbeingScorer.astype_int_gold _) as [g|e]; cbn [bind]; [|by exists e].
  destruct (WellbeingScorer.penalize_missing _ _ _) as [p'|e] eqn:Epen; cbn [bind];
    [|by exists e].
  assert (Hnan : In (Some (NFloat FNaN)) p').
  { eapply penalize_missing_keeps; [exact Epen|].
    apply (in_map snd) in Hin. exact Hin. }
  unfold WellbeingScorer.mean_squared_error.
  destruct (negb _); [by eexists|].
  destruct (mapM_raise
              (fun o : option num =>
                 match o with Some v => num_val v | None => Raise TypeError end)
              p' (Some (NFloat FNaN)) Hnan) as [e ->]; [by eexists|].
  by exists e.
Qed.

Section NotANumber.
Variable sent_tokenize : string -> list string.
Variable tokenizer : string -> list Z.
Variable bertscore_F : string -> string -> Qc.
Variable nli : string -> string -> NLIScorer.prediction.

(** The pair that task A.2 scores for a post of the timeline. *)
Lemma annotated_post gold data t (ids : list string) gold_posts scores p g w pd :
  mapM (gold_lookup gold) ids = Ok gold_posts ->
  Forall2 (fun post_id s =>
             exists fields,
               post_record data t post_id = Ok (JDict fields)
               /\ normalize_wellbeing_score
                    (default JNull (assoc "wellbeing_score" fields)) = Ok s)
          ids scores ->
  In p ids ->
  assoc p (post_level gold) = Some g ->
  post_wellbeing_score g = Some w ->
  post_record data t p = Ok (JDict pd) ->
  assoc "wellbeing_score" pd = Some (JFloat FNaN) ->
  In (w, Some (NFloat FNaN))
     (WellbeingScorer.annotated (map post_wellbeing_score gold_posts) scores).
Proof.
  intros Hgold Hall Hin Hg Hw Hrec Hnan. revert gold_posts Hgold.
  induction Hall as [|q s ids scores (fields & Hq & Hs) _ IH]; intros gold_posts; [done|].
  cbn [mapM]. unfold gold_lookup at 1.
  destruct (assoc q (post_level gold)) as [g0|] eqn:Eq; [|done]. cbn [bind].
  destruct (mapM _ ids) as [gs|] eqn:Egs; [|done]. cbn [bind]. intros [= <-].
  cbn [map WellbeingScorer.annotated].
  destruct (decide (q = p)) as [->|Hne].
  - rewrite Hg in Eq. injection Eq as <-. rewrite Hw.
    rewrite Hrec in Hq. injection Hq as <-. rewrite Hnan in Hs.
    cbn in Hs. injection Hs as <-. by left.
  - destruct Hin as [->|Hin]; [done|].
    specialize (IH Hin gs eq_refl).
    destruct (post_wellbeing_score g0); [by right|done].
Qed.

(** X8. A not-a-number wellbeing score, which the validator accepts, stops
    the scoring when task A.2 is run: if the post is annotated in the gold
    data, [score_submission] raises and no result is returned. *)
Theorem nan_score_stops_task_A2 (data : json) (gold_data : list (string * gold_datum))
    (do_A1 do_B do_C : bool) (t p : string) (gold : gold_datum) (g : gold_post)
    (w : Z) (fields : list (string * json)) :
  In (t, gold) gold_data ->
  In p (post_ids (timeline_level gold)) ->
  assoc p (post_level gold) = Some g ->
  post_wellbeing_score g = Some w ->
  post_record data t p = Ok (JDict fields) ->
  assoc "wellbeing_score" fields = Some (JFloat FNaN) ->
  score_ok (JFloat FNaN) = true
  /\ exists e,
       score_submission sent_tokenize tokenizer bertscore_F nli
         data gold_data do_A1 true do_B do_C = Raise e.
Proof.
  intros Hgold Hp Hg Hw Hrec Hnan. split; [done|].
  unfold score_submission. apply (mapM_raise _ _ (t, gold) Hgold).
  unfold score_timeline.
  destruct (foldM _ _ _) as [preds|e] eqn:Eloop; cbn [bind]; [|by exists e].
  destruct (when do_A1 _) as [a1|e]; cbn [bind]; [|by exists e].
  cbn [when]. unfold task_A2.
  destruct (mapM _ _) as [gold_posts|e] eqn:Egold; cbn [bind]; [|by exists e].
  destruct (RunFacts.collect_posts_scores sent_tokenize _ _ _ _ _ Eloop)
    as (scores & Hscores & Hall).
  simpl in Hscores. rewrite Hscores.
  destruct (compute_mse_nan (map post_wellbeing_score gold_posts) scores w true "")
    as [e ->]; [| |by exists e].
  - rewrite length_map, (WellbeingFacts.mapM_length _ _ _ Egold). by eapply Forall2_length.
  - by eapply annotated_post.
Qed.

End NotANumber.

(** The submission is accepted by the validator, and its not-a-number score
    for the annotated post p1 stops the scoring. *)
Lemma nan_score_stops_task_A2_witness :
  let data :=
    JDict [("t1", JDict [("timeline_level", JDict [("summary", JStr "They struggle.")]);
                         ("post_level",
                          JDict [("p1", JDict [("adaptive_evidence", JList []);
                                               ("maladaptive_evidence", JList []);
                                               ("summary", JStr "");
                                               ("wellbeing_score", JFloat FNaN)]);
                                 ("p2", Stub.post_p2)])])] in
  submission_ok Stub.mapping data = true
  /\ exists e,
       score_submission Stub.sent_tokenize Stub.tokenizer Stub.bertscore_F Stub.nli
         data Stub.gold_data true true true true = Raise e.
Proof.
  intros data. split; [reflexivity|].
  eapply (nan_score_stops_task_A2 Stub.sent_tokenize Stub.tokenizer Stub.bertscore_F
            Stub.nli data Stub.gold_data true true true "t1" "p1").
  - left. reflexivity.
  - left. reflexivity.
  - reflexivity.
  - reflexivity.
  - reflexivity.
  - reflexivity.
Defined.

End AcceptedSubmission.
